(** * The quota engine of [nova/quota.py]

    A shallow embedding of the DB-backed quota driver, the resource
    registry and the usage-counting helpers of [nova/quota.py], with the
    properties the specification states about them.

    Conventions of the embedding

    - Python [int] is [Z] (unbounded, no wrap-around).
    - [None] is the [None] of an [option]; Python truthiness of a string or
      of a dict is written out ([truthy], [dict_truthy]).
    - A [dict] that the code iterates is an insertion-ordered association
      list with the operations of a Python dict ([dict_get], [dict_set],
      [dict_pop]); the mappings that come back from the database are only
      looked up by key and are [gmap]s; a Python [set] is a [gset].
    - Exceptions are the constructors of [exn]; a call either returns
      ([Ok]) or raises ([Raise]).
    - The module-level globals of [quota.py] and the sequence of calls made
      to the collaborators (database, placement, cells) are the state of a
      small state-and-error monad [M]. The answers of the collaborators are
      read from a [World], a snapshot that is an argument of every call, so
      that two calls may see different database contents. *)

From Stdlib Require Import ZArith String List Lia.
From stdpp Require Import base option list gmap sets strings sorting.

Open Scope Z_scope.

(** ** Python values *)

(** [if s:] for a string or [None]. *)
Definition truthy (s : option string) : bool :=
  match s with
  | Some s => negb (String.eqb s "")
  | None => false
  end.

(** [if l:] for a list. *)
Definition list_truthy {A} (l : list A) : bool :=
  match l with [] => false | _ => true end.

(** Insertion-ordered dictionary with string keys. *)
Abbreviation dict V := (list (string * V)) (only parsing).

Section Dict.
Context {V : Type}.

Fixpoint dict_get (k : string) (d : dict V) : option V :=
  match d with
  | [] => None
  | (k', v) :: d' => if decide (k = k') then Some v else dict_get k d'
  end.

Definition dict_in (k : string) (d : dict V) : bool :=
  match dict_get k d with Some _ => true | None => false end.

(** [d[k] = v]: an existing key keeps its position. *)
Fixpoint dict_set (k : string) (v : V) (d : dict V) : dict V :=
  match d with
  | [] => [(k, v)]
  | (k', v') :: d' =>
      if decide (k = k') then (k, v) :: d' else (k', v') :: dict_set k v d'
  end.

(** [d.pop(k, None)] as far as the dictionary is concerned. *)
Fixpoint dict_pop (k : string) (d : dict V) : dict V :=
  match d with
  | [] => []
  | (k', v') :: d' =>
      if decide (k = k') then dict_pop k d' else (k', v') :: dict_pop k d'
  end.

Definition dict_keys (d : dict V) : list string := d.*1.

Definition dict_truthy (d : dict V) : bool := list_truthy d.
End Dict.

(** [sorted(names)] on strings: ascending in the order of [String.compare],
    which is the code-point order Python uses. *)
Definition sorted (l : list string) : list string := merge_sort String.le l.

(** ** Exceptions and results *)

(** The exceptions of [nova.exception] carry their arguments. Of the
    built-in ones, [KeyError] carries the key and [AttributeError] the name
    of the attribute; the string of a [TypeError] or [ValueError] is the
    part of the interpreter's message that names what failed, without the
    names of the function and of the operand types that the interpreter
    puts around it. (One string is not a message of the interpreter:
    ["count_as_dict"] marks the one call of [QuotaEngine.count_as_dict]
    that the collaborators are not modelled on.) *)
Inductive exn : Type :=
| QuotaResourceUnknown (unknown : list string)
| InvalidQuotaMethodUsage (method res : string)
| InvalidQuotaValue (unders : list string)
| OverQuota (overs : list string) (quotas usages headroom : dict Z)
| Invalid (msg : string)
| KeyError (key : string)
| AttributeError (attr : string)
| TypeError (msg : string)
| ValueError (msg : string).

Inductive result (A : Type) : Type :=
| Ok (a : A)
| Raise (e : exn).
Arguments Ok {A} a.
Arguments Raise {A} e.

(** ** Collaborators

    [objects.Quotas], [objects.InstanceMappingList], the placement report
    client, the cell scatter/gather of [nova.context] and [CONF] are not part
    of [quota.py]. Their answers at the time of a call are the fields of a
    [World]. *)

(** A row of the per-user quota table as [_process_quotas] reads it
    ([quota.resource], [quota.hard_limit]). *)
Record QuotaRow : Type := { resource : string; hard_limit : Z }.

(** A row of [api_models.InstanceMapping], reduced to the columns that
    [_user_id_queued_for_delete_populated] filters on ([None] is SQL NULL). *)
Record InstanceMapping : Type := {
  im_project_id : string;
  im_user_id : option string;
  im_queued_for_delete : option bool
}.

(** What a counting function returns: [{'project': {...}, 'user': {...}}],
    either key possibly absent. *)
Record CountDict : Type := {
  count_project : option (dict Z);
  count_user : option (dict Z)
}.

(** What [scatter_gather_cells] holds for one cell: the value of the called
    function, or a failure sentinel ([did_not_respond_sentinel] or the raised
    exception, both recognised by [is_cell_failure_sentinel]). *)
Inductive CellResult (A : Type) : Type :=
| CellValue (a : A)
| CellFailure.
Arguments CellValue {A} a.
Arguments CellFailure {A}.

Definition is_cell_failure_sentinel {A} (r : CellResult A) : bool :=
  match r with CellFailure => true | CellValue _ => false end.

Record InstanceGroup : Type := { members : list string }.

(** What a counting function receives as its [group]: an [InstanceGroup]
    object or, when the function is called with the arguments of another
    signature, the project id that stands in that position. *)
Inductive GroupArg : Type :=
| A_group (group : InstanceGroup)
| A_project_id (project_id : option string).
Coercion A_group : InstanceGroup >-> GroupArg.

Record RequestContext : Type := {
  ctx_project_id : option string;
  ctx_user_id : option string;
  ctx_quota_class : option string
}.

Record World : Type := {
  (** [CONF.quota[flag]] *)
  CONF_quota : string -> Z;
  CONF_quota_count_usage_from_placement : bool;
  CONF_api_instance_list_per_project_cells : bool;
  (** [objects.Quotas] *)
  Quotas_get_default_class : gmap string Z;
  Quotas_get_all_class_by_name : string -> gmap string Z;
  Quotas_get_all : option string -> list QuotaRow;
  Quotas_get_all_by_project : option string -> gmap string Z;
  Quotas_get_all_by_project_and_user :
    option string -> option string -> gmap string Z;
  (** [main_db_api.quota_get_per_project_resources()] *)
  quota_get_per_project_resources : list string;
  (** the [instance_mappings] table of the API database *)
  instance_mappings : list InstanceMapping;
  (** [objects.InstanceMappingList] *)
  InstanceMappingList_get_counts : option string -> option string -> CountDict;
  InstanceMappingList_get_count_by_uuids_and_user :
    list string -> option string -> Z;
  (** [report_client_singleton().get_usages_counts_for_quota] *)
  get_usages_counts_for_quota : option string -> option string -> CountDict;
  (** [objects.CellMappingList.get_by_project_id], [nova_context.CELLS] *)
  CellMappingList_get_by_project_id : option string -> list string;
  CELLS : list string;
  (** [scatter_gather_cells(ctx, cells, CELL_TIMEOUT,
      InstanceList.get_counts, project_id, user_id=user_id)] *)
  scatter_gather_get_counts :
    list string -> option string -> option string ->
    dict (CellResult CountDict);
  (** [scatter_gather_all_cells(ctx, group_member_uuids)] for the filters
      built from a user and the members of a group *)
  scatter_gather_group_member_uuids :
    option string -> list string -> dict (CellResult (gset string));
  (** [objects.BuildRequestList.get_by_filters]: the instance uuids of the
      build requests found *)
  BuildRequestList_get_by_filters : option string -> list string -> list string;
  (** [objects.InstanceGroupList.get_counts] *)
  InstanceGroupList_get_counts : option string -> option string -> CountDict;
  (** [objects.KeyPairList.get_count_by_user] *)
  KeyPairList_get_count_by_user : option string -> Z
}.

(** ** Process state and the monad of the module *)

(** A call to a collaborator, or a warning written to the log.
    ([LOG.debug] lines are not recorded.) *)
Inductive Call : Type :=
| Call_Quotas_get_default_class
| Call_Quotas_get_all_class_by_name (quota_class : string)
| Call_Quotas_get_all (project_id : option string)
| Call_Quotas_get_all_by_project (project_id : option string)
| Call_Quotas_get_all_by_project_and_user (project_id user_id : option string)
| Call_count_as_dict (name : string) (project_id user_id : option string)
| Call_exists_query (project_id : option string)
| Call_InstanceMappingList_get_counts (project_id user_id : option string)
| Call_InstanceMappingList_get_count_by_uuids_and_user (user_id : option string)
| Call_get_usages_counts_for_quota (project_id user_id : option string)
| Call_scatter_gather_cells (project_id user_id : option string)
| Call_scatter_gather_all_cells
| Call_BuildRequestList_get_by_filters
| Call_InstanceGroupList_get_counts (project_id user_id : option string)
| Call_KeyPairList_get_count_by_user (user_id : option string)
| LOG_warning (msg : string).

Record ProcState : Type := {
  UID_QFD_POPULATED_CACHE_BY_PROJECT : gset (option string);
  UID_QFD_POPULATED_CACHE_ALL : bool;
  calls : list Call
}.

(** The state of a freshly imported module. *)
Definition initial_state : ProcState :=
  {| UID_QFD_POPULATED_CACHE_BY_PROJECT := ∅;
     UID_QFD_POPULATED_CACHE_ALL := false;
     calls := [] |}.

Definition M (A : Type) : Type := ProcState -> result A * ProcState.

Definition ret {A} (a : A) : M A := fun st => (Ok a, st).

Definition raise {A} (e : exn) : M A := fun st => (Raise e, st).

Definition bind {A B} (m : M A) (f : A -> M B) : M B :=
  fun st =>
    match m st with
    | (Ok a, st') => f a st'
    | (Raise e, st') => (Raise e, st')
    end.

Notation "x <- m ;; k" := (bind m (fun x => k))
  (at level 100, m at next level, right associativity).
Notation "m ;;; k" := (bind m (fun _ => k))
  (at level 100, right associativity).

(** Record a call to a collaborator. *)
Definition call (c : Call) : M unit :=
  fun st =>
    (Ok tt,
     {| UID_QFD_POPULATED_CACHE_BY_PROJECT := UID_QFD_POPULATED_CACHE_BY_PROJECT st;
        UID_QFD_POPULATED_CACHE_ALL := UID_QFD_POPULATED_CACHE_ALL st;
        calls := calls st ++ [c] |}).

Definition get_state : M ProcState := fun st => (Ok st, st).

Definition set_UID_QFD_POPULATED_CACHE_ALL (b : bool) : M unit :=
  fun st =>
    (Ok tt,
     {| UID_QFD_POPULATED_CACHE_BY_PROJECT := UID_QFD_POPULATED_CACHE_BY_PROJECT st;
        UID_QFD_POPULATED_CACHE_ALL := b;
        calls := calls st |}).

Definition add_UID_QFD_POPULATED_CACHE_BY_PROJECT (project_id : option string)
    : M unit :=
  fun st =>
    (Ok tt,
     {| UID_QFD_POPULATED_CACHE_BY_PROJECT :=
          {[ project_id ]} ∪ UID_QFD_POPULATED_CACHE_BY_PROJECT st;
        UID_QFD_POPULATED_CACHE_ALL := UID_QFD_POPULATED_CACHE_ALL st;
        calls := calls st |}).

(** [d[k]], raising [KeyError] on a missing key. *)
Definition getitem {V} (k : string) (d : dict V) : M V :=
  match dict_get k d with
  | Some v => ret v
  | None => raise (KeyError k)
  end.

(** [group.members]; a string and [None] have no such attribute. *)
Definition getattr_members (group : GroupArg) : M (list string) :=
  match group with
  | A_group group => ret (members group)
  | A_project_id _ => raise (AttributeError "members")
  end.

(** [for x in xs: acc = body(x, acc)] with a body that may raise. *)
Fixpoint for_each {A S} (xs : list A) (body : A -> S -> M S) (acc : S) : M S :=
  match xs with
  | [] => ret acc
  | x :: xs' => acc' <- body x acc ;; for_each xs' body acc'
  end.

(** ** Resources *)

(** The counting callable of a [CountableResource]. The three shapes are the
    three signatures registered in [QUOTAS]: [(context, project_id,
    user_id=None)], [(context, user_id)] and [(context, group, user_id)]. *)
Inductive CountFn : Type :=
| CountByProject
    (f : World -> RequestContext -> option string -> option string -> M CountDict)
| CountByUser (f : World -> RequestContext -> option string -> M CountDict)
| CountByGroup
    (f : World -> RequestContext -> GroupArg -> option string -> M CountDict).

(** [BaseResource], [AbsoluteResource] and [CountableResource]. *)
Inductive Resource : Type :=
| BaseResource (name : string) (flag : option string)
| AbsoluteResource (name : string) (flag : option string)
| CountableResource (name : string) (count_as_dict : CountFn)
    (flag : option string).

Definition resource_name (r : Resource) : string :=
  match r with
  | BaseResource n _ | AbsoluteResource n _ | CountableResource n _ _ => n
  end.

Definition resource_flag (r : Resource) : option string :=
  match r with
  | BaseResource _ f | AbsoluteResource _ f | CountableResource _ _ f => f
  end.

(** [BaseResource.default]: [CONF.quota[self.flag] if self.flag else -1]. *)
Definition resource_default (w : World) (r : Resource) : Z :=
  match resource_flag r with
  | Some f => if truthy (Some f) then CONF_quota w f else -1
  | None => -1
  end.

(** The class attribute [valid_method]; [BaseResource] has none. *)
Definition valid_method (r : Resource) : option string :=
  match r with
  | BaseResource _ _ => None
  | AbsoluteResource _ _ | CountableResource _ _ _ => Some "check"
  end.

(** [isinstance(resource, CountableResource)] with its callable. *)
Definition countable (r : Resource) : option CountFn :=
  match r with
  | CountableResource _ f _ => Some f
  | _ => None
  end.

Definition _valid_method_call_check_resource
    (name : string) (method : string) (resources : dict Resource) : M unit :=
  match dict_get name resources with
  | None => raise (InvalidQuotaMethodUsage method name)
  | Some res =>
      match valid_method res with
      | None => raise (AttributeError "valid_method")
      | Some vm =>
          if decide (vm ≠ method)
          then raise (InvalidQuotaMethodUsage method name)
          else ret tt
      end
  end.

Definition _valid_method_call_check_resources {V}
    (resource_values : dict V) (method : string) (resources : dict Resource)
    : M unit :=
  for_each (dict_keys resource_values)
    (fun name _ => _valid_method_call_check_resource name method resources) tt.

(** ** The DB quota driver *)

(** One entry of the dictionary built by [_process_quotas]:
    [{'limit': l}], with ['in_use'] and ['remains'] when requested. *)
Module QuotaValue.
Record t : Type := {
  limit : Z;
  in_use : option Z;
  remains : option Z
}.
End QuotaValue.

(** [x or y] on a mapping that came as an optional argument. *)
Definition map_truthy (m : option (gmap string Z)) : bool :=
  match m with
  | Some m => negb (bool_decide (m = ∅))
  | None => false
  end.

Module DbQuotaDriver.

Definition UNLIMITED_VALUE : Z := -1.

Definition get_reserved : Z := 0.

Definition get_defaults (w : World) (context : RequestContext)
    (resources : dict Resource) : M (dict Z) :=
  call Call_Quotas_get_default_class ;;;
  let default_quotas := Quotas_get_default_class w in
  ret (fold_left
         (fun quotas resource =>
            dict_set (resource_name resource)
              (default (resource_default w resource)
                 (default_quotas !! resource_name resource))
              quotas)
         resources.*2 []).

Definition get_class_quotas (w : World) (context : RequestContext)
    (resources : dict Resource) (quota_class : string) : M (dict Z) :=
  call (Call_Quotas_get_all_class_by_name quota_class) ;;;
  let class_quotas := Quotas_get_all_class_by_name w quota_class in
  ret (fold_left
         (fun quotas resource =>
            dict_set (resource_name resource)
              (default (resource_default w resource)
                 (class_quotas !! resource_name resource))
              quotas)
         resources.*2 []).

(** [usages] maps a resource name to the value of its [{'in_use': n}]. *)
Definition _process_quotas (w : World) (context : RequestContext)
    (resources : dict Resource) (project_id : option string)
    (quotas : gmap string Z) (quota_class : option string)
    (usages : option (dict Z)) (remains : bool) : M (dict QuotaValue.t) :=
  let quota_class :=
    if decide (project_id = ctx_project_id context)
    then ctx_quota_class context else quota_class in
  class_quotas <-
    match quota_class with
    | Some qc =>
        if truthy (Some qc)
        then call (Call_Quotas_get_all_class_by_name qc) ;;;
             ret (Quotas_get_all_class_by_name w qc)
        else ret ∅
    | None => ret ∅
    end ;;
  default_quotas <- get_defaults w context resources ;;
  modified_quotas <-
    for_each resources.*2
      (fun resource modified_quotas =>
         d <- getitem (resource_name resource) default_quotas ;;
         let limit :=
           default (default d (class_quotas !! resource_name resource))
             (quotas !! resource_name resource) in
         ret (dict_set (resource_name resource)
                {| QuotaValue.limit := limit;
                   QuotaValue.in_use :=
                     match usages with
                     | Some us =>
                         if dict_truthy us
                         then Some (default 0
                                      (dict_get (resource_name resource) us))
                         else None
                     | None => None
                     end;
                   QuotaValue.remains :=
                     if remains then Some limit else None |}
                modified_quotas))
      [] ;;
  if remains then
    call (Call_Quotas_get_all project_id) ;;;
    let all_quotas := Quotas_get_all w project_id in
    for_each all_quotas
      (fun quota modified_quotas =>
         match dict_get (resource quota) modified_quotas with
         | None => ret modified_quotas
         | Some qv =>
             match QuotaValue.remains qv with
             | None => raise (KeyError "remains")
             | Some r =>
                 ret (dict_set (resource quota)
                        {| QuotaValue.limit := QuotaValue.limit qv;
                           QuotaValue.in_use := QuotaValue.in_use qv;
                           QuotaValue.remains := Some (r - hard_limit quota) |}
                        modified_quotas)
             end
         end)
      modified_quotas
  else ret modified_quotas.

(** [resource.count_as_dict(context, project_id)] when [kw] is [None] and
    [resource.count_as_dict(context, project_id, user_id=u)] when [kw] is
    [Some u], for each of the three signatures. A counter that takes a user
    only cannot bind a second [user_id], and one that takes a group and a
    user cannot be called without the user: these calls fail before the
    counter runs. A counter that takes a group and a user does run when it
    is given both arguments, with the project id as its group. *)
Definition invoke_count_as_dict (w : World) (context : RequestContext)
    (resource : Resource) (count_as_dict : CountFn)
    (project_id : option string) (kw : option (option string))
    : M CountDict :=
  call (Call_count_as_dict (resource_name resource) project_id
          (default None kw)) ;;;
  match count_as_dict, kw with
  | CountByProject f, None => f w context project_id None
  | CountByProject f, Some user_id => f w context project_id user_id
  | CountByUser f, None => f w context project_id
  | CountByUser f, Some _ =>
      raise (TypeError "got multiple values for argument 'user_id'")
  | CountByGroup f, None =>
      raise (TypeError "missing 1 required positional argument: 'user_id'")
  | CountByGroup f, Some user_id =>
      f w context (A_project_id project_id) user_id
  end.

Definition _get_usages (w : World) (context : RequestContext)
    (resources : dict Resource) (project_id : option string)
    (user_id : option string) : M (dict Z) :=
  for_each resources.*2
    (fun resource usages =>
       match countable resource with
       | None => ret usages
       | Some count_as_dict =>
           if dict_in (resource_name resource) usages then ret usages
           else if bool_decide (resource_name resource ∈
                                  ["key_pairs"; "server_group_members"])
           then ret (dict_set (resource_name resource) 0 usages)
           else
             ck <-
               (if bool_decide (resource_name resource ∈
                                  quota_get_per_project_resources w)
                then
                  count <- invoke_count_as_dict w context resource
                             count_as_dict project_id None ;;
                  ret (count, "project")
                else
                  count <- invoke_count_as_dict w context resource
                             count_as_dict project_id (Some user_id) ;;
                  ret (count, if truthy user_id then "user" else "project")) ;;
             let '(count, key) := ck in
             counted <-
               match (if String.eqb key "user" then count_user count
                      else count_project count) with
               | Some d => ret d
               | None => raise (KeyError key)
               end ;;
             ret (fold_left
                    (fun usages rc => dict_set rc.1 rc.2 usages)
                    counted usages)
       end)
    [].

Definition get_user_quotas (w : World) (context : RequestContext)
    (resources : dict Resource) (project_id user_id : option string)
    (quota_class : option string) (usages : bool)
    (project_quotas user_quotas : option (gmap string Z))
    : M (dict QuotaValue.t) :=
  user_quotas <-
    (if map_truthy user_quotas then ret (default ∅ user_quotas)
     else call (Call_Quotas_get_all_by_project_and_user project_id user_id) ;;;
          ret (Quotas_get_all_by_project_and_user w project_id user_id)) ;;
  proj_quotas <-
    (if map_truthy project_quotas then ret (default ∅ project_quotas)
     else call (Call_Quotas_get_all_by_project project_id) ;;;
          ret (Quotas_get_all_by_project w project_id)) ;;
  let user_quotas :=
    map_fold
      (fun key value (user_quotas : gmap string Z) =>
         if bool_decide (key ∉ dom user_quotas)
         then <[key := value]> user_quotas else user_quotas)
      user_quotas proj_quotas in
  user_usages <-
    (if usages then _get_usages w context resources project_id user_id
     else ret []) ;;
  _process_quotas w context resources project_id user_quotas quota_class
    (Some user_usages) false.

Definition get_project_quotas (w : World) (context : RequestContext)
    (resources : dict Resource) (project_id : option string)
    (quota_class : option string) (usages remains : bool)
    (project_quotas : option (gmap string Z)) : M (dict QuotaValue.t) :=
  project_quotas <-
    (if map_truthy project_quotas then ret (default ∅ project_quotas)
     else call (Call_Quotas_get_all_by_project project_id) ;;;
          ret (Quotas_get_all_by_project w project_id)) ;;
  project_usages <-
    (if usages then _get_usages w context resources project_id None
     else ret []) ;;
  _process_quotas w context resources project_id project_quotas quota_class
    (Some project_usages) remains.

Definition _is_unlimited_value (v : Z) : bool := v <=? UNLIMITED_VALUE.

Definition _sum_quota_values (v1 v2 : Z) : Z :=
  if _is_unlimited_value v1 || _is_unlimited_value v2
  then UNLIMITED_VALUE
  else v1 + v2.

Definition _sub_quota_values (v1 v2 : Z) : Z :=
  if _is_unlimited_value v1 || _is_unlimited_value v2
  then UNLIMITED_VALUE
  else v1 - v2.

(** One entry of the result of [get_settable_quotas]. *)
Record SettableQuota : Type := { minimum : Z; maximum : Z }.

Definition get_settable_quotas (w : World) (context : RequestContext)
    (resources : dict Resource) (project_id user_id : option string)
    : M (dict SettableQuota) :=
  call (Call_Quotas_get_all_by_project project_id) ;;;
  let db_proj_quotas := Quotas_get_all_by_project w project_id in
  project_quotas <-
    get_project_quotas w context resources project_id None true true
      (Some db_proj_quotas) ;;
  if truthy user_id then
    call (Call_Quotas_get_all_by_project_and_user project_id user_id) ;;;
    let setted_quotas :=
      Quotas_get_all_by_project_and_user w project_id user_id in
    user_quotas <-
      get_user_quotas w context resources project_id user_id None true
        (Some db_proj_quotas) (Some setted_quotas) ;;
    for_each user_quotas
      (fun kv settable_quotas =>
         let '(key, value) := kv in
         pq <- getitem key project_quotas ;;
         rem <-
           match QuotaValue.remains pq with
           | Some r => ret r
           | None => raise (KeyError "remains")
           end ;;
         let maximum :=
           _sum_quota_values rem (default 0 (setted_quotas !! key)) in
         minimum <-
           match QuotaValue.in_use value with
           | Some u => ret u
           | None => raise (KeyError "in_use")
           end ;;
         ret (dict_set key {| minimum := minimum; maximum := maximum |}
                settable_quotas))
      []
  else
    for_each project_quotas
      (fun kv settable_quotas =>
         let '(key, value) := kv in
         rem <-
           match QuotaValue.remains value with
           | Some r => ret r
           | None => raise (KeyError "remains")
           end ;;
         used <-
           match QuotaValue.in_use value with
           | Some u => ret u
           | None => raise (KeyError "in_use")
           end ;;
         let minimum :=
           Z.max (_sub_quota_values (QuotaValue.limit value) rem) used in
         ret (dict_set key {| minimum := minimum; maximum := -1 |}
                settable_quotas))
      [].

(** [keys] is the sequence of the keys in iteration order ([len(keys)] is
    its length). *)
Definition _get_quotas (w : World) (context : RequestContext)
    (resources : dict Resource) (keys : list string)
    (project_id user_id : option string)
    (project_quotas : option (gmap string Z)) : M (dict Z) :=
  let desired : gset string := list_to_set keys in
  let sub_resources : dict Resource :=
    filter (fun kv => kv.1 ∈ desired) resources in
  if decide (length keys ≠ length sub_resources) then
    let unknown : gset string :=
      desired ∖ list_to_set (dict_keys sub_resources) in
    raise (QuotaResourceUnknown (sorted (elements unknown)))
  else
    quotas <-
      (if truthy user_id then
         get_user_quotas w context sub_resources project_id user_id
           (ctx_quota_class context) false project_quotas None
       else
         get_project_quotas w context sub_resources project_id
           (ctx_quota_class context) false false project_quotas) ;;
    ret (map (fun kv => (kv.1, QuotaValue.limit kv.2)) quotas).

(** [min(val for val in (a, b) if val is not None)] *)
Definition min_present (a b : option Z) : M Z :=
  match a, b with
  | Some x, Some y => ret (Z.min x y)
  | Some x, None => ret x
  | None, Some y => ret y
  | None, None => raise (ValueError "min() arg is an empty sequence")
  end.

Definition limit_check (w : World) (context : RequestContext)
    (resources : dict Resource) (values : dict Z)
    (project_id user_id : option string) : M unit :=
  _valid_method_call_check_resources values "check" resources ;;;
  let unders := (filter (fun kv => kv.2 < 0) values).*1 in
  if list_truthy unders then raise (InvalidQuotaValue (sorted unders))
  else
    let project_id :=
      match project_id with
      | None => ctx_project_id context
      | Some _ => project_id
      end in
    let user_id :=
      match user_id with
      | None => ctx_user_id context
      | Some _ => user_id
      end in
    call (Call_Quotas_get_all_by_project project_id) ;;;
    let project_quotas := Quotas_get_all_by_project w project_id in
    quotas <-
      _get_quotas w context resources (dict_keys values) project_id None
        (Some project_quotas) ;;
    user_quotas <-
      _get_quotas w context resources (dict_keys values) project_id user_id
        (Some project_quotas) ;;
    overs <-
      for_each values
        (fun kv overs =>
           let '(key, val) := kv in
           q <- getitem key quotas ;;
           if (0 <=? q) && (q <? val) then ret (overs ++ [key])
           else
             uq <- getitem key user_quotas ;;
             if (0 <=? uq) && (uq <? val) then ret (overs ++ [key])
             else ret overs)
        [] ;;
    if list_truthy overs then
      headroom <-
        for_each overs
          (fun key headroom =>
             h <- min_present (dict_get key quotas) (project_quotas !! key) ;;
             ret (dict_set key h headroom))
          [] ;;
      raise (OverQuota (sorted overs) quotas [] headroom)
    else ret tt.

(** [x or y] on integers. *)
Definition int_or (x y : Z) : Z := if x =? 0 then y else x.

(** The contents of the two dictionaries passed as [project_values] and
    [user_values] when the call ends. The method pops keys from them, so
    the caller, who holds the same objects, sees these contents. (When an
    argument is [None] the dictionary is the local [{}].) Were the same
    object passed for both, no key would be popped, as here. *)
Record ArgDicts : Type := {
  project_values_after : dict Z;
  user_values_after : dict Z
}.

Definition limit_check_project_and_user (w : World)
    (context : RequestContext) (resources : dict Resource)
    (project_values user_values : option (dict Z))
    (project_id user_id : option string)
    : ProcState -> result unit * ArgDicts * ProcState :=
  fun st =>
  let project_values := default [] project_values in
  let user_values := default [] user_values in
  let validation : M unit :=
    _valid_method_call_check_resources project_values "check" resources ;;;
    _valid_method_call_check_resources user_values "check" resources ;;;
    (if negb (dict_truthy project_values || dict_truthy user_values)
     then raise (Invalid
       "Must specify at least one of project_values or user_values for the limit check.")
     else ret tt) ;;;
    for_each [project_values; user_values]
      (fun vals _ =>
         let unders := (filter (fun kv => kv.2 < 0) vals).*1 in
         if list_truthy unders then raise (InvalidQuotaValue (sorted unders))
         else ret tt)
      tt in
  match validation st with
  | (Raise e, st) =>
      (Raise e,
       {| project_values_after := project_values;
          user_values_after := user_values |}, st)
  | (Ok _, st) =>
      let all_keys : gset string :=
        list_to_set (dict_keys project_values) ∪
        list_to_set (dict_keys user_values) in
      let keys_to_merge : gset string :=
        (list_to_set (dict_keys project_values)
           ∖ list_to_set (dict_keys user_values)) ∪
        (list_to_set (dict_keys user_values)
           ∖ list_to_set (dict_keys project_values)) in
      let merged :=
        fold_left
          (fun acc key =>
             let '(merged_values, project_values, user_values) := acc in
             (dict_set key
                (int_or (default 0 (dict_get key project_values))
                        (default 0 (dict_get key user_values)))
                merged_values,
              dict_pop key project_values,
              dict_pop key user_values))
          (elements keys_to_merge)
          ([], project_values, user_values) in
      let '(merged_values, project_values, user_values) := merged in
      let project_id :=
        match project_id with
        | None => ctx_project_id context
        | Some _ => project_id
        end in
      let user_id :=
        match user_id with
        | None => ctx_user_id context
        | Some _ => user_id
        end in
      let checks : M unit :=
        call (Call_Quotas_get_all_by_project project_id) ;;;
        let project_quotas := Quotas_get_all_by_project w project_id in
        quotas <-
          _get_quotas w context resources (elements all_keys) project_id None
            (Some project_quotas) ;;
        user_quotas <-
          _get_quotas w context resources (elements all_keys) project_id
            user_id (Some project_quotas) ;;
        (if dict_truthy merged_values then
           let merged_quotas :=
             fold_left
               (fun merged_quotas kv =>
                  match dict_get kv.1 merged_quotas with
                  | Some m => dict_set kv.1 (Z.min m kv.2) merged_quotas
                  | None => dict_set kv.1 kv.2 merged_quotas
                  end)
               user_quotas quotas in
           overs <-
             for_each merged_values
               (fun kv overs =>
                  let '(key, val) := kv in
                  mq <- getitem key merged_quotas ;;
                  if (0 <=? mq) && (mq <? val) then ret (overs ++ [key])
                  else ret overs)
               [] ;;
           if list_truthy overs then
             headroom <-
               for_each overs
                 (fun key headroom =>
                    mq <- getitem key merged_quotas ;;
                    ret (dict_set key mq headroom))
                 [] ;;
             raise (OverQuota (sorted overs) merged_quotas [] headroom)
           else ret tt
         else ret tt) ;;;
        found <-
          for_each (dict_keys user_values)
            (fun key acc =>
               let '(overs, over_user_quota) := acc in
               q <- getitem key quotas ;;
               over_project <-
                 (if 0 <=? q then
                    pv <- getitem key project_values ;; ret (q <? pv)
                  else ret false) ;;
               if over_project : bool then ret (overs ++ [key], over_user_quota)
               else
                 uq <- getitem key user_quotas ;;
                 over_user <-
                   (if 0 <=? uq then
                      uv <- getitem key user_values ;; ret (uq <? uv)
                    else ret false) ;;
                 if over_user : bool then ret (overs ++ [key], true)
                 else ret (overs, over_user_quota))
            ([], false) ;;
        let '(overs, over_user_quota) := found in
        if list_truthy overs then
          let quotas_exceeded :=
            if over_user_quota : bool then user_quotas else quotas in
          headroom <-
            for_each overs
              (fun key headroom =>
                 v <- getitem key quotas_exceeded ;;
                 ret (dict_set key v headroom))
              [] ;;
          raise (OverQuota (sorted overs) quotas_exceeded [] headroom)
        else ret tt in
      let '(r, st) := checks st in
      (r,
       {| project_values_after := project_values;
          user_values_after := user_values |}, st)
  end.

End DbQuotaDriver.

(** ** The no-op driver *)

Module NoopQuotaDriver.

Definition get_reserved : Z := -1.

Definition get_defaults (context : RequestContext) (resources : dict Resource)
    : dict Z :=
  fold_left
    (fun quotas resource => dict_set (resource_name resource) (-1) quotas)
    resources.*2 [].

Definition get_class_quotas (context : RequestContext)
    (resources : dict Resource) (quota_class : string) : dict Z :=
  fold_left
    (fun quotas resource => dict_set (resource_name resource) (-1) quotas)
    resources.*2 [].

Definition _get_noop_quotas (resources : dict Resource)
    (usages remains : bool) : dict QuotaValue.t :=
  fold_left
    (fun quotas resource =>
       dict_set (resource_name resource)
         {| QuotaValue.limit := -1;
            QuotaValue.in_use := if usages then Some (-1) else None;
            QuotaValue.remains := if remains then Some (-1) else None |}
         quotas)
    resources.*2 [].

Definition get_user_quotas (context : RequestContext)
    (resources : dict Resource) (project_id user_id : option string)
    (quota_class : option string) (usages : bool) : dict QuotaValue.t :=
  _get_noop_quotas resources usages false.

Definition get_project_quotas (context : RequestContext)
    (resources : dict Resource) (project_id : option string)
    (quota_class : option string) (usages remains : bool)
    : dict QuotaValue.t :=
  _get_noop_quotas resources usages remains.

Definition get_settable_quotas (context : RequestContext)
    (resources : dict Resource) (project_id user_id : option string)
    : dict DbQuotaDriver.SettableQuota :=
  fold_left
    (fun quotas resource =>
       dict_set (resource_name resource)
         {| DbQuotaDriver.minimum := 0; DbQuotaDriver.maximum := -1 |} quotas)
    resources.*2 [].

Definition limit_check (context : RequestContext) (resources : dict Resource)
    (values : dict Z) (project_id user_id : option string) : unit := tt.

Definition limit_check_project_and_user (context : RequestContext)
    (resources : dict Resource) (project_values user_values : option (dict Z))
    (project_id user_id : option string) : unit := tt.

End NoopQuotaDriver.

(** ** The unified limits driver *)

(** What [nova.limit.local] and [nova.limit.placement] answer at the time
    of a call. *)
Record Limits : Type := {
  (** [local_limit.get_legacy_default_limits()] *)
  local_limit_get_legacy_default_limits : gmap string Z;
  (** [placement_limit.get_legacy_default_limits()] *)
  placement_limit_get_legacy_default_limits : gmap string Z;
  (** [placement_limit.get_legacy_project_limits(project_id)] *)
  placement_limit_get_legacy_project_limits : option string -> gmap string Z;
  (** [local_limit.get_in_use(context, project_id)] *)
  local_limit_get_in_use : option string -> gmap string Z;
  (** [placement_limit.get_legacy_counts(context, project_id)] *)
  placement_limit_get_legacy_counts : option string -> gmap string Z
}.

(** The exceptions of the other drivers and of the engine: those of the DB
    driver, [NotImplementedError] and the [ImportError] of
    [importutils.import_object]. *)
Inductive error : Type :=
| DriverError (e : exn)
| NotImplementedError (what : string)
| ImportError (name : string).

Inductive outcome (A : Type) : Type :=
| Returns (a : A)
| Raises (e : error).
Arguments Returns {A} a.
Arguments Raises {A} e.

Module UnifiedLimitsDriver.

Definition __init__ : M unit :=
  call (LOG_warning
    "The Unified Limits Quota Driver is experimental and is under active development. Do not use this driver.").

Definition get_reserved : Z := 0.

Definition get_defaults (ul : Limits) (context : RequestContext)
    (resources : dict Resource) : dict Z :=
  let local_limits := local_limit_get_legacy_default_limits ul in
  let placement_limits := placement_limit_get_legacy_default_limits ul in
  fold_left
    (fun quotas resource =>
       match placement_limits !! resource_name resource with
       | Some limit => dict_set (resource_name resource) limit quotas
       | None =>
           dict_set (resource_name resource)
             (default (-1) (local_limits !! resource_name resource)) quotas
       end)
    resources.*2 [].

Definition get_class_quotas (ul : Limits) (context : RequestContext)
    (resources : dict Resource) (quota_class : string) : dict Z :=
  get_defaults ul context resources.

Definition get_project_quotas (ul : Limits) (context : RequestContext)
    (resources : dict Resource) (project_id : option string)
    (quota_class : option string) (usages remains : bool)
    : outcome (dict QuotaValue.t) :=
  match quota_class with
  | Some _ => Raises (NotImplementedError "quota_class")
  | None =>
      if remains then Raises (NotImplementedError "remains")
      else
        let local_limits := local_limit_get_legacy_default_limits ul in
        let placement_limits :=
          placement_limit_get_legacy_project_limits ul project_id in
        let project_quotas :=
          fold_left
            (fun project_quotas resource =>
               let limit :=
                 match placement_limits !! resource_name resource with
                 | Some limit => limit
                 | None => default (-1) (local_limits !! resource_name resource)
                 end in
               dict_set (resource_name resource)
                 {| QuotaValue.limit := limit;
                    QuotaValue.in_use := None;
                    QuotaValue.remains := None |}
                 project_quotas)
            resources.*2 [] in
        if usages then
          let local_in_use := local_limit_get_in_use ul project_id in
          let p_in_use := placement_limit_get_legacy_counts ul project_id in
          fold_left
            (fun acc resource =>
               match acc with
               | Raises e => Raises e
               | Returns project_quotas =>
                   let usage_count := 0 in
                   let usage_count :=
                     match local_in_use !! resource_name resource with
                     | Some n => n
                     | None => usage_count
                     end in
                   let usage_count :=
                     match p_in_use !! resource_name resource with
                     | Some n => n
                     | None => usage_count
                     end in
                   match dict_get (resource_name resource) project_quotas with
                   | Some entry =>
                       Returns
                         (dict_set (resource_name resource)
                            {| QuotaValue.limit := QuotaValue.limit entry;
                               QuotaValue.in_use := Some usage_count;
                               QuotaValue.remains := QuotaValue.remains entry |}
                            project_quotas)
                   | None =>
                       Raises (DriverError (KeyError (resource_name resource)))
                   end
               end)
            resources.*2 (Returns project_quotas)
        else Returns project_quotas
  end.

Definition get_user_quotas (ul : Limits) (context : RequestContext)
    (resources : dict Resource) (project_id user_id : option string)
    (quota_class : option string) (usages : bool)
    : outcome (dict QuotaValue.t) :=
  get_project_quotas ul context resources project_id quota_class usages false.

End UnifiedLimitsDriver.

(** ** Counting functions and the migration gate *)

(** The filter of [_user_id_queued_for_delete_populated]:
    [queued_for_delete IS NULL OR (user_id IS NULL AND queued_for_delete =
    false)]; a comparison with NULL does not hold. *)
Definition unmigrated_filter (m : InstanceMapping) : bool :=
  match im_queued_for_delete m with
  | None => true
  | Some qfd => bool_decide (im_user_id m = None) && negb qfd
  end.

Definition _user_id_queued_for_delete_populated (w : World)
    (context : RequestContext) (project_id : option string) : M bool :=
  call (Call_exists_query project_id) ;;;
  let query := filter (fun m => unmigrated_filter m = true) (instance_mappings w) in
  let query :=
    match project_id with
    | Some p =>
        if truthy (Some p) then filter (fun m => im_project_id m = p) query
        else query
    | None => query
    end in
  ret (negb (list_truthy query)).

Definition _keypair_get_count_by_user (w : World) (context : RequestContext)
    (user_id : option string) : M CountDict :=
  call (Call_KeyPairList_get_count_by_user user_id) ;;;
  let count := KeyPairList_get_count_by_user w user_id in
  ret {| count_project := None; count_user := Some [("key_pairs", count)] |}.

Definition _server_group_count_members_by_user_legacy (w : World)
    (context : RequestContext) (group : GroupArg)
    (user_id : option string) : M CountDict :=
  group_members <- getattr_members group ;;
  call Call_scatter_gather_all_cells ;;;
  let per_cell := scatter_gather_group_member_uuids w user_id group_members in
  instance_uuids <-
    for_each per_cell.*2
      (fun uuids (instance_uuids : gset string) =>
         match uuids with
         | CellValue uuids => ret (instance_uuids ∪ uuids)
         | CellFailure => raise (TypeError "unsupported operand type(s) for |=")
         end)
      ∅ ;;
  call Call_BuildRequestList_get_by_filters ;;;
  let build_requests :=
    BuildRequestList_get_by_filters w user_id group_members in
  let instance_uuids :=
    fold_left (fun (s : gset string) u => {[ u ]} ∪ s) build_requests
      instance_uuids in
  ret {| count_project := None;
         count_user :=
           Some [("server_group_members", Z.of_nat (size instance_uuids))] |}.

Definition is_qfd_populated (w : World) (context : RequestContext) : M bool :=
  st <- get_state ;;
  (if negb (UID_QFD_POPULATED_CACHE_ALL st) then
     populated <- _user_id_queued_for_delete_populated w context None ;;
     set_UID_QFD_POPULATED_CACHE_ALL populated
   else ret tt) ;;;
  st <- get_state ;;
  ret (UID_QFD_POPULATED_CACHE_ALL st).

Definition _server_group_count_members_by_user (w : World)
    (context : RequestContext) (group : GroupArg)
    (user_id : option string) : M CountDict :=
  populated <- is_qfd_populated w context ;;
  if populated : bool then
    group_members <- getattr_members group ;;
    call (Call_InstanceMappingList_get_count_by_uuids_and_user user_id) ;;;
    let count :=
      InstanceMappingList_get_count_by_uuids_and_user w group_members
        user_id in
    ret {| count_project := None;
           count_user := Some [("server_group_members", count)] |}
  else
    call (LOG_warning
      "Falling back to legacy quota counting method for server group members") ;;;
    _server_group_count_members_by_user_legacy w context group user_id.

(** [total[resource] += count] for every item of [counts]. *)
Definition add_counts (counts total : dict Z) : M (dict Z) :=
  for_each counts
    (fun rc total =>
       cur <- getitem rc.1 total ;;
       ret (dict_set rc.1 (cur + rc.2) total))
    total.

Definition _instances_cores_ram_count_legacy (w : World)
    (context : RequestContext) (project_id user_id : option string)
    : M CountDict :=
  let cell_mappings :=
    if CONF_api_instance_list_per_project_cells w
    then CellMappingList_get_by_project_id w project_id
    else CELLS w in
  call (Call_scatter_gather_cells project_id user_id) ;;;
  let results := scatter_gather_get_counts w cell_mappings project_id user_id in
  let total_counts :=
    {| count_project := Some [("instances", 0); ("cores", 0); ("ram", 0)];
       count_user :=
         if truthy user_id
         then Some [("instances", 0); ("cores", 0); ("ram", 0)]
         else None |} in
  for_each results.*2
    (fun result total_counts =>
       if negb (is_cell_failure_sentinel result) then
         match result with
         | CellFailure => ret total_counts
         | CellValue result =>
             result_project <-
               match count_project result with
               | Some d => ret d
               | None => raise (KeyError "project")
               end ;;
             total_project <-
               match count_project total_counts with
               | Some d => ret d
               | None => raise (KeyError "project")
               end ;;
             total_project <- add_counts result_project total_project ;;
             if truthy user_id then
               result_user <-
                 match count_user result with
                 | Some d => ret d
                 | None => raise (KeyError "user")
                 end ;;
               total_user <-
                 match count_user total_counts with
                 | Some d => ret d
                 | None => raise (KeyError "user")
                 end ;;
               total_user <- add_counts result_user total_user ;;
               ret {| count_project := Some total_project;
                      count_user := Some total_user |}
             else
               ret {| count_project := Some total_project;
                      count_user := count_user total_counts |}
         end
       else ret total_counts)
    total_counts.

Definition _cores_ram_count_placement (w : World) (context : RequestContext)
    (project_id user_id : option string) : M CountDict :=
  call (Call_get_usages_counts_for_quota project_id user_id) ;;;
  ret (get_usages_counts_for_quota w project_id user_id).

(** [d.update(other)] *)
Definition dict_update {V} (d other : dict V) : dict V :=
  fold_left (fun d kv => dict_set kv.1 kv.2 d) other d.

Definition _instances_cores_ram_count_api_db_placement (w : World)
    (context : RequestContext) (project_id user_id : option string)
    : M CountDict :=
  call (Call_InstanceMappingList_get_counts project_id user_id) ;;;
  let total_counts := InstanceMappingList_get_counts w project_id user_id in
  cores_ram_counts <- _cores_ram_count_placement w context project_id user_id ;;
  total_project <-
    match count_project total_counts with
    | Some d => ret d
    | None => raise (KeyError "project")
    end ;;
  cores_ram_project <-
    match count_project cores_ram_counts with
    | Some d => ret d
    | None => raise (KeyError "project")
    end ;;
  let total_project := dict_update total_project cores_ram_project in
  match count_user total_counts with
  | Some total_user =>
      cores_ram_user <-
        match count_user cores_ram_counts with
        | Some d => ret d
        | None => raise (KeyError "user")
        end ;;
      ret {| count_project := Some total_project;
             count_user := Some (dict_update total_user cores_ram_user) |}
  | None =>
      ret {| count_project := Some total_project; count_user := None |}
  end.

Definition _instances_cores_ram_count (w : World) (context : RequestContext)
    (project_id user_id : option string) : M CountDict :=
  if CONF_quota_count_usage_from_placement w then
    st <- get_state ;;
    uid_qfd_populated <-
      (if negb (UID_QFD_POPULATED_CACHE_ALL st) &&
          bool_decide (project_id ∉ UID_QFD_POPULATED_CACHE_BY_PROJECT st)
       then
         uid_qfd_populated <-
           _user_id_queued_for_delete_populated w context project_id ;;
         (if uid_qfd_populated : bool
          then add_UID_QFD_POPULATED_CACHE_BY_PROJECT project_id
          else ret tt) ;;;
         ret uid_qfd_populated
       else ret true) ;;
    if uid_qfd_populated : bool then
      _instances_cores_ram_count_api_db_placement w context project_id user_id
    else
      call (LOG_warning
        "Falling back to legacy quota counting method for instances, cores, and ram") ;;;
      _instances_cores_ram_count_legacy w context project_id user_id
  else
    _instances_cores_ram_count_legacy w context project_id user_id.

Definition _server_group_count (w : World) (context : RequestContext)
    (project_id user_id : option string) : M CountDict :=
  call (Call_InstanceGroupList_get_counts project_id user_id) ;;;
  ret (InstanceGroupList_get_counts w project_id user_id).

(** ** The engine and the registry *)

Module QuotaEngine.

(** The attributes of a [QuotaEngine]; a driver object is named by its
    class. *)
Inductive Driver : Type := DbQuotaDriver | NoopQuotaDriver | UnifiedLimitsDriver.

Record t : Type := {
  _resources : dict Resource;
  __driver_override : option Driver;
  __driver : option Driver;
  __driver_name : option string
}.

Definition __init__ (quota_driver : option Driver)
    (resources : option (list Resource)) : M t :=
  let resources := default [] resources in
  ret {| _resources :=
           fold_left
             (fun d resource => dict_set (resource_name resource) resource d)
             resources [];
         __driver_override := quota_driver;
         __driver := None;
         __driver_name := None |}.

(** The [resources] property. *)
Definition resources (self : t) : list string :=
  sorted (dict_keys (_resources self)).

(** The arguments that follow [context] and [resource] in a call of
    [count_as_dict]: a project id and a user id, a single id, or a group
    and a user id. *)
Inductive CountArgs : Type :=
| ArgsProject (project_id user_id : option string)
| ArgsUser (user_id : option string)
| ArgsGroup (group : InstanceGroup) (user_id : option string).

(** The arguments are passed on as they are. A counter runs whenever they
    can be bound to its parameters: a single id is the [project_id] of a
    counter by project, and two ids are the [group] and the [user_id] of a
    counter by group. A call whose arguments cannot be bound raises
    [TypeError] before the counter runs. A group object given to a counter
    by project would reach the database layer as a project id; the answers
    of the collaborators are not modelled on such a value, and the model
    ends that call with the last [TypeError] below. *)
Definition count_as_dict (w : World) (self : t) (context : RequestContext)
    (resource : string) (args : CountArgs) : M CountDict :=
  match dict_get resource (_resources self) with
  | Some (CountableResource _ f _) =>
      match f, args with
      | CountByProject f, ArgsProject project_id user_id =>
          f w context project_id user_id
      | CountByProject f, ArgsUser user_id => f w context user_id None
      | CountByUser f, ArgsUser user_id => f w context user_id
      | CountByUser f, (ArgsProject _ _ | ArgsGroup _ _) =>
          raise (TypeError "takes 2 positional arguments but 3 were given")
      | CountByGroup f, ArgsGroup group user_id => f w context group user_id
      | CountByGroup f, ArgsProject project_id user_id =>
          f w context (A_project_id project_id) user_id
      | CountByGroup f, ArgsUser _ =>
          raise (TypeError "missing 1 required positional argument: 'user_id'")
      | CountByProject f, ArgsGroup _ _ => raise (TypeError "count_as_dict")
      end
  | _ => raise (QuotaResourceUnknown [resource])
  end.

(** [CONF.quota.driver] and what [importutils.import_object] finds under a
    name ([None]: nothing, which is an [ImportError]). *)
Record Config : Type := {
  CONF_quota_driver : string;
  importutils_import_object : string -> option Driver
}.

(** The [_driver] property. It stores the driver it imports in the engine,
    so the engine is returned with the result. *)
Definition _driver (cfg : Config) (self : t)
    : ProcState -> outcome (option Driver) * t * ProcState :=
  fun st =>
  match __driver_override self with
  | Some driver => (Returns (Some driver), self, st)
  | None =>
      let driver_name_in_config := CONF_quota_driver cfg in
      if decide (__driver_name self ≠ Some driver_name_in_config) then
        match importutils_import_object cfg driver_name_in_config with
        | None => (Raises (ImportError driver_name_in_config), self, st)
        | Some driver =>
            let st :=
              match driver with
              | UnifiedLimitsDriver => (UnifiedLimitsDriver.__init__ st).2
              | _ => st
              end in
            (Returns (Some driver),
             {| _resources := _resources self;
                __driver_override := __driver_override self;
                __driver := Some driver;
                __driver_name := Some driver_name_in_config |},
             st)
        end
      else (Returns (__driver self), self, st)
  end.

(** A computation of the DB driver as a method of the engine. *)
Definition of_driver {A} (m : M A) : ProcState -> outcome A * ProcState :=
  fun st =>
  match m st with
  | (Ok a, st) => (Returns a, st)
  | (Raise e, st) => (Raises (DriverError e), st)
  end.

(** [self._driver.method(...)]: the method [attr] of the driver the engine
    resolves to. *)
Definition call_driver {A} (cfg : Config) (self : t) (attr : string)
    (method : Driver -> ProcState -> outcome A * ProcState)
    : ProcState -> outcome A * t * ProcState :=
  fun st =>
  match _driver cfg self st with
  | (Returns (Some driver), self, st) =>
      let '(r, st) := method driver st in (r, self, st)
  | (Returns None, self, st) =>
      (Raises (DriverError (AttributeError attr)), self, st)
  | (Raises e, self, st) => (Raises e, self, st)
  end.

Definition get_defaults (w : World) (ul : Limits) (cfg : Config) (self : t)
    (context : RequestContext)
    : ProcState -> outcome (dict Z) * t * ProcState :=
  call_driver cfg self "get_defaults"
    (fun driver =>
       match driver with
       | DbQuotaDriver =>
           of_driver (DbQuotaDriver.get_defaults w context (_resources self))
       | NoopQuotaDriver =>
           fun st =>
             (Returns (NoopQuotaDriver.get_defaults context (_resources self)),
              st)
       | UnifiedLimitsDriver =>
           fun st =>
             (Returns
                (UnifiedLimitsDriver.get_defaults ul context (_resources self)),
              st)
       end).

Definition get_class_quotas (w : World) (ul : Limits) (cfg : Config)
    (self : t) (context : RequestContext) (quota_class : string)
    : ProcState -> outcome (dict Z) * t * ProcState :=
  call_driver cfg self "get_class_quotas"
    (fun driver =>
       match driver with
       | DbQuotaDriver =>
           of_driver
             (DbQuotaDriver.get_class_quotas w context (_resources self)
                quota_class)
       | NoopQuotaDriver =>
           fun st =>
             (Returns
                (NoopQuotaDriver.get_class_quotas context (_resources self)
                   quota_class), st)
       | UnifiedLimitsDriver =>
           fun st =>
             (Returns
                (UnifiedLimitsDriver.get_class_quotas ul context
                   (_resources self) quota_class), st)
       end).

Definition get_user_quotas (w : World) (ul : Limits) (cfg : Config)
    (self : t) (context : RequestContext) (project_id user_id : option string)
    (quota_class : option string) (usages : bool)
    : ProcState -> outcome (dict QuotaValue.t) * t * ProcState :=
  call_driver cfg self "get_user_quotas"
    (fun driver =>
       match driver with
       | DbQuotaDriver =>
           of_driver
             (DbQuotaDriver.get_user_quotas w context (_resources self)
                project_id user_id quota_class usages None None)
       | NoopQuotaDriver =>
           fun st =>
             (Returns
                (NoopQuotaDriver.get_user_quotas context (_resources self)
                   project_id user_id quota_class usages), st)
       | UnifiedLimitsDriver =>
           fun st =>
             (UnifiedLimitsDriver.get_user_quotas ul context (_resources self)
                project_id user_id quota_class usages, st)
       end).

Definition get_project_quotas (w : World) (ul : Limits) (cfg : Config)
    (self : t) (context : RequestContext) (project_id : option string)
    (quota_class : option string) (usages remains : bool)
    : ProcState -> outcome (dict QuotaValue.t) * t * ProcState :=
  call_driver cfg self "get_project_quotas"
    (fun driver =>
       match driver with
       | DbQuotaDriver =>
           of_driver
             (DbQuotaDriver.get_project_quotas w context (_resources self)
                project_id quota_class usages remains None)
       | NoopQuotaDriver =>
           fun st =>
             (Returns
                (NoopQuotaDriver.get_project_quotas context (_resources self)
                   project_id quota_class usages remains), st)
       | UnifiedLimitsDriver =>
           fun st =>
             (UnifiedLimitsDriver.get_project_quotas ul context
                (_resources self) project_id quota_class usages remains, st)
       end).

Definition get_settable_quotas (w : World) (ul : Limits) (cfg : Config)
    (self : t) (context : RequestContext) (project_id user_id : option string)
    : ProcState -> outcome (dict DbQuotaDriver.SettableQuota) * t * ProcState :=
  call_driver cfg self "get_settable_quotas"
    (fun driver =>
       match driver with
       | DbQuotaDriver =>
           of_driver
             (DbQuotaDriver.get_settable_quotas w context (_resources self)
                project_id user_id)
       | NoopQuotaDriver | UnifiedLimitsDriver =>
           fun st =>
             (Returns
                (NoopQuotaDriver.get_settable_quotas context (_resources self)
                   project_id user_id), st)
       end).

Definition limit_check (w : World) (ul : Limits) (cfg : Config) (self : t)
    (context : RequestContext) (project_id user_id : option string)
    (values : dict Z) : ProcState -> outcome unit * t * ProcState :=
  call_driver cfg self "limit_check"
    (fun driver =>
       match driver with
       | DbQuotaDriver =>
           of_driver
             (DbQuotaDriver.limit_check w context (_resources self) values
                project_id user_id)
       | NoopQuotaDriver | UnifiedLimitsDriver =>
           fun st =>
             (Returns
                (NoopQuotaDriver.limit_check context (_resources self) values
                   project_id user_id), st)
       end).

(** As for the DB driver, the contents of the caller's two dictionaries
    after the call are part of the result. *)
Definition limit_check_project_and_user (w : World) (ul : Limits)
    (cfg : Config) (self : t) (context : RequestContext)
    (project_values user_values : option (dict Z))
    (project_id user_id : option string)
    : ProcState -> outcome unit * DbQuotaDriver.ArgDicts * t * ProcState :=
  fun st =>
  let untouched :=
    {| DbQuotaDriver.project_values_after := default [] project_values;
       DbQuotaDriver.user_values_after := default [] user_values |} in
  match _driver cfg self st with
  | (Returns (Some DbQuotaDriver), self, st) =>
      match DbQuotaDriver.limit_check_project_and_user w context
              (_resources self) project_values user_values project_id user_id
              st with
      | (Ok a, args, st) => (Returns a, args, self, st)
      | (Raise e, args, st) => (Raises (DriverError e), args, self, st)
      end
  | (Returns (Some (NoopQuotaDriver | UnifiedLimitsDriver)), self, st) =>
      (Returns
         (NoopQuotaDriver.limit_check_project_and_user context
            (_resources self) project_values user_values project_id user_id),
       untouched, self, st)
  | (Returns None, self, st) =>
      (Raises (DriverError (AttributeError "limit_check_project_and_user")),
       untouched, self, st)
  | (Raises e, self, st) => (Raises e, untouched, self, st)
  end.

Definition get_reserved (cfg : Config) (self : t)
    : ProcState -> outcome Z * t * ProcState :=
  call_driver cfg self "get_reserved"
    (fun driver st =>
       (Returns
          match driver with
          | DbQuotaDriver => DbQuotaDriver.get_reserved
          | NoopQuotaDriver => NoopQuotaDriver.get_reserved
          | UnifiedLimitsDriver => UnifiedLimitsDriver.get_reserved
          end, st)).

End QuotaEngine.

(** The resources registered in [QUOTAS]. *)
Definition QUOTAS_resources : list Resource :=
  [ CountableResource "instances"
      (CountByProject _instances_cores_ram_count) (Some "instances");
    CountableResource "cores"
      (CountByProject _instances_cores_ram_count) (Some "cores");
    CountableResource "ram"
      (CountByProject _instances_cores_ram_count) (Some "ram");
    AbsoluteResource "metadata_items" (Some "metadata_items");
    AbsoluteResource "injected_files" (Some "injected_files");
    AbsoluteResource "injected_file_content_bytes"
      (Some "injected_file_content_bytes");
    AbsoluteResource "injected_file_path_bytes"
      (Some "injected_file_path_length");
    CountableResource "key_pairs"
      (CountByUser _keypair_get_count_by_user) (Some "key_pairs");
    CountableResource "server_groups"
      (CountByProject _server_group_count) (Some "server_groups");
    CountableResource "server_group_members"
      (CountByGroup _server_group_count_members_by_user)
      (Some "server_group_members");
    AbsoluteResource "fixed_ips" None;
    AbsoluteResource "floating_ips" None;
    AbsoluteResource "security_groups" None;
    AbsoluteResource "security_group_rules" None ].

Definition QUOTAS : M QuotaEngine.t :=
  QuotaEngine.__init__ None (Some QUOTAS_resources).

(** * Properties *)

(** ** Reasoning about computations in [M] *)

(** The result of running [m] from [st]. *)
Definition eval {A} (m : M A) (st : ProcState) : result A := (m st).1.

(** [wp m st Q]: running [m] from [st] ends in a result and a state that
    satisfy [Q]. *)
Definition wp {A} (m : M A) (st : ProcState)
    (Q : result A -> ProcState -> Prop) : Prop :=
  Q (m st).1 (m st).2.

(** The state after the calls [l] were recorded and nothing else changed. *)
Definition add_calls (l : list Call) (st : ProcState) : ProcState :=
  {| UID_QFD_POPULATED_CACHE_BY_PROJECT := UID_QFD_POPULATED_CACHE_BY_PROJECT st;
     UID_QFD_POPULATED_CACHE_ALL := UID_QFD_POPULATED_CACHE_ALL st;
     calls := calls st ++ l |}.

(** [m] reads nothing of the state: its result and the calls it makes are
    the same from every state, and it leaves the globals alone. *)
Definition log_only {A} (m : M A) : Prop :=
  exists r l, forall st, m st = (r, add_calls l st).

Section MonadFacts.
Context {A B : Type}.

Lemma wp_intro (m : M A) st Q r st' :
  m st = (r, st') -> Q r st' -> wp m st Q.
Proof. unfold wp. intros Hm. by rewrite Hm. Qed.

Lemma wp_elim (m : M A) st Q r st' :
  wp m st Q -> m st = (r, st') -> Q r st'.
Proof. unfold wp. intros H Hm. by rewrite Hm in H. Qed.

Lemma wp_mono (m : M A) st (Q Q' : result A -> ProcState -> Prop) :
  wp m st Q -> (forall r st', Q r st' -> Q' r st') -> wp m st Q'.
Proof. unfold wp. auto. Qed.

Lemma wp_ret (a : A) st Q : Q (Ok a) st -> wp (ret a) st Q.
Proof. done. Qed.

Lemma wp_raise e st (Q : result A -> ProcState -> Prop) :
  Q (Raise e) st -> wp (raise e) st Q.
Proof. done. Qed.

Lemma wp_bind (m : M A) (f : A -> M B) st Q :
  wp m st (fun r st' =>
             match r with
             | Ok a => wp (f a) st' Q
             | Raise e => Q (Raise e) st'
             end) ->
  wp (bind m f) st Q.
Proof. unfold wp, bind. destruct (m st) as [[a|e] st']; done. Qed.

Lemma wp_getitem {V} k (d : dict V) st (Q : result V -> ProcState -> Prop) :
  match dict_get k d with
  | Some v => Q (Ok v) st
  | None => Q (Raise (KeyError k)) st
  end ->
  wp (getitem k d) st Q.
Proof. unfold getitem. destruct (dict_get k d); done. Qed.

Lemma add_calls_nil st : add_calls [] st = st.
Proof. destruct st. unfold add_calls. simpl. by rewrite app_nil_r. Qed.

Lemma add_calls_app l1 l2 st :
  add_calls l2 (add_calls l1 st) = add_calls (l1 ++ l2) st.
Proof. unfold add_calls. simpl. by rewrite app_assoc. Qed.

Lemma log_only_ret (a : A) : log_only (ret a).
Proof. exists (Ok a), []. intros st. by rewrite add_calls_nil. Qed.

Lemma log_only_raise e : log_only (raise e : M A).
Proof. exists (Raise e), []. intros st. by rewrite add_calls_nil. Qed.

Lemma log_only_bind (m : M A) (f : A -> M B) :
  log_only m -> (forall a, log_only (f a)) -> log_only (bind m f).
Proof.
  intros (r & l & Hm) Hf. destruct r as [a|e].
  - destruct (Hf a) as (r' & l' & Hfa). exists r', (l ++ l').
    intros st. unfold bind. by rewrite Hm, Hfa, add_calls_app.
  - exists (Raise e), l. intros st. unfold bind. by rewrite Hm.
Qed.

Lemma log_only_eval (m : M A) st1 st2 :
  log_only m -> eval m st1 = eval m st2.
Proof. intros (r & l & Hm). unfold eval. by rewrite !Hm. Qed.

Lemma log_only_globals (m : M A) st :
  log_only m ->
  UID_QFD_POPULATED_CACHE_ALL (m st).2 = UID_QFD_POPULATED_CACHE_ALL st /\
  UID_QFD_POPULATED_CACHE_BY_PROJECT (m st).2
    = UID_QFD_POPULATED_CACHE_BY_PROJECT st.
Proof. intros (r & l & Hm). by rewrite Hm. Qed.
End MonadFacts.

Section LoopFacts.
Context {A S : Type}.

(** Loop rule: [I done acc st] holds after the items [done] have been
    processed. *)
Lemma wp_for_each (xs : list A) (body : A -> S -> M S) acc st
    (I : list A -> S -> ProcState -> Prop)
    (Q : result S -> ProcState -> Prop) :
  I [] acc st ->
  (forall pre x post acc st,
      xs = pre ++ x :: post -> I pre acc st ->
      wp (body x acc) st
        (fun r st' =>
           match r with
           | Ok acc' => I (pre ++ [x]) acc' st'
           | Raise e => Q (Raise e) st'
           end)) ->
  (forall acc st, I xs acc st -> Q (Ok acc) st) ->
  wp (for_each xs body acc) st Q.
Proof.
  intros Hinit Hbody Hend.
  assert (Hgen : forall post pre acc st,
             xs = pre ++ post -> I pre acc st ->
             wp (for_each post body acc) st Q).
  { induction post as [|x post IH]; intros pre acc0 st0 Hxs HI; simpl.
    - rewrite app_nil_r in Hxs. subst pre. by apply Hend.
    - apply wp_bind.
      eapply wp_mono; [by eapply Hbody|].
      intros [acc'|e] st' Hr; [|done].
      apply (IH (pre ++ [x])); [|done].
      by rewrite <- app_assoc. }
  by apply (Hgen xs []).
Qed.

Lemma log_only_for_each (xs : list A) (body : A -> S -> M S) acc :
  (forall x acc, log_only (body x acc)) -> log_only (for_each xs body acc).
Proof.
  intros Hbody. revert acc.
  induction xs as [|x xs IH]; intros acc; simpl.
  - exists (Ok acc), []. intros st. by rewrite add_calls_nil.
  - destruct (Hbody x acc) as (r & l & Hx). destruct r as [acc'|e].
    + destruct (IH acc') as (r' & l' & Hrest). exists r', (l ++ l').
      intros st. unfold bind. by rewrite Hx, Hrest, add_calls_app.
    + exists (Raise e), l. intros st. unfold bind. by rewrite Hx.
Qed.

End LoopFacts.

Lemma log_only_call c : log_only (call c).
Proof. by exists (Ok tt), [c]. Qed.

Lemma log_only_getitem {V} k (d : dict V) : log_only (getitem k d).
Proof.
  unfold getitem. destruct (dict_get k d);
    [apply log_only_ret | apply log_only_raise].
Qed.

Lemma log_only_getattr_members group : log_only (getattr_members group).
Proof.
  destruct group; [apply log_only_ret | apply log_only_raise].
Qed.

Create HintDb log_only.
#[export] Hint Resolve log_only_ret log_only_raise log_only_call
  log_only_getitem log_only_getattr_members : log_only.

(** Decompose a computation along its binds, loops and case distinctions. *)
Ltac log_only_step :=
  match goal with
  | |- log_only (bind _ _) => apply log_only_bind; [|intros ?]
  | |- log_only (for_each _ _ _) => apply log_only_for_each; intros ? ?
  | |- log_only (if ?b then _ else _) => destruct b
  | |- log_only (match ?x with _ => _ end) => destruct x
  | |- log_only (let '(_, _) := ?p in _) => destruct p
  | |- log_only _ => solve [auto with log_only]
  end.
Ltac log_only_tac := repeat log_only_step.

(** ** Arithmetic on quota values *)

Lemma _is_unlimited_value_spec v :
  DbQuotaDriver._is_unlimited_value v = true <-> v <= -1.
Proof.
  unfold DbQuotaDriver._is_unlimited_value, DbQuotaDriver.UNLIMITED_VALUE.
  apply Z.leb_le.
Qed.

(** C4: [_sum_quota_values] and [_sub_quota_values] return the Unlimited
    sentinel -1 as soon as one operand is at most -1 and are ordinary
    addition and subtraction otherwise; the sum does not depend on the order
    of its operands, the difference does (for any two distinct concrete
    values, and in particular for some pair). *)
Theorem quota_values_arithmetic :
  (forall a b : Z,
      a <= -1 \/ b <= -1 ->
      DbQuotaDriver._sum_quota_values a b = -1 /\
      DbQuotaDriver._sub_quota_values a b = -1) /\
  (forall a b : Z,
      -1 < a -> -1 < b ->
      DbQuotaDriver._sum_quota_values a b = a + b /\
      DbQuotaDriver._sub_quota_values a b = a - b) /\
  (forall a b : Z,
      DbQuotaDriver._sum_quota_values a b
      = DbQuotaDriver._sum_quota_values b a) /\
  (forall a b : Z,
      -1 < a -> -1 < b -> a <> b ->
      DbQuotaDriver._sub_quota_values a b
      <> DbQuotaDriver._sub_quota_values b a) /\
  (exists a b : Z,
      DbQuotaDriver._sub_quota_values a b
      <> DbQuotaDriver._sub_quota_values b a).
Proof.
  assert (Hu : forall a b,
             DbQuotaDriver._is_unlimited_value a
             || DbQuotaDriver._is_unlimited_value b = true
             <-> a <= -1 \/ b <= -1).
  { intros a b. rewrite orb_true_iff, !_is_unlimited_value_spec. tauto. }
  assert (Hc : forall a b,
             -1 < a -> -1 < b ->
             DbQuotaDriver._is_unlimited_value a
             || DbQuotaDriver._is_unlimited_value b = false).
  { intros a b Ha Hb. apply not_true_is_false. rewrite Hu. lia. }
  unfold DbQuotaDriver._sum_quota_values, DbQuotaDriver._sub_quota_values,
    DbQuotaDriver.UNLIMITED_VALUE.
  repeat split.
  - apply Hu in H. by rewrite H.
  - apply Hu in H. by rewrite H.
  - by rewrite (Hc a b).
  - by rewrite (Hc a b).
  - intros a b. rewrite (orb_comm (DbQuotaDriver._is_unlimited_value b)).
    destruct (_ || _); [done | lia].
  - intros a b Ha Hb Hne. rewrite (Hc a b), (Hc b a) by done. lia.
  - exists 5, 3. by vm_compute.
Qed.

Lemma quota_values_arithmetic_witness :
  (DbQuotaDriver._sum_quota_values 7 (-1) = -1 /\
   DbQuotaDriver._sub_quota_values 7 (-1) = -1) /\
  (DbQuotaDriver._sum_quota_values 5 3 = 5 + 3 /\
   DbQuotaDriver._sub_quota_values 5 3 = 5 - 3) /\
  DbQuotaDriver._sub_quota_values 5 3 <> DbQuotaDriver._sub_quota_values 3 5.
Proof.
  destruct quota_values_arithmetic as (Hunl & Hconc & _ & Hord & _).
  split; [|split].
  - apply Hunl. right. lia.
  - apply Hconc; lia.
  - apply Hord; lia.
Defined.

(** ** Dictionaries *)

Section DictFacts.
Context {V : Type}.
Implicit Types (d : dict V) (k : string) (v : V).

Lemma dict_get_set_eq k v d : dict_get k (dict_set k v d) = Some v.
Proof.
  induction d as [|[k' v'] d IH]; cbn [dict_get dict_set dict_pop fmap list_fmap fst snd].
  - by rewrite decide_True.
  - destruct (decide (k = k')) as [->|Hne]; cbn [dict_get dict_set dict_pop fmap list_fmap fst snd].
    + by rewrite decide_True.
    + by rewrite decide_False.
Qed.

Lemma dict_get_set_ne k k' v d :
  k <> k' -> dict_get k' (dict_set k v d) = dict_get k' d.
Proof.
  intros Hne. induction d as [|[k0 v0] d IH]; cbn [dict_get dict_set dict_pop fmap list_fmap fst snd].
  - by rewrite decide_False.
  - destruct (decide (k = k0)) as [->|Hne0]; cbn [dict_get dict_set dict_pop fmap list_fmap fst snd].
    + by rewrite !decide_False.
    + destruct (decide (k' = k0)); done.
Qed.

Lemma dict_get_set k k' v d :
  dict_get k' (dict_set k v d)
  = if decide (k = k') then Some v else dict_get k' d.
Proof.
  destruct (decide (k = k')) as [->|Hne].
  - apply dict_get_set_eq.
  - by apply dict_get_set_ne.
Qed.

Lemma dict_get_Some_elem k v d : dict_get k d = Some v -> (k, v) ∈ d.
Proof.
  induction d as [|[k' v'] d IH]; cbn [dict_get dict_set dict_pop fmap list_fmap fst snd]; [done|].
  destruct (decide (k = k')) as [->|Hne].
  - intros [= ->]. left.
  - intros H. right. auto.
Qed.

Lemma dict_get_None k d : dict_get k d = None <-> k ∉ dict_keys d.
Proof.
  unfold dict_keys. induction d as [|[k' v'] d IH]; cbn [dict_get dict_set dict_pop fmap list_fmap fst snd].
  - split; [intros _; apply not_elem_of_nil | done].
  - rewrite not_elem_of_cons. destruct (decide (k = k')) as [->|Hne].
    + split; [done | intros [? _]; done].
    + rewrite IH. tauto.
Qed.

Lemma dict_get_is_Some k d : is_Some (dict_get k d) <-> k ∈ dict_keys d.
Proof.
  rewrite <- not_eq_None_Some, dict_get_None.
  split; [apply dec_stable | auto].
Qed.

Lemma dict_get_NoDup k v d :
  NoDup (dict_keys d) -> (k, v) ∈ d -> dict_get k d = Some v.
Proof.
  unfold dict_keys. induction d as [|[k' v'] d IH]; cbn [dict_get dict_set dict_pop fmap list_fmap fst snd].
  - intros _ H. by apply elem_of_nil in H.
  - intros Hnd Hin. apply NoDup_cons in Hnd as [Hk' Hnd].
    apply elem_of_cons in Hin as [[= -> ->]|Hin].
    + by rewrite decide_True.
    + rewrite decide_False; [auto|].
      intros ->. apply Hk'. apply list_elem_of_fmap. by exists (k', v).
Qed.

(** Setting a key that is not there appends it. *)
Lemma dict_set_fresh k v d :
  k ∉ dict_keys d -> dict_set k v d = d ++ [(k, v)].
Proof.
  unfold dict_keys. induction d as [|[k' v'] d IH]; cbn [dict_get dict_set dict_pop fmap list_fmap fst snd]; [done|].
  rewrite not_elem_of_cons. intros [Hne Hk].
  rewrite decide_False by done. by rewrite IH.
Qed.

Lemma dict_keys_set k v d :
  dict_keys (dict_set k v d)
  = if decide (k ∈ dict_keys d) then dict_keys d else dict_keys d ++ [k].
Proof.
  unfold dict_keys. induction d as [|[k' v'] d IH]; cbn [dict_get dict_set dict_pop fmap list_fmap fst snd].
  - rewrite decide_False; [done | apply not_elem_of_nil].
  - destruct (decide (k = k')) as [->|Hne]; cbn [dict_get dict_set dict_pop fmap list_fmap fst snd].
    + rewrite decide_True; [done | left].
    + rewrite IH. destruct (decide (k ∈ d.*1)) as [Hin|Hnin].
      * rewrite decide_True; [done | by right].
      * rewrite decide_False; [done|]. rewrite not_elem_of_cons. done.
Qed.

Lemma dict_pop_filter k d : dict_pop k d = filter (fun kv => kv.1 <> k) d.
Proof.
  induction d as [|[k' v'] d IH]; cbn [dict_get dict_set dict_pop fmap list_fmap fst snd]; [done|].
  rewrite filter_cons. cbn [fst].
  destruct (decide (k = k')) as [->|Hne].
  - by rewrite decide_False by auto.
  - rewrite decide_True by auto. by rewrite IH.
Qed.
End DictFacts.

(** [sorted] only reorders. *)
Lemma sorted_Permutation l : sorted l ≡ₚ l.
Proof. apply merge_sort_Permutation. Qed.

Lemma sorted_StronglySorted l : StronglySorted String.le (sorted l).
Proof. apply StronglySorted_merge_sort; apply _. Qed.

Lemma elem_of_sorted k l : k ∈ sorted l <-> k ∈ l.
Proof. by rewrite sorted_Permutation. Qed.

Lemma list_truthy_false {A} (l : list A) : list_truthy l = false <-> l = [].
Proof. by destruct l. Qed.

(** ** The limit lookups read nothing of the process state *)

Section LogOnly.
Variables (w : World) (context : RequestContext).

Lemma log_only__valid_method_call_check_resources {V}
    (values : dict V) method (resources : dict Resource) :
  log_only (_valid_method_call_check_resources values method resources).
Proof.
  unfold _valid_method_call_check_resources,
    _valid_method_call_check_resource.
  log_only_tac.
Qed.

Lemma log_only_get_defaults resources :
  log_only (DbQuotaDriver.get_defaults w context resources).
Proof. unfold DbQuotaDriver.get_defaults. log_only_tac. Qed.

Lemma log_only__process_quotas resources project_id quotas quota_class
    usages remains :
  log_only (DbQuotaDriver._process_quotas w context resources project_id
              quotas quota_class usages remains).
Proof.
  unfold DbQuotaDriver._process_quotas.
  pose proof log_only_get_defaults.
  log_only_tac.
Qed.

Lemma log_only_get_user_quotas resources project_id user_id quota_class
    project_quotas user_quotas :
  log_only (DbQuotaDriver.get_user_quotas w context resources project_id
              user_id quota_class false project_quotas user_quotas).
Proof.
  unfold DbQuotaDriver.get_user_quotas.
  pose proof log_only__process_quotas.
  log_only_tac.
Qed.

Lemma log_only_get_project_quotas resources project_id quota_class remains
    project_quotas :
  log_only (DbQuotaDriver.get_project_quotas w context resources project_id
              quota_class false remains project_quotas).
Proof.
  unfold DbQuotaDriver.get_project_quotas.
  pose proof log_only__process_quotas.
  log_only_tac.
Qed.

Lemma log_only__get_quotas resources keys project_id user_id project_quotas :
  log_only (DbQuotaDriver._get_quotas w context resources keys project_id
              user_id project_quotas).
Proof.
  unfold DbQuotaDriver._get_quotas.
  pose proof log_only_get_user_quotas.
  pose proof log_only_get_project_quotas.
  log_only_tac.
Qed.
End LogOnly.

(** ** Which exceptions a computation can raise *)

(** Every exception [m] raises satisfies [P]. *)
Definition raises_only {A} (P : exn -> Prop) (m : M A) : Prop :=
  forall st, match (m st).1 with Raise e => P e | Ok _ => True end.

Definition not_OverQuota (e : exn) : Prop :=
  match e with OverQuota _ _ _ _ => False | _ => True end.

Section RaisesOnly.
Context {A B : Type} (P : exn -> Prop).

Lemma raises_only_ret (a : A) : raises_only P (ret a).
Proof. by intros st. Qed.

Lemma raises_only_raise e : P e -> raises_only P (raise e : M A).
Proof. by intros He st. Qed.

Lemma raises_only_bind (m : M A) (f : A -> M B) :
  raises_only P m -> (forall a, raises_only P (f a)) ->
  raises_only P (bind m f).
Proof.
  intros Hm Hf st. unfold bind. specialize (Hm st).
  destruct (m st) as [[a|e] st1]; simpl in *; [apply Hf | done].
Qed.

Lemma raises_only_elim (m : M A) st e st' :
  raises_only P m -> m st = (Raise e, st') -> P e.
Proof. intros Hm Hrun. specialize (Hm st). by rewrite Hrun in Hm. Qed.
End RaisesOnly.

Lemma raises_only_for_each {A B} (P : exn -> Prop) (xs : list B)
    (body : B -> A -> M A) acc :
  (forall x acc, raises_only P (body x acc)) ->
  raises_only P (for_each xs body acc).
Proof.
  intros Hbody. revert acc. induction xs as [|x xs IH]; intros acc; simpl.
  - apply raises_only_ret.
  - apply raises_only_bind; auto.
Qed.


Lemma raises_only_call P c : raises_only P (call c).
Proof. by intros st. Qed.

Lemma raises_only_getitem {V} (P : exn -> Prop) k (d : dict V) :
  P (KeyError k) -> raises_only P (getitem k d).
Proof.
  intros HP. unfold getitem. destruct (dict_get k d);
    [apply raises_only_ret | by apply raises_only_raise].
Qed.

Ltac raises_only_step :=
  match goal with
  | |- raises_only _ (bind _ _) => apply raises_only_bind; [|intros ?]
  | |- raises_only _ (for_each _ _ _) => apply raises_only_for_each; intros ? ?
  | |- raises_only _ (ret _) => apply raises_only_ret
  | |- raises_only _ (call _) => apply raises_only_call
  | |- raises_only _ (raise _) => apply raises_only_raise; exact I
  | |- raises_only _ (getitem _ _) => apply raises_only_getitem; exact I
  | |- raises_only _ (if ?b then _ else _) => destruct b
  | |- raises_only _ (match ?x with _ => _ end) => destruct x
  | |- raises_only _ _ => solve [auto]
  end.
Ltac raises_only_tac := repeat raises_only_step.

Section NotOverQuota.
Variables (w : World) (context : RequestContext).

Lemma _valid_method_call_check_resources_not_OverQuota {V}
    (values : dict V) method (resources : dict Resource) :
  raises_only not_OverQuota
    (_valid_method_call_check_resources values method resources).
Proof.
  unfold _valid_method_call_check_resources,
    _valid_method_call_check_resource.
  raises_only_tac.
Qed.

Lemma get_defaults_not_OverQuota resources :
  raises_only not_OverQuota (DbQuotaDriver.get_defaults w context resources).
Proof. unfold DbQuotaDriver.get_defaults. raises_only_tac. Qed.

Lemma _process_quotas_not_OverQuota resources project_id quotas quota_class
    usages remains :
  raises_only not_OverQuota
    (DbQuotaDriver._process_quotas w context resources project_id
       quotas quota_class usages remains).
Proof.
  unfold DbQuotaDriver._process_quotas.
  pose proof get_defaults_not_OverQuota.
  raises_only_tac.
Qed.

Lemma _get_quotas_not_OverQuota resources keys project_id user_id
    project_quotas :
  raises_only not_OverQuota
    (DbQuotaDriver._get_quotas w context resources keys project_id
       user_id project_quotas).
Proof.
  unfold DbQuotaDriver._get_quotas, DbQuotaDriver.get_user_quotas,
    DbQuotaDriver.get_project_quotas.
  pose proof _process_quotas_not_OverQuota.
  raises_only_tac.
Qed.
End NotOverQuota.

(** ** Running a computation step by step *)

Lemma bind_run {A B} (m : M A) (f : A -> M B) st r st' :
  bind m f st = (r, st') ->
  (exists e, m st = (Raise e, st') /\ r = Raise e) \/
  (exists a st1, m st = (Ok a, st1) /\ f a st1 = (r, st')).
Proof.
  unfold bind. destruct (m st) as [[a|e] st1].
  - intros H. right. by exists a, st1.
  - intros [= <- <-]. left. by exists e.
Qed.

Lemma log_only_run {A} (m : M A) st r st' :
  log_only m -> m st = (r, st') ->
  forall st0, eval m st0 = r.
Proof.
  intros Hm Hrun st0. rewrite (log_only_eval m st0 st Hm).
  unfold eval. by rewrite Hrun.
Qed.

(** ** [limit_check] *)

(** [project_id] or [user_id] after the default from the context. *)
Definition effective_id (given from_context : option string) : option string :=
  match given with
  | None => from_context
  | Some _ => given
  end.

(** The limits [limit_check] compares with: the project-scope limits
    ([quotas] in the code) and the user-scope limits ([user_quotas]) of the
    resources named by [keys]. *)
Definition project_scope_limits (w : World) (context : RequestContext)
    (resources : dict Resource) (keys : list string)
    (project_id : option string) : M (dict Z) :=
  let project_id := effective_id project_id (ctx_project_id context) in
  DbQuotaDriver._get_quotas w context resources keys project_id None
    (Some (Quotas_get_all_by_project w project_id)).

Definition user_scope_limits (w : World) (context : RequestContext)
    (resources : dict Resource) (keys : list string)
    (project_id user_id : option string) : M (dict Z) :=
  let project_id := effective_id project_id (ctx_project_id context) in
  let user_id := effective_id user_id (ctx_user_id context) in
  DbQuotaDriver._get_quotas w context resources keys project_id user_id
    (Some (Quotas_get_all_by_project w project_id)).

(** The limit of [key] in [limits] is concrete (not negative) and strictly
    less than [val]. *)
Definition exceeds (limits : dict Z) (key : string) (val : Z) : Prop :=
  exists q, dict_get key limits = Some q /\ 0 <= q < val.

#[export] Instance exceeds_dec limits key val : Decision (exceeds limits key val).
Proof.
  unfold exceeds. destruct (dict_get key limits) as [q|].
  - destruct (decide (0 <= q < val)) as [Hq|Hq].
    + left. by exists q.
    + right. intros (q' & [= <-] & Hq'). done.
  - right. intros (q' & [=] & _).
Defined.

(** A requested value is over the project-scope or the user-scope limit. *)
Definition flagged (quotas user_quotas : dict Z) (kv : string * Z) : Prop :=
  exceeds quotas kv.1 kv.2 \/ exceeds user_quotas kv.1 kv.2.

Lemma exceeds_test limits key q val :
  dict_get key limits = Some q ->
  ((0 <=? q) && (q <? val) = true <-> exceeds limits key val).
Proof.
  intros Hq. rewrite andb_true_iff, Z.leb_le, Z.ltb_lt. unfold exceeds.
  split.
  - intros H. by exists q.
  - intros (q' & Hq' & H). congruence.
Qed.

(** The headroom entry [limit_check] computes for [key]. *)
Definition headroom_of (quotas : dict Z) (project_quotas : gmap string Z)
    (key : string) : option Z :=
  match dict_get key quotas, project_quotas !! key with
  | Some q, Some p => Some (Z.min q p)
  | Some q, None => Some q
  | None, Some p => Some p
  | None, None => None
  end.

Lemma limit_check_overs_loop (values quotas user_quotas : dict Z) st :
  wp (for_each values
        (fun kv overs =>
           let '(key, val) := kv in
           q <- getitem key quotas ;;
           if (0 <=? q) && (q <? val) then ret (overs ++ [key])
           else
             uq <- getitem key user_quotas ;;
             if (0 <=? uq) && (uq <? val) then ret (overs ++ [key])
             else ret overs)
        []) st
    (fun r st' =>
       st' = st /\
       match r with
       | Ok overs =>
           overs = (filter (flagged quotas user_quotas) values).*1 /\
           Forall (fun kv => is_Some (dict_get kv.1 quotas)) values
       | Raise e =>
           exists k, e = KeyError k /\ k ∈ dict_keys values /\
                     (dict_get k quotas = None \/ dict_get k user_quotas = None)
       end).
Proof.
  apply wp_for_each with
    (I := fun pre overs st' =>
            st' = st /\
            overs = (filter (flagged quotas user_quotas) pre).*1 /\
            Forall (fun kv => is_Some (dict_get kv.1 quotas)) pre).
  - done.
  - intros pre [key val] post overs st0 Hvalues (-> & -> & Hpre).
    assert (Hin : key ∈ dict_keys values).
    { unfold dict_keys. rewrite Hvalues, fmap_app, fmap_cons.
      apply elem_of_app. right. left. }
    apply wp_bind, wp_getitem.
    destruct (dict_get key quotas) as [q|] eqn:Hq;
      [|split; [done | exists key; auto]].
    assert (Hpre' : Forall (fun kv => is_Some (dict_get kv.1 quotas))
                      (pre ++ [(key, val)])).
    { apply Forall_app. split; [done|]. apply Forall_singleton. cbn [fst]. by rewrite Hq. }
    destruct ((0 <=? q) && (q <? val)) eqn:Hover.
    { apply wp_ret. split; [done|]. split; [|done].
      rewrite filter_app, fmap_app, filter_cons_True; [done|].
      left. by apply (exceeds_test quotas key q val). }
    assert (Hnq : ~ exceeds quotas key val).
    { rewrite <- (exceeds_test quotas key q val Hq). by rewrite Hover. }
    apply wp_bind, wp_getitem.
    destruct (dict_get key user_quotas) as [uq|] eqn:Huq;
      [|split; [done | exists key; auto]].
    destruct ((0 <=? uq) && (uq <? val)) eqn:Huover.
    { apply wp_ret. split; [done|]. split; [|done].
      rewrite filter_app, fmap_app, filter_cons_True; [done|].
      right. by apply (exceeds_test user_quotas key uq val). }
    apply wp_ret. split; [done|]. split; [|done].
    rewrite filter_app, filter_cons_False, filter_nil, app_nil_r; [done|].
    intros [H|H]; [done|].
    apply (exceeds_test user_quotas key uq val Huq) in H. congruence.
  - intros overs st0 (-> & -> & Hall). done.
Qed.

(** The dictionary filled by [for key in keys: d[key] = f(key)]. *)
Lemma dict_get_fold_set {V} (f : string -> V) (keys : list string) d key :
  dict_get key (fold_left (fun d k => dict_set k (f k) d) keys d)
  = if decide (key ∈ keys) then Some (f key) else dict_get key d.
Proof.
  revert d. induction keys as [|k keys IH]; intros d; cbn [fold_left].
  - rewrite decide_False; [done | apply not_elem_of_nil].
  - rewrite IH, dict_get_set.
    destruct (decide (key ∈ keys)) as [Hin|Hnin].
    + rewrite decide_True; [done | by right].
    + destruct (decide (k = key)) as [->|Hne].
      * rewrite decide_True; [done | left].
      * rewrite decide_False; [done|]. rewrite not_elem_of_cons. auto.
Qed.

(** The headroom dictionary [limit_check] builds for the names [overs]. *)
Definition headroom_dict (quotas : dict Z) (project_quotas : gmap string Z)
    (overs : list string) : dict Z :=
  fold_left
    (fun d k => dict_set k (default 0 (headroom_of quotas project_quotas k)) d)
    overs [].

Lemma dict_get_headroom_dict quotas project_quotas overs key :
  key ∈ overs ->
  is_Some (headroom_of quotas project_quotas key) ->
  dict_get key (headroom_dict quotas project_quotas overs)
  = headroom_of quotas project_quotas key.
Proof.
  intros Hin [h Hh]. unfold headroom_dict.
  rewrite (dict_get_fold_set
             (fun k => default 0 (headroom_of quotas project_quotas k))).
  rewrite decide_True by done. by rewrite Hh.
Qed.

Lemma limit_check_headroom_loop (overs : list string) (quotas : dict Z)
    (project_quotas : gmap string Z) st :
  wp (for_each overs
        (fun key headroom =>
           h <- DbQuotaDriver.min_present (dict_get key quotas)
                  (project_quotas !! key) ;;
           ret (dict_set key h headroom))
        []) st
    (fun r st' =>
       st' = st /\
       match r with
       | Ok headroom =>
           headroom = headroom_dict quotas project_quotas overs /\
           forall key, key ∈ overs ->
                       is_Some (headroom_of quotas project_quotas key)
       | Raise e =>
           (exists msg, e = ValueError msg) /\
           exists key, key ∈ overs /\
                       headroom_of quotas project_quotas key = None
       end).
Proof.
  apply wp_for_each with
    (I := fun pre headroom st' =>
            st' = st /\
            headroom = headroom_dict quotas project_quotas pre /\
            (forall key, key ∈ pre ->
                         is_Some (headroom_of quotas project_quotas key))).
  - split; [done|]. split; [done|].
    intros key Hin. by apply elem_of_nil in Hin.
  - intros pre key post headroom st0 Hovers (-> & -> & Hpre).
    assert (Hin : key ∈ overs).
    { rewrite Hovers. apply elem_of_app. right. left. }
    apply wp_bind. unfold DbQuotaDriver.min_present.
    destruct (dict_get key quotas) as [q|] eqn:Hq;
      destruct (project_quotas !! key) as [p|] eqn:Hp;
      try (apply wp_ret, wp_ret; split; [done|]; split;
           [unfold headroom_dict; rewrite fold_left_app; cbn [fold_left];
            unfold headroom_of; by rewrite Hq, Hp
           |intros key' Hin';
            apply elem_of_app in Hin' as [Hin'|Hin']; [by apply Hpre|];
            apply list_elem_of_singleton in Hin' as ->;
            unfold headroom_of; by rewrite Hq, Hp]).
    apply wp_raise. split; [done|]. split; [by eexists|].
    exists key. split; [done|].
    unfold headroom_of. by rewrite Hq, Hp.
  - intros headroom st0 (-> & -> & H). done.
Qed.

Lemma unders_empty (values : dict Z) :
  list_truthy (filter (fun kv => kv.2 < 0) values).*1 = false ->
  Forall (fun kv => 0 <= kv.2) values.
Proof.
  rewrite list_truthy_false. intros Hnil.
  apply fmap_nil_inv in Hnil.
  apply Forall_forall. intros kv Hin.
  destruct (decide (kv.2 < 0)) as [Hneg|]; [|lia].
  assert (kv ∈ filter (fun kv : string * Z => kv.2 < 0) values) as Hf
    by by apply list_elem_of_filter.
  rewrite Hnil in Hf. by apply elem_of_nil in Hf.
Qed.

(** What an [OverQuota] raised by [limit_check] carries. *)
Lemma limit_check_OverQuota w context resources values project_id user_id
    st overs quotas usages headroom st' :
  DbQuotaDriver.limit_check w context resources values project_id user_id st
  = (Raise (OverQuota overs quotas usages headroom), st') ->
  exists user_quotas,
    eval (project_scope_limits w context resources (dict_keys values)
            project_id) st = Ok quotas /\
    eval (user_scope_limits w context resources (dict_keys values)
            project_id user_id) st = Ok user_quotas /\
    Forall (fun kv => 0 <= kv.2) values /\
    Forall (fun kv => is_Some (dict_get kv.1 quotas)) values /\
    overs = sorted (filter (flagged quotas user_quotas) values).*1 /\
    usages = [] /\
    (forall key,
        key ∈ overs ->
        dict_get key headroom
        = headroom_of quotas
            (Quotas_get_all_by_project w
               (effective_id project_id (ctx_project_id context))) key).
Proof.
  intros H. unfold DbQuotaDriver.limit_check in H.
  apply bind_run in H as [(e & Hv & [= <-]) | ([] & st1 & Hv & H)].
  { exfalso.
    apply (raises_only_elim not_OverQuota _ _ _ _
             (_valid_method_call_check_resources_not_OverQuota _ _ _) Hv). }
  destruct (list_truthy (filter (fun kv : string * Z => kv.2 < 0) values).*1)
    eqn:Hunders; [by inversion H|].
  apply unders_empty in Hunders.
  apply bind_run in H as [(e & Hc & [= <-]) | ([] & st2 & Hc & H)];
    [by inversion Hc|].
  apply bind_run in H as [(e & Hq & [= <-]) | (quotas0 & st3 & Hq & H)].
  { exfalso.
    apply (raises_only_elim not_OverQuota _ _ _ _
             (_get_quotas_not_OverQuota _ _ _ _ _ _ _) Hq). }
  apply bind_run in H as [(e & Huq & [= <-]) | (user_quotas & st4 & Huq & H)].
  { exfalso.
    apply (raises_only_elim not_OverQuota _ _ _ _
             (_get_quotas_not_OverQuota _ _ _ _ _ _ _) Huq). }
  apply bind_run in H as [(e & Hloop & [= <-]) | (raw & st5 & Hloop & H)].
  { apply (wp_elim _ _ _ _ _ (limit_check_overs_loop _ _ _ _)) in Hloop
      as (_ & k & [=] & _). }
  apply (wp_elim _ _ _ _ _ (limit_check_overs_loop _ _ _ _)) in Hloop
    as (-> & -> & Hpresent).
  destruct (list_truthy _) eqn:Hovers; [|by inversion H].
  apply bind_run in H as [(e & Hh & [= <-]) | (headroom0 & st6 & Hh & H)].
  { apply (wp_elim _ _ _ _ _ (limit_check_headroom_loop _ _ _ _)) in Hh
      as (_ & (msg & [=]) & _). }
  apply (wp_elim _ _ _ _ _ (limit_check_headroom_loop _ _ _ _)) in Hh
    as (-> & -> & Hh).
  unfold raise in H. simplify_eq.
  exists user_quotas.
  split; [apply (log_only_run _ _ _ _ (log_only__get_quotas _ _ _ _ _ _ _) Hq)|].
  split; [apply (log_only_run _ _ _ _ (log_only__get_quotas _ _ _ _ _ _ _) Huq)|].
  repeat (split; [done|]).
  intros key Hkey. apply (proj1 (elem_of_sorted _ _)) in Hkey.
  apply dict_get_headroom_dict; [done | by apply Hh].
Qed.

(** ** Dictionaries built from a list of distinct names *)

Section KeyedLists.
Context {A V : Type} (key : A -> string).
Implicit Types (xs : list A) (f g : A -> V).

Lemma keyed_inj xs x y :
  NoDup (key <$> xs) -> x ∈ xs -> y ∈ xs -> key x = key y -> x = y.
Proof.
  intros Hnd Hx Hy Hxy.
  apply list_elem_of_lookup in Hx as [i Hi].
  apply list_elem_of_lookup in Hy as [j Hj].
  assert (i = j) as ->; [|congruence].
  apply (NoDup_lookup _ i j (key x) Hnd);
    rewrite list_lookup_fmap; [by rewrite Hi | by rewrite Hj, Hxy].
Qed.

Lemma dict_keys_keyed f xs :
  dict_keys ((fun x => (key x, f x)) <$> xs) = key <$> xs.
Proof. unfold dict_keys. rewrite <- list_fmap_compose. done. Qed.

Lemma fold_dict_set_keyed f xs (d : dict V) :
  NoDup (dict_keys d ++ (key <$> xs)) ->
  fold_left (fun d x => dict_set (key x) (f x) d) xs d
  = d ++ ((fun x => (key x, f x)) <$> xs).
Proof.
  revert d. induction xs as [|x xs IH]; intros d Hnd; cbn [fold_left].
  - by rewrite app_nil_r.
  - rewrite fmap_cons in Hnd.
    assert (Hx : key x ∉ dict_keys d).
    { apply NoDup_app in Hnd as (_ & Hdisj & _).
      intros Hin. apply (Hdisj _ Hin). left. }
    rewrite dict_set_fresh by done.
    rewrite IH.
    + by rewrite <- app_assoc.
    + unfold dict_keys in *. rewrite fmap_app, <- app_assoc. done.
Qed.

Lemma dict_get_keyed f xs x :
  NoDup (key <$> xs) -> x ∈ xs ->
  dict_get (key x) ((fun x => (key x, f x)) <$> xs) = Some (f x).
Proof.
  intros Hnd Hin. apply dict_get_NoDup.
  - by rewrite dict_keys_keyed.
  - apply list_elem_of_fmap. by exists x.
Qed.

Lemma dict_get_keyed_Some f xs k v :
  dict_get k ((fun x => (key x, f x)) <$> xs) = Some v ->
  exists x, x ∈ xs /\ key x = k /\ f x = v.
Proof.
  intros Hget. apply dict_get_Some_elem in Hget.
  apply list_elem_of_fmap in Hget as (x & [= -> ->] & Hin). by exists x.
Qed.

Lemma dict_get_keyed_None f xs k :
  k ∉ key <$> xs -> dict_get k ((fun x => (key x, f x)) <$> xs) = None.
Proof. intros Hk. apply dict_get_None. by rewrite dict_keys_keyed. Qed.

(** Overwriting the entry of one name. *)
Lemma dict_set_keyed f g xs k v :
  NoDup (key <$> xs) -> k ∈ key <$> xs ->
  (forall x, x ∈ xs -> key x = k -> g x = v) ->
  (forall x, x ∈ xs -> key x <> k -> g x = f x) ->
  dict_set k v ((fun x => (key x, f x)) <$> xs)
  = (fun x => (key x, g x)) <$> xs.
Proof.
  induction xs as [|x xs IH]; intros Hnd Hk Heq Hne.
  - by apply elem_of_nil in Hk.
  - rewrite !fmap_cons in *. cbn [dict_set].
    apply NoDup_cons in Hnd as [Hx Hnd].
    destruct (decide (k = key x)) as [->|Hkx].
    + rewrite (Heq x) by (done || left). f_equal.
      apply list_fmap_ext. intros i y Hy. f_equal.
      apply list_elem_of_lookup_2 in Hy.
      symmetry. apply Hne; [by right|]. intros Hky. apply Hx. rewrite <- Hky.
      apply list_elem_of_fmap. by exists y.
    + rewrite (Hne x) by (auto || left). f_equal.
      apply IH; [done | | |].
      * apply elem_of_cons in Hk as [?|?]; done.
      * intros y Hy. apply Heq. by right.
      * intros y Hy. apply Hne. by right.
Qed.
End KeyedLists.

(** A registry as [QuotaEngine] builds it: one entry per name, filed under
    the name of the resource. *)
Definition registry_wf (resources : dict Resource) : Prop :=
  NoDup (dict_keys resources) /\
  Forall (fun kr => resource_name kr.2 = kr.1) resources.

Lemma registry_wf_names resources :
  registry_wf resources -> resource_name <$> resources.*2 = dict_keys resources.
Proof.
  intros [_ Hnames]. unfold dict_keys.
  induction Hnames as [|[k r] rs Hk _ IH]; [done|].
  rewrite !fmap_cons. simpl in *. by rewrite Hk, IH.
Qed.

Lemma registry_wf_keyed {V} (f : Resource -> V) resources :
  registry_wf resources ->
  (fun r => (resource_name r, f r)) <$> resources.*2
  = (fun kr => (kr.1, f kr.2)) <$> resources.
Proof.
  intros [_ Hnames].
  induction Hnames as [|[k r] rs Hk _ IH]; [done|].
  rewrite !fmap_cons. simpl in *. by rewrite Hk, IH.
Qed.

Lemma registry_wf_filter (P : string * Resource -> Prop)
    `{forall kr, Decision (P kr)} resources :
  registry_wf resources -> registry_wf (filter P resources).
Proof.
  intros [Hnd Hnames]. split.
  - unfold dict_keys in *. apply (sublist_NoDup _ resources.*1); [done|].
    apply (fmap_sublist fst), sublist_filter.
  - apply Forall_forall. intros kr Hkr.
    apply list_elem_of_filter in Hkr as [_ Hkr].
    by apply (proj1 (Forall_forall _ _) Hnames).
Qed.

(** ** The limits that [_process_quotas] resolves *)

Lemma wp_of_eval {A} (m : M A) st r (Q : result A -> ProcState -> Prop) :
  eval m st = r -> (forall st', Q r st') -> wp m st Q.
Proof. unfold eval, wp. intros <- HQ. apply HQ. Qed.

Lemma eval_of_wp {A} (m : M A) st r :
  wp m st (fun r' _ => r' = r) -> eval m st = r.
Proof. done. Qed.

Lemma wp_call c st (Q : result unit -> ProcState -> Prop) :
  Q (Ok tt) (add_calls [c] st) -> wp (call c) st Q.
Proof. done. Qed.

(** The default of a resource: the entry of the default quota class, else
    the configured default. *)
Definition default_limit (w : World) (r : Resource) : Z :=
  default (resource_default w r)
    (Quotas_get_default_class w !! resource_name r).

(** The quota class [_process_quotas] goes by, and its quotas. *)
Definition effective_quota_class (context : RequestContext)
    (project_id quota_class : option string) : option string :=
  if decide (project_id = ctx_project_id context)
  then ctx_quota_class context else quota_class.

Definition class_quotas_of (w : World) (quota_class : option string)
    : gmap string Z :=
  match quota_class with
  | Some qc => if truthy (Some qc) then Quotas_get_all_class_by_name w qc else ∅
  | None => ∅
  end.

(** The limit of a resource: the stored quota, else the class quota, else
    the default. *)
Definition resolve_limit (w : World) (class_quotas quotas : gmap string Z)
    (r : Resource) : Z :=
  default (default (default_limit w r) (class_quotas !! resource_name r))
    (quotas !! resource_name r).

(** The sum of the per-user limits stored for a resource. *)
Definition granted (rows : list QuotaRow) (name : string) : Z :=
  foldr Z.add 0 (hard_limit <$> filter (fun q => resource q = name) rows).

Lemma granted_nil name : granted [] name = 0.
Proof. done. Qed.

Lemma granted_snoc rows q name :
  granted (rows ++ [q]) name
  = granted rows name + (if decide (resource q = name) then hard_limit q else 0).
Proof.
  unfold granted. rewrite filter_app, fmap_app, foldr_app.
  rewrite filter_cons, filter_nil.
  destruct (decide (resource q = name)); simpl.
  - generalize (hard_limit <$> filter (fun q => resource q = name) rows).
    intros l. induction l as [|h l IH]; simpl; lia.
  - lia.
Qed.

Section ProcessQuotas.
Variables (w : World) (context : RequestContext).

Lemma eval_get_defaults resources st :
  registry_wf resources ->
  eval (DbQuotaDriver.get_defaults w context resources) st
  = Ok ((fun r => (resource_name r, default_limit w r)) <$> resources.*2).
Proof.
  intros Hwf. unfold DbQuotaDriver.get_defaults. apply eval_of_wp.
  apply wp_bind, wp_call, wp_ret. f_equal.
  rewrite (fold_dict_set_keyed resource_name (default_limit w)); [done|].
  rewrite app_nil_l, registry_wf_names by done. apply Hwf.
Qed.

(** The entry [_process_quotas] builds for a resource. *)
Definition quota_value_of (project_id : option string)
    (quotas : gmap string Z) (quota_class : option string)
    (usages : option (dict Z)) (remains : bool) (r : Resource)
    : QuotaValue.t :=
  let limit :=
    resolve_limit w
      (class_quotas_of w (effective_quota_class context project_id quota_class))
      quotas r in
  {| QuotaValue.limit := limit;
     QuotaValue.in_use :=
       match usages with
       | Some us =>
           if dict_truthy us
           then Some (default 0 (dict_get (resource_name r) us))
           else None
       | None => None
       end;
     QuotaValue.remains :=
       if remains
       then Some (limit - granted (Quotas_get_all w project_id)
                            (resource_name r))
       else None |}.

(** The entry after the per-user rows [rows] have been subtracted. *)
Definition entry_after (project_id : option string) (quotas : gmap string Z)
    (quota_class : option string) (usages : option (dict Z))
    (rows : list QuotaRow) (r : Resource) : QuotaValue.t :=
  let e := quota_value_of project_id quotas quota_class usages false r in
  {| QuotaValue.limit := QuotaValue.limit e;
     QuotaValue.in_use := QuotaValue.in_use e;
     QuotaValue.remains :=
       Some (QuotaValue.limit e - granted rows (resource_name r)) |}.

Lemma _process_quotas_remains_loop resources project_id quotas quota_class
    usages rows st :
  NoDup (resource_name <$> resources) ->
  wp (for_each rows
        (fun quota modified_quotas =>
           match dict_get (resource quota) modified_quotas with
           | None => ret modified_quotas
           | Some qv =>
               match QuotaValue.remains qv with
               | None => raise (KeyError "remains")
               | Some r =>
                   ret (dict_set (resource quota)
                          {| QuotaValue.limit := QuotaValue.limit qv;
                             QuotaValue.in_use := QuotaValue.in_use qv;
                             QuotaValue.remains := Some (r - hard_limit quota) |}
                          modified_quotas)
               end
           end)
        ((fun r =>
            (resource_name r,
             entry_after project_id quotas quota_class usages [] r))
           <$> resources)) st
    (fun r _ =>
       r = Ok ((fun r =>
                  (resource_name r,
                   entry_after project_id quotas quota_class usages rows r))
                 <$> resources)).
Proof.
  intros Hnd.
  apply wp_for_each with
    (I := fun pre acc _ =>
            acc = (fun r =>
                     (resource_name r,
                      entry_after project_id quotas quota_class usages pre r))
                    <$> resources).
  - done.
  - intros pre q post acc st1 Hrows ->.
    destruct (dict_get (resource q) _) as [qv|] eqn:Hget.
    + apply dict_get_keyed_Some in Hget as (r & Hr & Hname & <-).
      cbn [entry_after QuotaValue.remains QuotaValue.limit QuotaValue.in_use].
      apply wp_ret.
      apply (dict_set_keyed resource_name); [done | | |].
      * rewrite <- Hname. apply list_elem_of_fmap. by exists r.
      * intros r' Hr' Hname'.
        assert (r' = r) as ->.
        { apply (keyed_inj resource_name resources); [done..|congruence]. }
        unfold entry_after. f_equal.
        rewrite granted_snoc, decide_True by done. f_equal. lia.
      * intros r' Hr' Hname'. unfold entry_after. f_equal.
        rewrite granted_snoc, decide_False by congruence. f_equal. lia.
    + apply wp_ret. apply list_fmap_ext. intros i r Hi.
      unfold entry_after. do 3 f_equal.
      rewrite granted_snoc, decide_False; [lia|].
      intros Hname. apply list_elem_of_lookup_2 in Hi.
      rewrite Hname in Hget.
      by rewrite (dict_get_keyed resource_name) in Hget.
  - by intros acc st1 ->.
Qed.

Lemma eval__process_quotas resources project_id quotas quota_class usages
    remains st :
  registry_wf resources ->
  eval (DbQuotaDriver._process_quotas w context resources project_id quotas
          quota_class usages remains) st
  = Ok ((fun r =>
           (resource_name r,
            quota_value_of project_id quotas quota_class usages remains r))
          <$> resources.*2).
Proof.
  intros Hwf. pose proof (registry_wf_names _ Hwf) as Hnames.
  assert (Hnd : NoDup (resource_name <$> resources.*2)).
  { rewrite Hnames. apply Hwf. }
  unfold DbQuotaDriver._process_quotas. apply eval_of_wp.
  fold (effective_quota_class context project_id quota_class).
  set (qc := effective_quota_class context project_id quota_class).
  apply wp_bind.
  apply wp_mono with
    (Q := fun r _ => r = Ok (class_quotas_of w qc)).
  { unfold class_quotas_of. destruct qc as [q|]; [|done].
    destruct (truthy (Some q)); [|done].
    by apply wp_bind, wp_call, wp_ret. }
  intros ? st1 ->.
  apply wp_bind. eapply wp_of_eval; [by apply eval_get_defaults|].
  intros st2. apply wp_bind.
  apply wp_for_each with
    (I := fun pre acc _ =>
            acc = (fun r =>
                     (resource_name r,
                      if remains
                      then entry_after project_id quotas quota_class usages [] r
                      else quota_value_of project_id quotas quota_class usages
                             false r))
                    <$> pre).
  { done. }
  { intros pre r post acc st3 Hres ->.
    assert (Hr : r ∈ resources.*2).
    { rewrite Hres. apply elem_of_app. right. left. }
    apply wp_bind, wp_getitem.
    rewrite (dict_get_keyed resource_name (default_limit w)) by done.
    apply wp_ret. rewrite fmap_app. cbn [fmap list_fmap].
    rewrite dict_set_fresh.
    - unfold entry_after, quota_value_of. fold qc.
      rewrite granted_nil, Z.sub_0_r. by destruct remains.
    - rewrite dict_keys_keyed.
      rewrite Hres, fmap_app in Hnd.
      apply NoDup_app in Hnd as (_ & Hdisj & _).
      intros Hin. apply (Hdisj _ Hin). left. }
  intros modified_quotas st3 ->.
  destruct remains; [|by apply wp_ret].
  apply wp_bind, wp_call.
  eapply wp_mono; [by apply _process_quotas_remains_loop|].
  intros r st4 ->. done.
Qed.
End ProcessQuotas.

(** ** The limits that [_get_quotas] returns *)

(** The loop of [get_user_quotas] that fills the user's quotas from the
    project's is a left-biased union. *)
Lemma user_quotas_fill (user_quotas proj_quotas : gmap string Z) :
  map_fold
    (fun key value (user_quotas : gmap string Z) =>
       if bool_decide (key ∉ dom user_quotas)
       then <[key := value]> user_quotas else user_quotas)
    user_quotas proj_quotas
  = user_quotas ∪ proj_quotas.
Proof.
  apply (map_fold_weak_ind (fun r m => r = user_quotas ∪ m)).
  - by rewrite (right_id_L ∅ (∪)).
  - intros k v m r Hk ->. apply map_eq. intros i.
    case_bool_decide as Hdom.
    + rewrite not_elem_of_dom in Hdom.
      destruct (decide (k = i)) as [->|Hne].
      * rewrite lookup_insert_eq.
        apply lookup_union_None in Hdom as [Hu _].
        by rewrite lookup_union_r, lookup_insert_eq.
      * rewrite lookup_insert_ne by done.
        rewrite !lookup_union, lookup_insert_ne by done. done.
    + apply elem_of_dom in Hdom as [x Hx].
      apply lookup_union_Some_raw in Hx as [Hx|[_ Hx]]; [|congruence].
      rewrite !lookup_union.
      destruct (decide (k = i)) as [->|Hne].
      * by rewrite Hx, lookup_insert_eq, Hk.
      * by rewrite lookup_insert_ne.
Qed.

(** The mapping a method works with when it was passed [passed] and falls
    back on [stored] for a missing or empty argument. *)
Definition passed_or (passed : option (gmap string Z))
    (stored : gmap string Z) : gmap string Z :=
  if map_truthy passed then default ∅ passed else stored.

Lemma passed_or_same stored : passed_or (Some stored) stored = stored.
Proof.
  unfold passed_or, map_truthy. simpl. by case_bool_decide.
Qed.

Section GetQuotas.
Variables (w : World) (context : RequestContext).

Lemma effective_quota_class_context project_id :
  effective_quota_class context project_id (ctx_quota_class context)
  = ctx_quota_class context.
Proof. unfold effective_quota_class. by case_decide. Qed.

Lemma eval_get_project_quotas resources project_id quota_class remains
    project_quotas st :
  registry_wf resources ->
  eval (DbQuotaDriver.get_project_quotas w context resources project_id
          quota_class false remains project_quotas) st
  = Ok ((fun r =>
           (resource_name r,
            quota_value_of w context project_id
              (passed_or project_quotas
                 (Quotas_get_all_by_project w project_id))
              quota_class (Some []) remains r))
          <$> resources.*2).
Proof.
  intros Hwf. unfold DbQuotaDriver.get_project_quotas. apply eval_of_wp.
  apply wp_bind.
  apply wp_mono with
    (Q := fun r _ =>
            r = Ok (passed_or project_quotas
                      (Quotas_get_all_by_project w project_id))).
  { unfold passed_or. destruct (map_truthy project_quotas); [done|].
    by apply wp_bind, wp_call, wp_ret. }
  intros ? st1 ->. apply wp_bind, wp_ret.
  eapply wp_of_eval; [by apply eval__process_quotas | done].
Qed.

Lemma eval_get_user_quotas resources project_id user_id quota_class
    project_quotas user_quotas st :
  registry_wf resources ->
  eval (DbQuotaDriver.get_user_quotas w context resources project_id user_id
          quota_class false project_quotas user_quotas) st
  = Ok ((fun r =>
           (resource_name r,
            quota_value_of w context project_id
              (passed_or user_quotas
                 (Quotas_get_all_by_project_and_user w project_id user_id)
               ∪ passed_or project_quotas
                   (Quotas_get_all_by_project w project_id))
              quota_class (Some []) false r))
          <$> resources.*2).
Proof.
  intros Hwf. unfold DbQuotaDriver.get_user_quotas. apply eval_of_wp.
  apply wp_bind.
  apply wp_mono with
    (Q := fun r _ =>
            r = Ok (passed_or user_quotas
                      (Quotas_get_all_by_project_and_user w project_id user_id))).
  { unfold passed_or. destruct (map_truthy user_quotas); [done|].
    by apply wp_bind, wp_call, wp_ret. }
  intros ? st1 ->. apply wp_bind.
  apply wp_mono with
    (Q := fun r _ =>
            r = Ok (passed_or project_quotas
                      (Quotas_get_all_by_project w project_id))).
  { unfold passed_or. destruct (map_truthy project_quotas); [done|].
    by apply wp_bind, wp_call, wp_ret. }
  intros ? st2 ->. rewrite user_quotas_fill. apply wp_bind, wp_ret.
  eapply wp_of_eval; [by apply eval__process_quotas | done].
Qed.

(** The stored quotas that decide the limits at one scope: the project's,
    overridden by the user's when a user is given. *)
Definition stored_quotas (project_id user_id : option string)
    (project_quotas : option (gmap string Z)) : gmap string Z :=
  if truthy user_id
  then Quotas_get_all_by_project_and_user w project_id user_id
       ∪ passed_or project_quotas (Quotas_get_all_by_project w project_id)
  else passed_or project_quotas (Quotas_get_all_by_project w project_id).

(** The limit [_get_quotas] returns for a resource. *)
Definition limit_of (project_id user_id : option string)
    (project_quotas : option (gmap string Z)) (r : Resource) : Z :=
  resolve_limit w (class_quotas_of w (ctx_quota_class context))
    (stored_quotas project_id user_id project_quotas) r.

(** The resources [_get_quotas] keeps. *)
Definition sub_resources (resources : dict Resource) (keys : list string)
    : dict Resource :=
  filter (fun kv => kv.1 ∈ (list_to_set keys : gset string)) resources.

Lemma eval__get_quotas_known resources keys project_id user_id
    project_quotas st :
  registry_wf resources ->
  length keys = length (sub_resources resources keys) ->
  eval (DbQuotaDriver._get_quotas w context resources keys project_id user_id
          project_quotas) st
  = Ok ((fun kr => (kr.1, limit_of project_id user_id project_quotas kr.2))
          <$> sub_resources resources keys).
Proof.
  intros Hwf Hlen. unfold DbQuotaDriver._get_quotas.
  fold (sub_resources resources keys).
  rewrite decide_False by (by intros ?).
  pose proof (registry_wf_filter
                (fun kv => kv.1 ∈ (list_to_set keys : gset string))
                resources Hwf) as Hsub.
  fold (sub_resources resources keys) in Hsub.
  apply eval_of_wp, wp_bind.
  unfold limit_of, stored_quotas.
  destruct (truthy user_id).
  - eapply wp_of_eval; [by apply eval_get_user_quotas|].
    intros st1. apply wp_ret. f_equal.
    rewrite (registry_wf_keyed _ _ Hsub), <- list_fmap_compose.
    apply list_fmap_ext. intros i [k r] _. simpl.
    unfold passed_or at 1. simpl.
    by rewrite effective_quota_class_context.
  - eapply wp_of_eval; [by apply eval_get_project_quotas|].
    intros st1. apply wp_ret. f_equal.
    rewrite (registry_wf_keyed _ _ Hsub), <- list_fmap_compose.
    apply list_fmap_ext. intros i [k r] _. simpl.
    by rewrite effective_quota_class_context.
Qed.
End GetQuotas.

(** ** Which names [_get_quotas] knows *)

Section SubResources.
Context (resources : dict Resource) (keys : list string).

Lemma elem_of_sub_resources_keys k :
  k ∈ dict_keys (sub_resources resources keys)
  <-> k ∈ dict_keys resources /\ k ∈ keys.
Proof.
  unfold dict_keys, sub_resources. rewrite !list_elem_of_fmap. split.
  - intros ([k' r] & -> & Hin). apply list_elem_of_filter in Hin as [Hk Hin].
    simpl in *. apply elem_of_list_to_set in Hk. split; [|done].
    by exists (k', r).
  - intros [([k' r] & -> & Hin) Hk]. exists (k', r). split; [done|].
    apply list_elem_of_filter. split; [|done].
    simpl. by apply elem_of_list_to_set.
Qed.

Lemma NoDup_sub_resources_keys :
  NoDup (dict_keys resources) -> NoDup (dict_keys (sub_resources resources keys)).
Proof.
  intros Hnd. unfold dict_keys, sub_resources in *.
  apply (sublist_NoDup _ resources.*1); [done|].
  apply (fmap_sublist fst), sublist_filter.
Qed.

(** All names known: the filtered registry has one entry per key. *)
Lemma sub_resources_length_known :
  NoDup (dict_keys resources) -> NoDup keys ->
  (forall k, k ∈ keys -> k ∈ dict_keys resources) ->
  length keys = length (sub_resources resources keys).
Proof.
  intros Hnd Hkeys Hknown.
  rewrite <- (length_fmap fst (sub_resources resources keys)).
  apply Permutation_length, NoDup_Permutation;
    [done | by apply NoDup_sub_resources_keys |].
  intros k. fold (dict_keys (sub_resources resources keys)).
  rewrite elem_of_sub_resources_keys. split; [auto | tauto].
Qed.

(** Some name unknown: the lengths differ. *)
Lemma sub_resources_length_unknown k :
  NoDup (dict_keys resources) ->
  k ∈ keys -> k ∉ dict_keys resources ->
  length keys <> length (sub_resources resources keys).
Proof.
  intros Hnd Hk Hunknown.
  assert (Hlt : (length (sub_resources resources keys) < length keys)%nat);
    [|lia].
  rewrite <- (length_fmap fst (sub_resources resources keys)).
  fold (dict_keys (sub_resources resources keys)).
  set (X := list_to_set keys : gset string).
  assert (H1 : (length (dict_keys (sub_resources resources keys))
                <= size (X ∖ {[k]}))%nat).
  { apply submseteq_length, NoDup_submseteq;
      [by apply NoDup_sub_resources_keys|].
    intros x Hx. apply elem_of_sub_resources_keys in Hx as [Hx1 Hx2].
    apply elem_of_elements, elem_of_difference. split.
    - by apply elem_of_list_to_set.
    - intros Hxk. apply elem_of_singleton in Hxk. by subst. }
  assert (H2 : (size (X ∖ {[k]}) < size X)%nat).
  { assert (Hin : k ∈ X) by by apply elem_of_list_to_set.
    apply subset_size. split.
    - intros x Hx. by apply elem_of_difference in Hx as [? _].
    - intros Hsub. specialize (Hsub k Hin).
      apply elem_of_difference in Hsub as [_ Hn].
      apply Hn. by apply elem_of_singleton. }
  assert (H3 : (size X <= length keys)%nat).
  { unfold size, set_size. simpl.
    apply submseteq_length, NoDup_submseteq; [apply NoDup_elements|].
    intros x Hx. apply elem_of_elements in Hx.
    by apply elem_of_list_to_set in Hx. }
  lia.
Qed.
End SubResources.

(** ** Validation of the requested names *)

(** [name] is registered and usable with the method [check]. *)
Definition checkable (resources : dict Resource) (name : string) : Prop :=
  exists r, dict_get name resources = Some r /\ valid_method r = Some "check".

Lemma _valid_method_call_check_resource_ok resources name st :
  checkable resources name ->
  _valid_method_call_check_resource name "check" resources st = (Ok tt, st).
Proof.
  intros (r & Hr & Hvm). unfold _valid_method_call_check_resource.
  rewrite Hr, Hvm. by rewrite decide_False by (by intros ?).
Qed.

Lemma _valid_method_call_check_resources_ok {V} (values : dict V) resources st :
  Forall (fun kv => checkable resources kv.1) values ->
  _valid_method_call_check_resources values "check" resources st = (Ok tt, st).
Proof.
  unfold _valid_method_call_check_resources, dict_keys.
  induction 1 as [|[k v] values Hk _ IH]; [done|].
  rewrite fmap_cons. cbn [for_each]. unfold bind at 1.
  by rewrite _valid_method_call_check_resource_ok.
Qed.

(** The first name that is not registered stops the validation, before
    anything else is done. *)
Lemma _valid_method_call_check_resources_unknown {V} (values : dict V)
    resources pre k v post st :
  values = pre ++ (k, v) :: post ->
  Forall (fun kv => checkable resources kv.1) pre ->
  dict_get k resources = None ->
  _valid_method_call_check_resources values "check" resources st
  = (Raise (InvalidQuotaMethodUsage "check" k), st).
Proof.
  intros -> Hpre Hk. unfold _valid_method_call_check_resources, dict_keys.
  induction Hpre as [|[k' v'] pre Hk' _ IH].
  - simpl. unfold bind, _valid_method_call_check_resource. by rewrite Hk.
  - rewrite <- app_comm_cons, fmap_cons. cbn [for_each]. unfold bind at 1.
    by rewrite _valid_method_call_check_resource_ok.
Qed.

(** ** [limit_check] on valid input *)

Lemma unders_nil (values : dict Z) :
  Forall (fun kv => 0 <= kv.2) values ->
  (filter (fun kv : string * Z => kv.2 < 0) values).*1 = [].
Proof.
  intros Hall. replace (filter _ values) with (@nil (string * Z)); [done|].
  symmetry. induction Hall as [|kv values Hkv _ IH]; [done|].
  rewrite filter_cons_False by lia. done.
Qed.

Lemma checkable_known resources name :
  checkable resources name -> name ∈ dict_keys resources.
Proof. intros (r & Hr & _). apply dict_get_is_Some. by rewrite Hr. Qed.

(** The limits of the requested names at one scope. *)
Definition limits_at (w : World) (context : RequestContext)
    (resources : dict Resource) (keys : list string)
    (project_id user_id : option string) : dict Z :=
  (fun kr =>
     (kr.1,
      limit_of w context project_id user_id
        (Some (Quotas_get_all_by_project w project_id)) kr.2))
    <$> sub_resources resources keys.

Lemma dict_keys_limits_at w context resources keys project_id user_id :
  dict_keys (limits_at w context resources keys project_id user_id)
  = dict_keys (sub_resources resources keys).
Proof.
  unfold limits_at, dict_keys. rewrite <- list_fmap_compose.
  apply list_fmap_ext. by intros i [k r] _.
Qed.

Lemma limits_at_present w context resources keys project_id user_id k :
  k ∈ keys -> k ∈ dict_keys resources ->
  is_Some (dict_get k (limits_at w context resources keys project_id user_id)).
Proof.
  intros Hk Hr. apply dict_get_is_Some.
  rewrite dict_keys_limits_at. by apply elem_of_sub_resources_keys.
Qed.

Section LimitCheckRun.
Variables (w : World) (context : RequestContext).
Variables (resources : dict Resource) (values : dict Z).
Variables (project_id user_id : option string).
Hypothesis Hwf : registry_wf resources.
Hypothesis Hkeys : NoDup (dict_keys values).
Hypothesis Hcheckable : Forall (fun kv => checkable resources kv.1) values.
Hypothesis Hnonneg : Forall (fun kv => 0 <= kv.2) values.

Let pid := effective_id project_id (ctx_project_id context).
Let uid := effective_id user_id (ctx_user_id context).
Let quotas := limits_at w context resources (dict_keys values) pid None.
Let user_quotas := limits_at w context resources (dict_keys values) pid uid.
Let overs := (filter (flagged quotas user_quotas) values).*1.

Lemma values_known k : k ∈ dict_keys values -> k ∈ dict_keys resources.
Proof.
  unfold dict_keys at 1. intros Hk.
  apply list_elem_of_fmap in Hk as (kv & -> & Hkv).
  apply checkable_known. by apply (proj1 (Forall_forall _ _) Hcheckable).
Qed.

Lemma values_length :
  length (dict_keys values)
  = length (sub_resources resources (dict_keys values)).
Proof.
  apply sub_resources_length_known; [apply Hwf | done | apply values_known].
Qed.

Lemma eval_project_scope_limits st :
  eval (project_scope_limits w context resources (dict_keys values) project_id)
    st = Ok quotas.
Proof.
  unfold project_scope_limits.
  by rewrite eval__get_quotas_known by (done || apply values_length).
Qed.

Lemma eval_user_scope_limits st :
  eval (user_scope_limits w context resources (dict_keys values) project_id
          user_id) st = Ok user_quotas.
Proof.
  unfold user_scope_limits.
  by rewrite eval__get_quotas_known by (done || apply values_length).
Qed.

Lemma limit_check_run st :
  eval (DbQuotaDriver.limit_check w context resources values project_id
          user_id) st
  = if decide (overs = []) then Ok tt
    else Raise (OverQuota (sorted overs) quotas []
                  (headroom_dict quotas (Quotas_get_all_by_project w pid)
                     overs)).
Proof.
  unfold DbQuotaDriver.limit_check. apply eval_of_wp.
  apply wp_bind.
  eapply wp_intro; [by apply _valid_method_call_check_resources_ok|].
  rewrite unders_nil by done. cbn [list_truthy].
  apply wp_bind, wp_call, wp_bind.
  eapply wp_of_eval; [apply eval_project_scope_limits|]. intros st1.
  apply wp_bind.
  eapply wp_of_eval; [apply eval_user_scope_limits|]. intros st2.
  apply wp_bind.
  eapply wp_mono; [apply limit_check_overs_loop|].
  intros [raw|e] st3 [-> Hr].
  - destruct Hr as [-> _]. fold overs.
    destruct overs as [|o os] eqn:Hovers; [by apply wp_ret|].
    cbn [list_truthy]. rewrite decide_False by done.
    apply wp_bind.
    eapply wp_mono; [apply limit_check_headroom_loop|].
    intros [headroom|e] st4 [-> Hh].
    + destruct Hh as [-> _]. by apply wp_raise.
    + destruct Hh as (_ & key & Hkey & Hnone). exfalso.
      assert (Hkv : key ∈ dict_keys values).
      { rewrite <- Hovers in Hkey. subst overs. unfold dict_keys.
        apply list_elem_of_fmap in Hkey as (kv & -> & Hkv).
        apply list_elem_of_filter in Hkv as [_ Hkv].
        apply list_elem_of_fmap. by exists kv. }
      destruct (limits_at_present w context resources (dict_keys values)
                  pid None key Hkv (values_known _ Hkv)) as [q Hq].
      unfold headroom_of in Hnone. fold quotas in Hq. rewrite Hq in Hnone.
      by destruct (Quotas_get_all_by_project w _ !! key).
  - destruct Hr as (k & -> & Hk & Hnone). exfalso.
    destruct (limits_at_present w context resources (dict_keys values)
                pid None k Hk (values_known _ Hk)) as [q Hq].
    destruct (limits_at_present w context resources (dict_keys values)
                pid uid k Hk (values_known _ Hk)) as [uq Huq].
    fold quotas in Hq. fold user_quotas in Huq.
    destruct Hnone; congruence.
Qed.
End LimitCheckRun.

(** ** The registry of [QUOTAS] and a small deployment *)

(** The dictionary [QuotaEngine.__init__] builds from a list of resources. *)
Definition registry_of (resources : list Resource) : dict Resource :=
  fold_left (fun d resource => dict_set (resource_name resource) resource d)
    resources [].

Definition QUOTAS_registry : dict Resource := registry_of QUOTAS_resources.

Lemma registry_wf_set resources r :
  registry_wf resources ->
  registry_wf (dict_set (resource_name r) r resources).
Proof.
  intros [Hnd Hnames]. split.
  - rewrite dict_keys_set. case_decide as Hin; [done|].
    apply NoDup_app. split; [done|]. split; [|apply NoDup_singleton].
    intros x Hx Hx'. apply list_elem_of_singleton in Hx' as ->. done.
  - clear Hnd. induction Hnames as [|[k r'] rs Hk Hrs IH]; cbn [dict_set].
    + by apply Forall_singleton.
    + case_decide as Hkr; by constructor.
Qed.

Lemma registry_of_wf resources : registry_wf (registry_of resources).
Proof.
  unfold registry_of.
  assert (H : forall d, registry_wf d ->
                        registry_wf
                          (fold_left
                             (fun d r => dict_set (resource_name r) r d)
                             resources d)).
  { induction resources as [|r rs IH]; intros d Hd; [done|].
    simpl. by apply IH, registry_wf_set. }
  apply H. split; [apply NoDup_nil_2 | apply Forall_nil_2].
Qed.

Lemma QuotaEngine_init_registry quota_driver resources st :
  exists engine,
    QuotaEngine.__init__ quota_driver resources st = (Ok engine, st) /\
    QuotaEngine._resources engine = registry_of (default [] resources).
Proof. by eexists. Qed.

(** A deployment with one project ["p"] whose stored limits are 20 cores
    and 2 instances, two users who were each granted 5 cores, and a user
    ["u"] without a grant; 18 cores are in use in the project, 3 of them by
    ["u"]. *)
Definition example_counts (project user : Z) : CountDict :=
  {| count_project := Some [("instances", 1); ("cores", project); ("ram", 512)];
     count_user := Some [("instances", 1); ("cores", user); ("ram", 512)] |}.

Definition example_world : World :=
  {| CONF_quota := fun _ => 10;
     CONF_quota_count_usage_from_placement := false;
     CONF_api_instance_list_per_project_cells := false;
     Quotas_get_default_class := ∅;
     Quotas_get_all_class_by_name := fun _ => ∅;
     Quotas_get_all := fun _ =>
       [ {| resource := "cores"; hard_limit := 5 |};
         {| resource := "cores"; hard_limit := 5 |} ];
     Quotas_get_all_by_project := fun _ => {[ "cores" := 20; "instances" := 2 ]};
     Quotas_get_all_by_project_and_user := fun _ user_id =>
       if bool_decide (user_id = Some "u") then ∅ else {[ "cores" := 5 ]};
     quota_get_per_project_resources := ["fixed_ips"; "floating_ips"; "networks"];
     instance_mappings := [];
     InstanceMappingList_get_counts := fun _ _ => example_counts 18 3;
     InstanceMappingList_get_count_by_uuids_and_user := fun _ _ => 0;
     get_usages_counts_for_quota := fun _ _ => example_counts 18 3;
     CellMappingList_get_by_project_id := fun _ => ["cell1"];
     CELLS := ["cell1"; "cell2"; "cell3"];
     scatter_gather_get_counts := fun _ _ _ =>
       [ ("cell1", CellValue (example_counts 10 1));
         ("cell2", CellFailure);
         ("cell3", CellValue (example_counts 8 2)) ];
     scatter_gather_group_member_uuids := fun _ _ => [];
     BuildRequestList_get_by_filters := fun _ _ => [];
     InstanceGroupList_get_counts := fun _ _ =>
       {| count_project := Some [("server_groups", 1)];
          count_user := Some [("server_groups", 1)] |};
     KeyPairList_get_count_by_user := fun _ => 0 |}.

Definition example_context : RequestContext :=
  {| ctx_project_id := Some "p";
     ctx_user_id := Some "u";
     ctx_quota_class := None |}.

(** ** Unlimited limits are never reported *)

(** C1: when [limit_check] raises [OverQuota], a resource is in [overs]
    exactly when one of its requested (non-negative) values is strictly
    above its project-scope limit or its user-scope limit and that limit is
    concrete (not negative); a resource whose limits are both negative
    (Unlimited) is never in [overs]. *)
Theorem limit_check_never_flags_unlimited
    w context resources values project_id user_id st
    overs quotas usages headroom st' :
  DbQuotaDriver.limit_check w context resources values project_id user_id st
  = (Raise (OverQuota overs quotas usages headroom), st') ->
  exists user_quotas,
    eval (project_scope_limits w context resources (dict_keys values)
            project_id) st = Ok quotas /\
    eval (user_scope_limits w context resources (dict_keys values)
            project_id user_id) st = Ok user_quotas /\
    (forall key,
        key ∈ overs <->
        exists val, (key, val) ∈ values /\ 0 <= val /\
                    (exceeds quotas key val \/ exceeds user_quotas key val)) /\
    (forall key,
        (forall q, dict_get key quotas = Some q -> q < 0) ->
        (forall q, dict_get key user_quotas = Some q -> q < 0) ->
        key ∉ overs).
Proof.
  intros Hrun.
  apply limit_check_OverQuota in Hrun
    as (user_quotas & Hq & Huq & Hnonneg & _ & -> & _ & _).
  exists user_quotas. split; [done|]. split; [done|].
  assert (Hiff : forall key,
             key ∈ sorted (filter (flagged quotas user_quotas) values).*1 <->
             exists val, (key, val) ∈ values /\ 0 <= val /\
                         (exceeds quotas key val \/ exceeds user_quotas key val)).
  { intros key. rewrite elem_of_sorted, list_elem_of_fmap. split.
    - intros ([k val] & -> & Hin).
      apply list_elem_of_filter in Hin as [Hflag Hin].
      exists val. split; [done|]. split; [|done].
      by apply (proj1 (Forall_forall _ _) Hnonneg (k, val)).
    - intros (val & Hin & _ & Hflag). exists (key, val). split; [done|].
      by apply list_elem_of_filter. }
  split; [done|].
  intros key Hp Hu Hin. apply Hiff in Hin as (val & _ & _ & [H|H]).
  - destruct H as (q & Hq' & ?). specialize (Hp q Hq'). lia.
  - destruct H as (q & Hq' & ?). specialize (Hu q Hq'). lia.
Qed.

(** In the example deployment [fixed_ips] has no stored limit and no flag,
    so that its limit is -1 at both scopes, and cores are limited to 20.
    Asking for a million fixed IPs and 23 cores flags the cores alone. *)
Lemma limit_check_never_flags_unlimited_witness :
  eval (DbQuotaDriver.limit_check example_world example_context
          QUOTAS_registry [("cores", 23); ("fixed_ips", 1000000)] None None)
    initial_state
  = Raise (OverQuota ["cores"] [("cores", 20); ("fixed_ips", -1)] []
             [("cores", 20)]) /\
  exists user_quotas,
    eval (project_scope_limits example_world example_context QUOTAS_registry
            ["cores"; "fixed_ips"] None) initial_state
    = Ok [("cores", 20); ("fixed_ips", -1)] /\
    eval (user_scope_limits example_world example_context QUOTAS_registry
            ["cores"; "fixed_ips"] None None) initial_state
    = Ok user_quotas /\
    dict_get "fixed_ips" user_quotas = Some (-1) /\
    (forall key,
        key ∈ ["cores"] <->
        exists val,
          (key, val) ∈ [("cores", 23); ("fixed_ips", 1000000)] /\ 0 <= val /\
          (exceeds [("cores", 20); ("fixed_ips", -1)] key val \/
           exceeds user_quotas key val)) /\
    "fixed_ips" ∉ ["cores"].
Proof.
  split; [vm_compute; reflexivity|].
  destruct (limit_check_never_flags_unlimited example_world example_context
              QUOTAS_registry [("cores", 23); ("fixed_ips", 1000000)] None
              None initial_state ["cores"] [("cores", 20); ("fixed_ips", -1)]
              [] [("cores", 20)]
              (DbQuotaDriver.limit_check example_world example_context
                 QUOTAS_registry [("cores", 23); ("fixed_ips", 1000000)] None
                 None initial_state).2)
    as (user_quotas & Hquotas & Huser & Hiff & Hunlimited).
  { vm_compute. reflexivity. }
  assert (Hfixed : dict_get "fixed_ips" user_quotas = Some (-1)).
  { vm_compute in Huser. by injection Huser as <-. }
  exists user_quotas. split; [exact Hquotas|]. split; [exact Huser|].
  split; [exact Hfixed|]. split; [exact Hiff|].
  apply Hunlimited.
  - intros q Hq. vm_compute in Hq. injection Hq as <-. lia.
  - intros q Hq. rewrite Hfixed in Hq. injection Hq as <-. lia.
Defined.

(** ** The headroom reported by [limit_check] *)

Lemma eval__get_quotas_Ok w context resources keys project_id user_id
    project_quotas st quotas :
  registry_wf resources ->
  eval (DbQuotaDriver._get_quotas w context resources keys project_id user_id
          project_quotas) st = Ok quotas ->
  quotas
  = (fun kr => (kr.1, limit_of w context project_id user_id project_quotas kr.2))
      <$> sub_resources resources keys.
Proof.
  intros Hwf Hrun.
  destruct (decide (length keys = length (sub_resources resources keys)))
    as [Hlen|Hlen].
  - rewrite eval__get_quotas_known in Hrun by done. congruence.
  - unfold DbQuotaDriver._get_quotas in Hrun.
    fold (sub_resources resources keys) in Hrun.
    by rewrite decide_True in Hrun by done.
Qed.

(** The project-scope limit of a resource that has a stored per-project
    quota is that quota. *)
Lemma project_scope_limit_stored w context resources keys project_id st
    quotas key q p :
  registry_wf resources ->
  eval (project_scope_limits w context resources keys project_id) st
  = Ok quotas ->
  dict_get key quotas = Some q ->
  Quotas_get_all_by_project w
    (effective_id project_id (ctx_project_id context)) !! key = Some p ->
  q = p.
Proof.
  intros Hwf Hrun Hq Hp. unfold project_scope_limits in Hrun.
  apply eval__get_quotas_Ok in Hrun; [|done]. subst quotas.
  apply dict_get_Some_elem, list_elem_of_fmap in Hq
    as ([k r] & [= -> ->] & Hin).
  apply list_elem_of_filter in Hin as [_ Hin].
  destruct Hwf as [_ Hnames].
  pose proof (proj1 (Forall_forall _ _) Hnames _ Hin) as Hname.
  simpl in *. unfold limit_of, resolve_limit, stored_quotas. simpl.
  by rewrite passed_or_same, Hname, Hp.
Qed.

(** C3, where the code differs: the headroom does not look at the limit of
    the user. In the example deployment the project is limited to 20 cores
    and the user ["v"] to 5; asking for 6 cores for ["v"] is over the
    user's limit only, and the headroom reported for cores is 20, the limit
    of the project, where the minimum with the per-user limit would be 5. *)
Lemma limit_check_headroom_ignores_the_user_limit :
  eval (project_scope_limits example_world example_context QUOTAS_registry
          ["cores"] None) initial_state = Ok [("cores", 20)] /\
  eval (user_scope_limits example_world example_context QUOTAS_registry
          ["cores"] None (Some "v")) initial_state = Ok [("cores", 5)] /\
  Quotas_get_all_by_project example_world (Some "p") !! "cores" = Some 20 /\
  eval (DbQuotaDriver.limit_check example_world example_context
          QUOTAS_registry [("cores", 6)] None (Some "v")) initial_state
  = Raise (OverQuota ["cores"] [("cores", 20)] [] [("cores", 20)]) /\
  Z.min 5 20 = 5.
Proof. vm_compute. repeat split. Qed.

(** C3, as the code has it: an [OverQuota] raised by [limit_check] carries
    no usages, and for every violated resource its headroom is the minimum
    of the project-scope limit the check used ([quotas], resolved without
    the user) and the stored per-project quota, whichever of the two is
    present; this is the limit itself. The limit of the user plays no part,
    and neither does usage: in every deployment in which the limit of the
    project for cores is 20, whatever is in use, checking the proposed
    total 18 + 5 raises [OverQuota] with [overs = ['cores']] and
    [headroom = {'cores': 20}]. *)
Theorem limit_check_headroom_is_the_limit :
  (forall w context resources values project_id user_id st
          overs quotas usages headroom st',
      registry_wf resources ->
      DbQuotaDriver.limit_check w context resources values project_id
        user_id st
      = (Raise (OverQuota overs quotas usages headroom), st') ->
      usages = [] /\
      eval (project_scope_limits w context resources (dict_keys values)
              project_id) st = Ok quotas /\
      forall key,
        key ∈ overs ->
        exists q,
          dict_get key quotas = Some q /\
          dict_get key headroom
          = headroom_of quotas
              (Quotas_get_all_by_project w
                 (effective_id project_id (ctx_project_id context))) key /\
          dict_get key headroom = Some q) /\
  (forall w context project_id user_id st (in_use delta : Z),
      eval (project_scope_limits w context QUOTAS_registry ["cores"]
              project_id) st = Ok [("cores", 20)] ->
      in_use = 18 -> delta = 5 ->
      exists st',
        DbQuotaDriver.limit_check w context QUOTAS_registry
          [("cores", in_use + delta)] project_id user_id st
        = (Raise (OverQuota ["cores"] [("cores", 20)] [] [("cores", 20)]),
           st')).
Proof.
  split.
  - intros w context resources values project_id user_id st
      overs quotas usages headroom st' Hwf Hrun.
    apply limit_check_OverQuota in Hrun
      as (user_quotas & Hq & _ & _ & Hpresent & -> & -> & Hhead).
    split; [done|]. split; [done|].
    intros key Hkey. specialize (Hhead key Hkey).
    assert (Hsome : is_Some (dict_get key quotas)).
    { apply (proj1 (elem_of_sorted _ _)), list_elem_of_fmap in Hkey
        as (kv & -> & Hin).
      apply list_elem_of_filter in Hin as [_ Hin].
      by apply (proj1 (Forall_forall _ _) Hpresent kv). }
    destruct Hsome as [q Hget]. exists q. split; [done|]. split; [done|].
    rewrite Hhead. unfold headroom_of. rewrite Hget.
    destruct (Quotas_get_all_by_project w _ !! key) as [p|] eqn:Hp; [|done].
    rewrite (project_scope_limit_stored _ _ _ _ _ _ _ _ _ _ Hwf Hq Hget Hp).
    by rewrite Z.min_id.
  - intros w context project_id user_id st in_use delta Hproject -> ->.
    pose proof (limit_check_run w context QUOTAS_registry [("cores", 18 + 5)]
                  project_id user_id (registry_of_wf _)) as Hrun.
    set (pid := effective_id project_id (ctx_project_id context)) in *.
    assert (Hquotas : limits_at w context QUOTAS_registry ["cores"] pid None
                      = [("cores", 20)]).
    { pose proof Hproject as Hlimits. unfold project_scope_limits in Hlimits.
      apply eval__get_quotas_Ok in Hlimits; [|apply registry_of_wf].
      by rewrite Hlimits. }
    assert (Hhead : headroom_of [("cores", 20)]
                      (Quotas_get_all_by_project w pid) "cores" = Some 20).
    { unfold headroom_of. cbn [dict_get]. rewrite decide_True by done.
      destruct (Quotas_get_all_by_project w pid !! "cores") as [p|] eqn:Hp;
        [|done].
      rewrite <- (project_scope_limit_stored w context QUOTAS_registry
                    ["cores"] project_id st [("cores", 20)] "cores" 20 p
                    (registry_of_wf _) Hproject eq_refl Hp).
      by rewrite Z.min_id. }
    specialize (Hrun ltac:(by apply NoDup_singleton)).
    specialize (Hrun ltac:(apply Forall_singleton; by eexists)).
    specialize (Hrun ltac:(by apply Forall_singleton) st).
    cbn [dict_keys fmap list_fmap fst] in Hrun. fold pid in Hrun.
    rewrite Hquotas in Hrun.
    rewrite filter_cons_True in Hrun
      by (left; exists 20; split; [reflexivity | simpl; lia]).
    rewrite filter_nil in Hrun. cbn [fmap list_fmap fst] in Hrun.
    rewrite decide_False in Hrun by done.
    unfold headroom_dict in Hrun. cbn [fold_left] in Hrun.
    rewrite Hhead in Hrun. cbn [default dict_set] in Hrun.
    unfold eval in Hrun.
    destruct (DbQuotaDriver.limit_check _ _ _ _ _ _ _) as [r st'].
    exists st'. simpl in Hrun. by rewrite Hrun.
Qed.

Lemma limit_check_headroom_is_the_limit_witness :
  (([] : dict Z) = [] /\
   eval (project_scope_limits example_world example_context QUOTAS_registry
           ["cores"] None) initial_state = Ok [("cores", 20)] /\
   forall key,
     key ∈ ["cores"] ->
     exists q,
       dict_get key [("cores", 20)] = Some q /\
       dict_get key [("cores", 20)]
       = headroom_of [("cores", 20)]
           (Quotas_get_all_by_project example_world
              (effective_id None (ctx_project_id example_context))) key /\
       dict_get key [("cores", 20)] = Some q) /\
  (exists st',
      DbQuotaDriver.limit_check example_world example_context QUOTAS_registry
        [("cores", 18 + 5)] None None initial_state
      = (Raise (OverQuota ["cores"] [("cores", 20)] [] [("cores", 20)]), st')).
Proof.
  split.
  - eapply (proj1 limit_check_headroom_is_the_limit example_world
              example_context QUOTAS_registry [("cores", 23)] None None
              initial_state ["cores"] [("cores", 20)] [] [("cores", 20)]).
    + apply registry_of_wf.
    + vm_compute. reflexivity.
  - apply (proj2 limit_check_headroom_is_the_limit example_world
             example_context None None initial_state 18 5);
      [vm_compute|..]; reflexivity.
Defined.

(** ** [limit_check_project_and_user] in three steps *)

(** The three parts of the body of [limit_check_project_and_user]: the
    validation of its arguments, the loop that moves the keys requested at
    one scope only into [merged_values], and the checks. *)
Definition lcpu_validation (resources : dict Resource)
    (project_values user_values : dict Z) : M unit :=
  _valid_method_call_check_resources project_values "check" resources ;;;
  _valid_method_call_check_resources user_values "check" resources ;;;
  (if negb (dict_truthy project_values || dict_truthy user_values)
   then raise (Invalid
     "Must specify at least one of project_values or user_values for the limit check.")
   else ret tt) ;;;
  for_each [project_values; user_values]
    (fun vals _ =>
       let unders := (filter (fun kv => kv.2 < 0) vals).*1 in
       if list_truthy unders then raise (InvalidQuotaValue (sorted unders))
       else ret tt)
    tt.

Definition lcpu_merge (keys_to_merge : list string)
    (project_values user_values : dict Z) : dict Z * dict Z * dict Z :=
  fold_left
    (fun acc key =>
       let '(merged_values, project_values, user_values) := acc in
       (dict_set key
          (DbQuotaDriver.int_or (default 0 (dict_get key project_values))
             (default 0 (dict_get key user_values)))
          merged_values,
        dict_pop key project_values,
        dict_pop key user_values))
    keys_to_merge
    ([], project_values, user_values).

(** [merged_quotas]: the limits of the two scopes combined, taking the
    smaller number. *)
Definition merged_limits (quotas user_quotas : dict Z) : dict Z :=
  fold_left
    (fun merged_quotas kv =>
       match dict_get kv.1 merged_quotas with
       | Some m => dict_set kv.1 (Z.min m kv.2) merged_quotas
       | None => dict_set kv.1 kv.2 merged_quotas
       end)
    user_quotas quotas.

Definition lcpu_merged_check (quotas user_quotas merged_values : dict Z)
    : M unit :=
  if dict_truthy merged_values then
    let merged_quotas := merged_limits quotas user_quotas in
    overs <-
      for_each merged_values
        (fun kv overs =>
           let '(key, val) := kv in
           mq <- getitem key merged_quotas ;;
           if (0 <=? mq) && (mq <? val) then ret (overs ++ [key])
           else ret overs)
        [] ;;
    if list_truthy overs then
      headroom <-
        for_each overs
          (fun key headroom =>
             mq <- getitem key merged_quotas ;;
             ret (dict_set key mq headroom))
          [] ;;
      raise (OverQuota (sorted overs) merged_quotas [] headroom)
    else ret tt
  else ret tt.

Definition lcpu_scoped_check (quotas user_quotas project_values user_values
    : dict Z) : M unit :=
  found <-
    for_each (dict_keys user_values)
      (fun key acc =>
         let '(overs, over_user_quota) := acc in
         q <- getitem key quotas ;;
         over_project <-
           (if 0 <=? q then
              pv <- getitem key project_values ;; ret (q <? pv)
            else ret false) ;;
         if over_project : bool then ret (overs ++ [key], over_user_quota)
         else
           uq <- getitem key user_quotas ;;
           over_user <-
             (if 0 <=? uq then
                uv <- getitem key user_values ;; ret (uq <? uv)
              else ret false) ;;
           if over_user : bool then ret (overs ++ [key], true)
           else ret (overs, over_user_quota))
      ([], false) ;;
  let '(overs, over_user_quota) := found in
  if list_truthy overs then
    let quotas_exceeded :=
      if over_user_quota : bool then user_quotas else quotas in
    headroom <-
      for_each overs
        (fun key headroom =>
           v <- getitem key quotas_exceeded ;;
           ret (dict_set key v headroom))
        [] ;;
    raise (OverQuota (sorted overs) quotas_exceeded [] headroom)
  else ret tt.

Definition lcpu_checks (w : World) (context : RequestContext)
    (resources : dict Resource) (all_keys : list string)
    (merged_values project_values user_values : dict Z)
    (project_id user_id : option string) : M unit :=
  call (Call_Quotas_get_all_by_project project_id) ;;;
  let project_quotas := Quotas_get_all_by_project w project_id in
  quotas <-
    DbQuotaDriver._get_quotas w context resources all_keys project_id None
      (Some project_quotas) ;;
  user_quotas <-
    DbQuotaDriver._get_quotas w context resources all_keys project_id user_id
      (Some project_quotas) ;;
  lcpu_merged_check quotas user_quotas merged_values ;;;
  lcpu_scoped_check quotas user_quotas project_values user_values.

(** The keys requested at one scope only and at either scope. *)
Definition keys_to_merge (project_values user_values : dict Z) : gset string :=
  (list_to_set (dict_keys project_values)
     ∖ list_to_set (dict_keys user_values)) ∪
  (list_to_set (dict_keys user_values)
     ∖ list_to_set (dict_keys project_values)).

Definition all_keys (project_values user_values : dict Z) : gset string :=
  list_to_set (dict_keys project_values) ∪
  list_to_set (dict_keys user_values).

Lemma limit_check_project_and_user_unfold w context resources
    project_values user_values project_id user_id st :
  DbQuotaDriver.limit_check_project_and_user w context resources
    project_values user_values project_id user_id st
  = let pv := default [] project_values in
    let uv := default [] user_values in
    match lcpu_validation resources pv uv st with
    | (Raise e, st) =>
        (Raise e,
         {| DbQuotaDriver.project_values_after := pv;
            DbQuotaDriver.user_values_after := uv |}, st)
    | (Ok _, st) =>
        let '(merged_values, pv', uv') :=
          lcpu_merge (elements (keys_to_merge pv uv)) pv uv in
        let '(r, st) :=
          lcpu_checks w context resources (elements (all_keys pv uv))
            merged_values pv' uv'
            (effective_id project_id (ctx_project_id context))
            (effective_id user_id (ctx_user_id context)) st in
        (r,
         {| DbQuotaDriver.project_values_after := pv';
            DbQuotaDriver.user_values_after := uv' |}, st)
    end.
Proof. reflexivity. Qed.

(** ** The merge step *)

Lemma filter_ext_in {A} (P Q : A -> Prop) `{forall x, Decision (P x)}
    `{forall x, Decision (Q x)} (l : list A) :
  (forall x, x ∈ l -> P x <-> Q x) -> filter P l = filter Q l.
Proof.
  induction l as [|x l IH]; intros Hext; [done|].
  rewrite !filter_cons.
  assert (Hx : P x <-> Q x) by (apply Hext; left).
  rewrite IH by (intros y Hy; apply Hext; by right).
  destruct (decide (P x)), (decide (Q x)); tauto.
Qed.

Lemma filter_all {A} (P : A -> Prop) `{forall x, Decision (P x)} (l : list A) :
  (forall x, x ∈ l -> P x) -> filter P l = l.
Proof.
  induction l as [|x l IH]; intros Hall; [done|].
  rewrite filter_cons_True by (apply Hall; left).
  rewrite IH; [done|]. intros y Hy. apply Hall. by right.
Qed.

Lemma dict_get_pop_ne {V} k k' (d : dict V) :
  k <> k' -> dict_get k' (dict_pop k d) = dict_get k' d.
Proof.
  intros Hne. induction d as [|[k0 v0] d IH]; cbn [dict_pop dict_get]; [done|].
  destruct (decide (k = k0)) as [->|Hk0].
  - by rewrite IH, decide_False by done.
  - cbn [dict_get]. by rewrite IH.
Qed.

(** The value filed under a key that is requested at one scope only. *)
Definition merged_value (project_values user_values : dict Z)
    (key : string) : Z :=
  DbQuotaDriver.int_or (default 0 (dict_get key project_values))
    (default 0 (dict_get key user_values)).



Lemma lcpu_merge_fold keys merged_values project_values user_values :
  NoDup (dict_keys merged_values ++ keys) ->
  fold_left
    (fun acc key =>
       let '(merged_values, project_values, user_values) := acc in
       (dict_set key
          (DbQuotaDriver.int_or (default 0 (dict_get key project_values))
             (default 0 (dict_get key user_values)))
          merged_values,
        dict_pop key project_values,
        dict_pop key user_values))
    keys (merged_values, project_values, user_values)
  = (merged_values
       ++ ((fun k => (k, merged_value project_values user_values k)) <$> keys),
     filter (fun kv => kv.1 ∉ keys) project_values,
     filter (fun kv => kv.1 ∉ keys) user_values).
Proof.
  revert merged_values project_values user_values.
  induction keys as [|k keys IH]; intros mv pv uv Hnd; cbn [fold_left].
  - rewrite app_nil_r. f_equal; [f_equal|].
    + symmetry. apply filter_all. intros kv _. apply not_elem_of_nil.
    + symmetry. apply filter_all. intros kv _. apply not_elem_of_nil.
  - assert (Hk : k ∉ dict_keys mv).
    { apply NoDup_app in Hnd as (_ & Hdisj & _).
      intros Hin. apply (Hdisj _ Hin). left. }
    assert (Hkk : k ∉ keys).
    { apply NoDup_app in Hnd as (_ & _ & Hnd).
      by apply NoDup_cons in Hnd as [? _]. }
    rewrite dict_set_fresh by done.
    rewrite IH.
    + rewrite <- app_assoc. cbn [app fmap list_fmap]. f_equal; [f_equal|].
      * f_equal. f_equal. apply list_fmap_ext. intros i k' Hk'.
        apply list_elem_of_lookup_2 in Hk'.
        unfold merged_value. rewrite !dict_get_pop_ne; [done|..];
          intros ->; done.
      * rewrite dict_pop_filter, list_filter_filter.
        apply filter_ext_in. intros kv _. rewrite not_elem_of_cons. tauto.
      * rewrite dict_pop_filter, list_filter_filter.
        apply filter_ext_in. intros kv _. rewrite not_elem_of_cons. tauto.
    + unfold dict_keys in *. rewrite fmap_app, <- app_assoc. done.
Qed.

Lemma lcpu_merge_spec keys project_values user_values :
  NoDup keys ->
  lcpu_merge keys project_values user_values
  = ((fun k => (k, merged_value project_values user_values k)) <$> keys,
     filter (fun kv => kv.1 ∉ keys) project_values,
     filter (fun kv => kv.1 ∉ keys) user_values).
Proof. intros Hnd. unfold lcpu_merge. by rewrite lcpu_merge_fold. Qed.

(** What is left in each argument: the keys requested at both scopes. *)
Lemma not_merged_project (project_values user_values : dict Z) :
  filter (fun kv => kv.1 ∉ elements (keys_to_merge project_values user_values))
    project_values
  = filter (fun kv => kv.1 ∈ dict_keys user_values) project_values.
Proof.
  apply filter_ext_in. intros [k v] Hin. simpl.
  assert (Hk : k ∈ dict_keys project_values).
  { apply list_elem_of_fmap. by exists (k, v). }
  rewrite elem_of_elements. unfold keys_to_merge.
  rewrite elem_of_union, !elem_of_difference, !elem_of_list_to_set.
  destruct (decide (k ∈ dict_keys user_values)); tauto.
Qed.

Lemma not_merged_user (project_values user_values : dict Z) :
  filter (fun kv => kv.1 ∉ elements (keys_to_merge project_values user_values))
    user_values
  = filter (fun kv => kv.1 ∈ dict_keys project_values) user_values.
Proof.
  apply filter_ext_in. intros [k v] Hin. simpl.
  assert (Hk : k ∈ dict_keys user_values).
  { apply list_elem_of_fmap. by exists (k, v). }
  rewrite elem_of_elements. unfold keys_to_merge.
  rewrite elem_of_union, !elem_of_difference, !elem_of_list_to_set.
  destruct (decide (k ∈ dict_keys project_values)); tauto.
Qed.

(** ** The two checks of [limit_check_project_and_user] *)

(** The limits of the two scopes combined: the smaller number of the two. *)
Lemma dict_get_merged_limits (quotas user_quotas : dict Z) k :
  NoDup (dict_keys user_quotas) ->
  dict_get k (merged_limits quotas user_quotas)
  = match dict_get k quotas, dict_get k user_quotas with
    | Some q, Some uq => Some (Z.min q uq)
    | Some q, None => Some q
    | None, Some uq => Some uq
    | None, None => None
    end.
Proof.
  unfold merged_limits, dict_keys. revert quotas.
  induction user_quotas as [|[k0 v0] uqs IH]; intros quotas Hnd;
    cbn [fold_left].
  - cbn [dict_get]. by destruct (dict_get k quotas).
  - rewrite fmap_cons in Hnd. apply NoDup_cons in Hnd as [Hk0 Hnd].
    rewrite IH by done. cbn [dict_get fst snd].
    destruct (decide (k = k0)) as [->|Hne].
    + assert (Hnone : dict_get k0 uqs = None) by by apply dict_get_None.
      rewrite Hnone.
      destruct (dict_get k0 quotas) as [m|]; by rewrite dict_get_set_eq.
    + destruct (dict_get k0 quotas) as [m|];
        by rewrite dict_get_set_ne by done.
Qed.

(** The headroom dictionary of [limit_check_project_and_user]: the limit that
    was exceeded, for every name in [overs]. *)
Definition limits_dict (limits : dict Z) (overs : list string) : dict Z :=
  fold_left (fun d k => dict_set k (default 0 (dict_get k limits)) d) overs [].

Lemma dict_get_limits_dict limits overs key :
  key ∈ overs -> is_Some (dict_get key limits) ->
  dict_get key (limits_dict limits overs) = dict_get key limits.
Proof.
  intros Hin [v Hv]. unfold limits_dict.
  rewrite (dict_get_fold_set (fun k => default 0 (dict_get k limits))).
  rewrite decide_True by done. by rewrite Hv.
Qed.

Lemma lcpu_headroom_loop (overs : list string) (limits : dict Z) st :
  wp (for_each overs
        (fun key headroom =>
           v <- getitem key limits ;;
           ret (dict_set key v headroom))
        []) st
    (fun r st' =>
       st' = st /\
       match r with
       | Ok headroom => headroom = limits_dict limits overs
       | Raise e =>
           exists k, e = KeyError k /\ k ∈ overs /\ dict_get k limits = None
       end).
Proof.
  apply wp_for_each with
    (I := fun pre headroom st' =>
            st' = st /\ headroom = limits_dict limits pre).
  - done.
  - intros pre key post headroom st0 Hovers (-> & ->).
    apply wp_bind, wp_getitem.
    destruct (dict_get key limits) as [v|] eqn:Hv.
    + apply wp_ret. split; [done|].
      unfold limits_dict. rewrite fold_left_app. cbn [fold_left].
      by rewrite Hv.
    + split; [done|]. exists key. split; [done|]. split; [|done].
      rewrite Hovers. apply elem_of_app. right. left.
  - by intros headroom st0 (-> & ->).
Qed.

Lemma lcpu_merged_overs_loop (merged_values merged_quotas : dict Z) st :
  wp (for_each merged_values
        (fun kv overs =>
           let '(key, val) := kv in
           mq <- getitem key merged_quotas ;;
           if (0 <=? mq) && (mq <? val) then ret (overs ++ [key])
           else ret overs)
        []) st
    (fun r st' =>
       st' = st /\
       match r with
       | Ok overs =>
           overs
           = (filter (fun kv => exceeds merged_quotas kv.1 kv.2)
                merged_values).*1
       | Raise e =>
           exists k, e = KeyError k /\ k ∈ dict_keys merged_values /\
                     dict_get k merged_quotas = None
       end).
Proof.
  apply wp_for_each with
    (I := fun pre overs st' =>
            st' = st /\
            overs = (filter (fun kv => exceeds merged_quotas kv.1 kv.2)
                       pre).*1).
  - done.
  - intros pre [key val] post overs st0 Hvalues (-> & ->).
    apply wp_bind, wp_getitem.
    destruct (dict_get key merged_quotas) as [mq|] eqn:Hmq.
    + destruct ((0 <=? mq) && (mq <? val)) eqn:Hover; apply wp_ret;
        (split; [done|]); rewrite filter_app, fmap_app.
      * rewrite filter_cons_True; [done|].
        by apply (exceeds_test merged_quotas key mq val).
      * rewrite filter_cons_False, filter_nil, app_nil_r; [done|].
        rewrite <- (exceeds_test merged_quotas key mq val Hmq).
        by rewrite Hover.
    + split; [done|]. exists key. split; [done|]. split; [|done].
      unfold dict_keys. rewrite Hvalues, fmap_app, fmap_cons.
      apply elem_of_app. right. left.
  - by intros overs st0 (-> & ->).
Qed.

(** [key] is requested in [vals] with a value over its limit in [limits]. *)
Definition scoped_over (limits vals : dict Z) (key : string) : Prop :=
  exists v, dict_get key vals = Some v /\ exceeds limits key v.

#[export] Instance scoped_over_dec limits vals key :
  Decision (scoped_over limits vals key).
Proof.
  unfold scoped_over. destruct (dict_get key vals) as [v|].
  - destruct (decide (exceeds limits key v)) as [Hv|Hv].
    + left. by exists v.
    + right. intros (v' & [= <-] & Hv'). done.
  - right. intros (v' & [=] & _).
Defined.

(** The result of the second loop: the names over their project limit or
    their user limit, and whether some name was over its user limit only. *)
Definition scoped_overs (quotas user_quotas project_values user_values : dict Z)
    (keys : list string) : list string :=
  filter (fun key => scoped_over quotas project_values key \/
                     scoped_over user_quotas user_values key) keys.

Definition over_user_only (quotas user_quotas project_values user_values
    : dict Z) (keys : list string) : bool :=
  bool_decide
    (Exists (fun key => ~ scoped_over quotas project_values key /\
                        scoped_over user_quotas user_values key) keys).

Lemma lcpu_scoped_loop (quotas user_quotas project_values user_values : dict Z)
    (keys : list string) st :
  Forall (fun key => is_Some (dict_get key quotas) /\
                     is_Some (dict_get key user_quotas) /\
                     is_Some (dict_get key project_values) /\
                     is_Some (dict_get key user_values)) keys ->
  wp (for_each keys
        (fun key acc =>
           let '(overs, over_user_quota) := acc in
           q <- getitem key quotas ;;
           over_project <-
             (if 0 <=? q then
                pv <- getitem key project_values ;; ret (q <? pv)
              else ret false) ;;
           if over_project : bool then ret (overs ++ [key], over_user_quota)
           else
             uq <- getitem key user_quotas ;;
             over_user <-
               (if 0 <=? uq then
                  uv <- getitem key user_values ;; ret (uq <? uv)
                else ret false) ;;
             if over_user : bool then ret (overs ++ [key], true)
             else ret (overs, over_user_quota))
        ([], false)) st
    (fun r st' =>
       st' = st /\
       r = Ok (scoped_overs quotas user_quotas project_values user_values keys,
               over_user_only quotas user_quotas project_values user_values
                 keys)).
Proof.
  intros Hpresent.
  apply wp_for_each with
    (I := fun pre acc st' =>
            st' = st /\
            acc = (scoped_overs quotas user_quotas project_values user_values
                     pre,
                   over_user_only quotas user_quotas project_values
                     user_values pre)).
  - done.
  - intros pre key post acc st0 Hkeys (-> & ->).
    assert (Hkey : key ∈ keys).
    { rewrite Hkeys. apply elem_of_app. right. left. }
    destruct (proj1 (Forall_forall _ _) Hpresent key Hkey)
      as ([q Hq] & [uq Huq] & [pv Hpv] & [uv Huv]).
    assert (Hp : scoped_over quotas project_values key
                 <-> (0 <=? q) && (q <? pv) = true).
    { rewrite (exceeds_test quotas key q pv Hq). unfold scoped_over. split.
      - intros (v & Hv & Hex). congruence.
      - intros Hex. by exists pv. }
    assert (Hu : scoped_over user_quotas user_values key
                 <-> (0 <=? uq) && (uq <? uv) = true).
    { rewrite (exceeds_test user_quotas key uq uv Huq). unfold scoped_over.
      split.
      - intros (v & Hv & Hex). congruence.
      - intros Hex. by exists uv. }
    assert (Hflag : forall b : bool,
               (b = true <-> ~ scoped_over quotas project_values key /\
                             scoped_over user_quotas user_values key) ->
               over_user_only quotas user_quotas project_values user_values
                 (pre ++ [key])
               = over_user_only quotas user_quotas project_values user_values
                   pre || b).
    { intros b Hb. unfold over_user_only.
      apply eq_true_iff_eq. rewrite orb_true_iff, !bool_decide_eq_true.
      rewrite Exists_app, Exists_cons, Exists_nil. rewrite Hb. tauto. }
    apply wp_bind, wp_getitem. rewrite Hq.
    apply wp_bind.
    apply wp_mono with
      (Q := fun r st1 => st1 = st /\ r = Ok ((0 <=? q) && (q <? pv))).
    { destruct (0 <=? q); [|by apply wp_ret].
      apply wp_bind, wp_getitem. rewrite Hpv. by apply wp_ret. }
    intros ? st1 (-> & ->).
    destruct ((0 <=? q) && (q <? pv)) eqn:Hover.
    { apply wp_ret. split; [done|]. unfold scoped_overs.
      rewrite filter_app, filter_cons_True by (left; by apply Hp).
      rewrite (Hflag false); [by rewrite orb_false_r|].
      split; [done|]. intros [Hn _]. exfalso. apply Hn. by apply Hp. }
    assert (Hnp : ~ scoped_over quotas project_values key).
    { intros H. by apply Hp in H. }
    apply wp_bind, wp_getitem. rewrite Huq.
    apply wp_bind.
    apply wp_mono with
      (Q := fun r st1 => st1 = st /\ r = Ok ((0 <=? uq) && (uq <? uv))).
    { destruct (0 <=? uq); [|by apply wp_ret].
      apply wp_bind, wp_getitem. rewrite Huv. by apply wp_ret. }
    intros ? st1 (-> & ->).
    destruct ((0 <=? uq) && (uq <? uv)) eqn:Huover.
    { apply wp_ret. split; [done|]. unfold scoped_overs.
      rewrite filter_app, filter_cons_True by (right; by apply Hu).
      rewrite (Hflag true); [by rewrite orb_true_r|].
      split; [|done]. intros _. split; [done|]. by apply Hu. }
    apply wp_ret. split; [done|]. unfold scoped_overs.
    rewrite filter_app, filter_cons_False, filter_nil, app_nil_r.
    + rewrite (Hflag false); [by rewrite orb_false_r|].
      split; [done|]. intros [_ Hyes]. apply Hu in Hyes. congruence.
    + intros [H|H]; [done|]. apply Hu in H. congruence.
  - by intros acc st0 (-> & ->).
Qed.

(** ** [limit_check_project_and_user] on valid input *)

Lemma dict_get_filter_keys {V} (P : string -> Prop) `{forall k, Decision (P k)}
    (d : dict V) k :
  dict_get k (filter (fun kv => P kv.1) d)
  = if decide (P k) then dict_get k d else None.
Proof.
  induction d as [|[k0 v0] d IH].
  - by destruct (decide (P k)).
  - rewrite filter_cons. cbn [fst dict_get].
    destruct (decide (P k0)) as [Hk0|Hk0]; cbn [dict_get]; rewrite IH;
      destruct (decide (k = k0)) as [->|Hne]; try done;
      destruct (decide (P k0)); done.
Qed.

Lemma lcpu_validation_ok resources (project_values user_values : dict Z) st :
  Forall (fun kv => checkable resources kv.1) project_values ->
  Forall (fun kv => checkable resources kv.1) user_values ->
  project_values <> [] \/ user_values <> [] ->
  Forall (fun kv => 0 <= kv.2) project_values ->
  Forall (fun kv => 0 <= kv.2) user_values ->
  lcpu_validation resources project_values user_values st = (Ok tt, st).
Proof.
  intros Hpc Huc Hsome Hpn Hun. unfold lcpu_validation.
  unfold bind at 1. rewrite _valid_method_call_check_resources_ok by done.
  unfold bind at 1. rewrite _valid_method_call_check_resources_ok by done.
  assert (Htruthy : dict_truthy project_values || dict_truthy user_values
                    = true).
  { destruct project_values, user_values; try done. by destruct Hsome. }
  rewrite Htruthy. cbn [negb for_each]. unfold bind, ret.
  by rewrite !unders_nil by done.
Qed.

Section LimitCheckProjectAndUserRun.
Variables (w : World) (context : RequestContext).
Variables (resources : dict Resource) (project_values user_values : dict Z).
Variables (project_id user_id : option string).
Hypothesis Hwf : registry_wf resources.
Hypothesis Hpk : NoDup (dict_keys project_values).
Hypothesis Huk : NoDup (dict_keys user_values).
Hypothesis Hpc : Forall (fun kv => checkable resources kv.1) project_values.
Hypothesis Huc : Forall (fun kv => checkable resources kv.1) user_values.
Hypothesis Hpn : Forall (fun kv => 0 <= kv.2) project_values.
Hypothesis Hun : Forall (fun kv => 0 <= kv.2) user_values.
Hypothesis Hsome : project_values <> [] \/ user_values <> [].

Let pid := effective_id project_id (ctx_project_id context).
Let uid := effective_id user_id (ctx_user_id context).
Let requested := elements (all_keys project_values user_values).
Let quotas := limits_at w context resources requested pid None.
Let user_quotas := limits_at w context resources requested pid uid.
Let merged_values : dict Z :=
  (fun k => (k, merged_value project_values user_values k))
    <$> elements (keys_to_merge project_values user_values).
Let pv' := filter (fun kv => kv.1 ∈ dict_keys user_values) project_values.
Let uv' := filter (fun kv => kv.1 ∈ dict_keys project_values) user_values.
Let merged_quotas := merged_limits quotas user_quotas.
Let merged_overs :=
  (filter (fun kv => exceeds merged_quotas kv.1 kv.2) merged_values).*1.
Let both_overs := scoped_overs quotas user_quotas pv' uv' (dict_keys uv').
Let quotas_exceeded :=
  if over_user_only quotas user_quotas pv' uv' (dict_keys uv')
  then user_quotas else quotas.

Lemma requested_iff k :
  k ∈ requested <-> k ∈ dict_keys project_values \/ k ∈ dict_keys user_values.
Proof.
  unfold requested, all_keys.
  by rewrite elem_of_elements, elem_of_union, !elem_of_list_to_set.
Qed.

Lemma requested_known k : k ∈ requested -> k ∈ dict_keys resources.
Proof.
  rewrite requested_iff. unfold dict_keys at 1 2.
  intros [Hk|Hk]; apply list_elem_of_fmap in Hk as (kv & -> & Hkv);
    apply checkable_known.
  - by apply (proj1 (Forall_forall _ _) Hpc).
  - by apply (proj1 (Forall_forall _ _) Huc).
Qed.

Lemma requested_length :
  length requested = length (sub_resources resources requested).
Proof.
  apply sub_resources_length_known;
    [apply Hwf | apply NoDup_elements | apply requested_known].
Qed.

Lemma quotas_present k : k ∈ requested -> is_Some (dict_get k quotas).
Proof.
  intros Hk. by apply limits_at_present; [|apply requested_known].
Qed.

Lemma user_quotas_present k :
  k ∈ requested -> is_Some (dict_get k user_quotas).
Proof.
  intros Hk. by apply limits_at_present; [|apply requested_known].
Qed.

Lemma NoDup_user_quotas : NoDup (dict_keys user_quotas).
Proof.
  unfold user_quotas. rewrite dict_keys_limits_at.
  apply NoDup_sub_resources_keys, Hwf.
Qed.

Lemma merged_quotas_present k :
  k ∈ requested -> is_Some (dict_get k merged_quotas).
Proof.
  intros Hk. unfold merged_quotas.
  rewrite dict_get_merged_limits by apply NoDup_user_quotas.
  destruct (quotas_present k Hk) as [q ->].
  by destruct (user_quotas_present k Hk) as [uq ->].
Qed.

Lemma merged_values_requested k :
  k ∈ dict_keys merged_values -> k ∈ requested.
Proof.
  unfold merged_values. rewrite dict_keys_keyed, list_fmap_id.
  rewrite elem_of_elements, requested_iff. unfold keys_to_merge.
  rewrite elem_of_union, !elem_of_difference, !elem_of_list_to_set. tauto.
Qed.

Lemma lcpu_merged_check_run st :
  wp (lcpu_merged_check quotas user_quotas merged_values) st
    (fun r _ =>
       r = if decide (merged_overs = []) then Ok tt
           else Raise (OverQuota (sorted merged_overs) merged_quotas []
                         (limits_dict merged_quotas merged_overs))).
Proof.
  unfold lcpu_merged_check. fold merged_quotas.
  destruct (dict_truthy merged_values) eqn:Htruthy.
  - apply wp_bind.
    eapply wp_mono; [apply lcpu_merged_overs_loop|].
    intros [overs|e] st1 [-> Hr].
    + subst overs. fold merged_overs.
      destruct merged_overs as [|o os] eqn:Hovers; [by apply wp_ret|].
      cbn [list_truthy]. rewrite decide_False by done.
      apply wp_bind.
      eapply wp_mono; [apply lcpu_headroom_loop|].
      intros [headroom|e] st2 [-> Hh].
      * subst headroom. by apply wp_raise.
      * destruct Hh as (k & -> & Hk & Hnone). exfalso.
        assert (Hreq : k ∈ requested).
        { apply merged_values_requested. rewrite <- Hovers in Hk.
          subst merged_overs. unfold dict_keys.
          apply list_elem_of_fmap in Hk as (kv & -> & Hkv).
          apply list_elem_of_filter in Hkv as [_ Hkv].
          apply list_elem_of_fmap. by exists kv. }
        destruct (merged_quotas_present k Hreq). congruence.
    + destruct Hr as (k & -> & Hk & Hnone). exfalso.
      destruct (merged_quotas_present k (merged_values_requested k Hk)).
      congruence.
  - apply wp_ret. apply list_truthy_false in Htruthy.
    subst merged_overs. rewrite Htruthy. done.
Qed.

Lemma both_present :
  Forall (fun key => is_Some (dict_get key quotas) /\
                     is_Some (dict_get key user_quotas) /\
                     is_Some (dict_get key pv') /\
                     is_Some (dict_get key uv')) (dict_keys uv').
Proof.
  apply Forall_forall. intros k Hk.
  assert (Hboth : k ∈ dict_keys user_values /\ k ∈ dict_keys project_values).
  { unfold dict_keys at 1 in Hk.
    apply list_elem_of_fmap in Hk as ([k' v] & -> & Hkv).
    apply list_elem_of_filter in Hkv as [Hp Hu]. split; [|done].
    apply list_elem_of_fmap. by exists (k', v). }
  destruct Hboth as [Hu Hp].
  assert (Hreq : k ∈ requested) by (apply requested_iff; by left).
  split; [by apply quotas_present|]. split; [by apply user_quotas_present|].
  unfold pv', uv'.
  pose proof (dict_get_filter_keys (fun k => k ∈ dict_keys user_values)
                project_values k) as H1.
  pose proof (dict_get_filter_keys (fun k => k ∈ dict_keys project_values)
                user_values k) as H2.
  cbv beta in H1, H2. rewrite H1, H2, !decide_True by done.
  split; by apply dict_get_is_Some.
Qed.

Lemma lcpu_scoped_check_run st :
  wp (lcpu_scoped_check quotas user_quotas pv' uv') st
    (fun r _ =>
       r = if decide (both_overs = []) then Ok tt
           else Raise (OverQuota (sorted both_overs) quotas_exceeded []
                         (limits_dict quotas_exceeded both_overs))).
Proof.
  unfold lcpu_scoped_check. apply wp_bind.
  eapply wp_mono; [apply lcpu_scoped_loop, both_present|].
  intros r st1 (-> & ->). fold both_overs. fold quotas_exceeded.
  destruct both_overs as [|o os] eqn:Hovers; [by apply wp_ret|].
  cbn [list_truthy]. rewrite decide_False by done.
  apply wp_bind.
  eapply wp_mono; [apply lcpu_headroom_loop|].
  intros [headroom|e] st2 [-> Hh].
  - subst headroom. by apply wp_raise.
  - destruct Hh as (k & -> & Hk & Hnone). exfalso.
    assert (Hin : k ∈ dict_keys uv').
    { rewrite <- Hovers in Hk. subst both_overs. unfold scoped_overs in Hk.
      by apply list_elem_of_filter in Hk as [_ Hk]. }
    destruct (proj1 (Forall_forall _ _) both_present k Hin)
      as ([q Hq] & [uq Huq] & _).
    subst quotas_exceeded. destruct (over_user_only _ _ _ _ _); congruence.
Qed.

(** The outcome on valid input. *)
Definition lcpu_outcome : result unit :=
  if decide (merged_overs = []) then
    if decide (both_overs = []) then Ok tt
    else Raise (OverQuota (sorted both_overs) quotas_exceeded []
                  (limits_dict quotas_exceeded both_overs))
  else Raise (OverQuota (sorted merged_overs) merged_quotas []
                (limits_dict merged_quotas merged_overs)).

Lemma limit_check_project_and_user_run st :
  exists st',
    DbQuotaDriver.limit_check_project_and_user w context resources
      (Some project_values) (Some user_values) project_id user_id st
    = (lcpu_outcome,
       {| DbQuotaDriver.project_values_after := pv';
          DbQuotaDriver.user_values_after := uv' |}, st').
Proof.
  rewrite limit_check_project_and_user_unfold. cbn [default].
  rewrite lcpu_validation_ok by done.
  rewrite lcpu_merge_spec by apply NoDup_elements.
  rewrite not_merged_project, not_merged_user.
  fold pv' uv' pid uid requested merged_values.
  assert (Hchecks : wp (lcpu_checks w context resources requested
                          merged_values pv' uv' pid uid) st
                      (fun r _ => r = lcpu_outcome)).
  { unfold lcpu_checks. apply wp_bind, wp_call, wp_bind.
    eapply wp_of_eval;
      [by apply eval__get_quotas_known; [|apply requested_length]|].
    intros st1. apply wp_bind.
    eapply wp_of_eval;
      [by apply eval__get_quotas_known; [|apply requested_length]|].
    intros st2. fold (limits_at w context resources requested pid None).
    fold (limits_at w context resources requested pid uid).
    fold quotas user_quotas. apply wp_bind.
    eapply wp_mono; [apply lcpu_merged_check_run|].
    intros r st3 ->. unfold lcpu_outcome.
    destruct (decide (merged_overs = [])); [|done].
    apply lcpu_scoped_check_run. }
  unfold wp in Hchecks.
  destruct (lcpu_checks _ _ _ _ _ _ _ _ _ _) as [r st'].
  exists st'. simpl in Hchecks. by subst r.
Qed.








End LimitCheckProjectAndUserRun.

Lemma nil_iff_no_elem {A} (l : list A) : l = [] <-> forall x, x ∉ l.
Proof.
  split.
  - intros -> x. apply not_elem_of_nil.
  - intros H. destruct l as [|x l]; [done|]. exfalso. apply (H x). left.
Qed.




(** Prove a property of every entry of a concrete list. *)
Ltac each_entry tac :=
  repeat first [apply Forall_nil_2 | apply Forall_cons_2; [tac|]].


(** ** [limit_check_project_and_user] changes its arguments *)

(** C10: once its arguments have passed the validation,
    [limit_check_project_and_user] has removed from [project_values] and
    from [user_values] every key that is in one of them only, so that both
    are left with the keys they share, whether the call then returns or
    raises [OverQuota]; arguments that fail the validation are left as they
    were. A call that returns normally can therefore leave the caller's
    dictionaries without entries they were passed with. *)
Theorem limit_check_project_and_user_pops_unshared_keys
    w context resources project_values user_values project_id user_id st :
  Forall (fun kv => checkable resources kv.1) project_values ->
  Forall (fun kv => checkable resources kv.1) user_values ->
  Forall (fun kv => 0 <= kv.2) project_values ->
  Forall (fun kv => 0 <= kv.2) user_values ->
  project_values <> [] \/ user_values <> [] ->
  exists r args st',
    DbQuotaDriver.limit_check_project_and_user w context resources
      (Some project_values) (Some user_values) project_id user_id st
    = (r, args, st') /\
    DbQuotaDriver.project_values_after args
    = filter (fun kv => kv.1 ∈ dict_keys user_values) project_values /\
    DbQuotaDriver.user_values_after args
    = filter (fun kv => kv.1 ∈ dict_keys project_values) user_values /\
    (forall key,
        key ∈ keys_to_merge project_values user_values ->
        (key ∉ dict_keys (DbQuotaDriver.project_values_after args)) /\
        (key ∉ dict_keys (DbQuotaDriver.user_values_after args))).
Proof.
  intros Hpc Huc Hpn Hun Hsome.
  rewrite limit_check_project_and_user_unfold. cbn [default].
  rewrite lcpu_validation_ok by done.
  rewrite lcpu_merge_spec by apply NoDup_elements.
  rewrite not_merged_project, not_merged_user.
  destruct (lcpu_checks _ _ _ _ _ _ _ _ _ _) as [r st'].
  eexists r, _, st'. split; [reflexivity|]. cbn.
  split; [done|]. split; [done|].
  intros key Hkey. unfold keys_to_merge in Hkey.
  rewrite elem_of_union, !elem_of_difference, !elem_of_list_to_set in Hkey.
  unfold dict_keys in *.
  split; intros Hin; apply list_elem_of_fmap in Hin as ([k v] & -> & Hin);
    apply list_elem_of_filter in Hin as [Hother Hin]; cbn [fst] in *.
  - assert (k ∈ project_values.*1)
      by (apply list_elem_of_fmap; by exists (k, v)).
    tauto.
  - assert (k ∈ user_values.*1)
      by (apply list_elem_of_fmap; by exists (k, v)).
    tauto.
Qed.

Lemma limit_check_project_and_user_pops_unshared_keys_witness :
  exists r args st',
    DbQuotaDriver.limit_check_project_and_user example_world example_context
      QUOTAS_registry (Some [("instances", 1); ("cores", 3)])
      (Some [("cores", 1); ("ram", 4)]) None None initial_state
    = (r, args, st') /\
    DbQuotaDriver.project_values_after args
    = filter (fun kv => kv.1 ∈ dict_keys [("cores", 1); ("ram", 4)])
        [("instances", 1); ("cores", 3)] /\
    DbQuotaDriver.user_values_after args
    = filter (fun kv => kv.1 ∈ dict_keys [("instances", 1); ("cores", 3)])
        [("cores", 1); ("ram", 4)] /\
    (forall key,
        key ∈ keys_to_merge [("instances", 1); ("cores", 3)]
                [("cores", 1); ("ram", 4)] ->
        (key ∉ dict_keys (DbQuotaDriver.project_values_after args)) /\
        (key ∉ dict_keys (DbQuotaDriver.user_values_after args))).
Proof.
  apply (limit_check_project_and_user_pops_unshared_keys example_world
           example_context QUOTAS_registry [("instances", 1); ("cores", 3)]
           [("cores", 1); ("ram", 4)] None None initial_state).
  - each_entry ltac:(by eexists).
  - each_entry ltac:(by eexists).
  - each_entry ltac:(simpl; lia).
  - each_entry ltac:(simpl; lia).
  - by left.
Defined.

(** A call that returns normally and leaves each dictionary with one entry
    of the two it was passed with. *)
Example limit_check_project_and_user_returns_and_pops :
  exists st',
    DbQuotaDriver.limit_check_project_and_user example_world example_context
      QUOTAS_registry (Some [("instances", 1); ("cores", 3)])
      (Some [("cores", 1); ("ram", 4)]) None None initial_state
    = (Ok tt,
       {| DbQuotaDriver.project_values_after := [("cores", 3)];
          DbQuotaDriver.user_values_after := [("cores", 1)] |}, st').
Proof. eexists. vm_compute. reflexivity. Qed.

(** Arguments that fail the validation are not touched. *)
Lemma limit_check_project_and_user_invalid_untouched
    w context resources project_values user_values project_id user_id
    st e st' :
  lcpu_validation resources project_values user_values st = (Raise e, st') ->
  DbQuotaDriver.limit_check_project_and_user w context resources
    (Some project_values) (Some user_values) project_id user_id st
  = (Raise e,
     {| DbQuotaDriver.project_values_after := project_values;
        DbQuotaDriver.user_values_after := user_values |}, st').
Proof.
  intros Hval. rewrite limit_check_project_and_user_unfold.
  unfold default. cbn [from_option id]. by rewrite Hval.
Qed.

(** ** Construction of the registry *)

Lemma registry_of_snoc resources r :
  registry_of (resources ++ [r])
  = dict_set (resource_name r) r (registry_of resources).
Proof. unfold registry_of. by rewrite fold_left_app. Qed.

(** The registry files under a name the last resource of that name. *)
Lemma dict_get_registry_of resources n :
  dict_get n (registry_of resources)
  = last (filter (fun r => resource_name r = n) resources).
Proof.
  induction resources as [|r resources IH] using rev_ind; [done|].
  rewrite registry_of_snoc, dict_get_set, filter_app, filter_cons, filter_nil.
  destruct (decide (resource_name r = n)) as [Hn|Hn].
  - by rewrite last_snoc.
  - by rewrite app_nil_r.
Qed.

(** C9, where the code differs: given two descriptors named ["instances"],
    the constructor returns, and the registry holds the second one only. *)
Lemma QuotaEngine_init_accepts_duplicate_names :
  QuotaEngine.__init__ None
    (Some [AbsoluteResource "instances" (Some "instances");
           AbsoluteResource "instances" (Some "cores")]) initial_state
  = (Ok {| QuotaEngine._resources :=
             [("instances", AbsoluteResource "instances" (Some "cores"))];
           QuotaEngine.__driver_override := None;
           QuotaEngine.__driver := None;
           QuotaEngine.__driver_name := None |},
     initial_state).
Proof. reflexivity. Qed.

(** C9, as the code has it: the constructor of [QuotaEngine] never raises,
    whatever the names of the resources it is given; its registry has one
    entry per name, and under a name borne by several resources it holds the
    one registered last. *)
Theorem QuotaEngine_init_last_registration_wins
    (quota_driver : option QuotaEngine.Driver)
    (resources : option (list Resource)) (st : ProcState) :
  exists engine,
    QuotaEngine.__init__ quota_driver resources st = (Ok engine, st) /\
    NoDup (dict_keys (QuotaEngine._resources engine)) /\
    forall n,
      dict_get n (QuotaEngine._resources engine)
      = last (filter (fun r => resource_name r = n) (default [] resources)).
Proof.
  eexists. split; [reflexivity|]. cbn [QuotaEngine._resources].
  fold (registry_of (default [] resources)).
  split; [apply registry_of_wf | apply dict_get_registry_of].
Qed.

(** ** Names that are not registered *)

(** C7: the limit checks do not raise the error their docstrings announce
    for an unknown resource. Given the one name ["bogus"], which is not
    registered, [limit_check] and [limit_check_project_and_user] raise
    [InvalidQuotaMethodUsage], while [_get_quotas], which they would call
    next, raises [QuotaResourceUnknown] with that name. In each case
    nothing has been looked up or counted. *)
Lemma limit_check_unknown_name_is_invalid_usage :
  dict_get "bogus" QUOTAS_registry = None /\
  DbQuotaDriver.limit_check example_world example_context QUOTAS_registry
    [("bogus", 1)] None None initial_state
  = (Raise (InvalidQuotaMethodUsage "check" "bogus"), initial_state) /\
  DbQuotaDriver.limit_check_project_and_user example_world example_context
    QUOTAS_registry (Some [("bogus", 1)]) None None None initial_state
  = (Raise (InvalidQuotaMethodUsage "check" "bogus"),
     {| DbQuotaDriver.project_values_after := [("bogus", 1)];
        DbQuotaDriver.user_values_after := [] |},
     initial_state) /\
  DbQuotaDriver._get_quotas example_world example_context QUOTAS_registry
    ["bogus"] None None None initial_state
  = (Raise (QuotaResourceUnknown ["bogus"]), initial_state).
Proof. vm_compute. repeat split. Qed.

Lemma _get_quotas_unknown w context resources keys project_id user_id
    project_quotas st k :
  NoDup (dict_keys resources) -> k ∈ keys -> k ∉ dict_keys resources ->
  DbQuotaDriver._get_quotas w context resources keys project_id user_id
    project_quotas st
  = (Raise (QuotaResourceUnknown
              (sorted (elements
                         ((list_to_set keys : gset string)
                            ∖ list_to_set
                                (dict_keys (sub_resources resources keys)))))),
     st).
Proof.
  intros Hnd Hk Hunknown. unfold DbQuotaDriver._get_quotas.
  fold (sub_resources resources keys).
  by rewrite decide_True by by eapply sub_resources_length_unknown.
Qed.

Lemma unknown_names resources keys x :
  x ∈ sorted (elements
                ((list_to_set keys : gset string)
                   ∖ list_to_set (dict_keys (sub_resources resources keys))))
  <-> x ∈ keys /\ x ∉ dict_keys resources.
Proof.
  rewrite elem_of_sorted, elem_of_elements, elem_of_difference.
  rewrite !elem_of_list_to_set, elem_of_sub_resources_keys. tauto.
Qed.

Lemma lcpu_validation_unknown_project resources
    (project_values user_values : dict Z) pre k v post st :
  project_values = pre ++ (k, v) :: post ->
  Forall (fun kv => checkable resources kv.1) pre ->
  dict_get k resources = None ->
  lcpu_validation resources project_values user_values st
  = (Raise (InvalidQuotaMethodUsage "check" k), st).
Proof.
  intros Hpv Hpre Hk. unfold lcpu_validation. unfold bind at 1.
  by rewrite (_valid_method_call_check_resources_unknown _ _ pre k v post).
Qed.

Lemma lcpu_validation_unknown_user resources
    (project_values user_values : dict Z) pre k v post st :
  Forall (fun kv => checkable resources kv.1) project_values ->
  user_values = pre ++ (k, v) :: post ->
  Forall (fun kv => checkable resources kv.1) pre ->
  dict_get k resources = None ->
  lcpu_validation resources project_values user_values st
  = (Raise (InvalidQuotaMethodUsage "check" k), st).
Proof.
  intros Hpc Huv Hpre Hk. unfold lcpu_validation. unfold bind at 1.
  rewrite _valid_method_call_check_resources_ok by done.
  unfold bind at 1.
  by rewrite (_valid_method_call_check_resources_unknown _ _ pre k v post).
Qed.

(** X22: [_get_quotas] rejects names that are not in the registry before
    any quota is looked up and before any usage is counted (the state,
    which records every such call, is unchanged): it raises
    [QuotaResourceUnknown] with exactly the unknown names, sorted and
    without repetition. [QuotaEngine.count_as_dict] raises it with the one
    name it was given. *)
Theorem unknown_resources_are_reported_before_any_lookup :
  (forall w context resources keys project_id user_id project_quotas st k,
      NoDup (dict_keys resources) -> k ∈ keys -> k ∉ dict_keys resources ->
      exists unknown,
        DbQuotaDriver._get_quotas w context resources keys project_id user_id
          project_quotas st
        = (Raise (QuotaResourceUnknown unknown), st) /\
        StronglySorted String.le unknown /\ NoDup unknown /\
        forall x, x ∈ unknown <-> x ∈ keys /\ x ∉ dict_keys resources) /\
  (forall w self context resource args st,
      dict_get resource (QuotaEngine._resources self) = None ->
      QuotaEngine.count_as_dict w self context resource args st
      = (Raise (QuotaResourceUnknown [resource]), st)).
Proof.
  split.
  - intros w context resources keys project_id user_id project_quotas st k
      Hnd Hk Hunknown.
    eexists. split; [by eapply _get_quotas_unknown|].
    split; [apply sorted_StronglySorted|].
    split; [|apply unknown_names].
    rewrite sorted_Permutation. apply NoDup_elements.
  - intros w self context resource args st Hnone.
    unfold QuotaEngine.count_as_dict. by rewrite Hnone.
Qed.

Lemma unknown_resources_are_reported_before_any_lookup_witness :
  (exists unknown,
      DbQuotaDriver._get_quotas example_world example_context QUOTAS_registry
        ["zebra"; "cores"; "bogus"] None None None initial_state
      = (Raise (QuotaResourceUnknown unknown), initial_state) /\
      StronglySorted String.le unknown /\ NoDup unknown /\
      forall x,
        x ∈ unknown <->
        x ∈ ["zebra"; "cores"; "bogus"] /\ x ∉ dict_keys QUOTAS_registry) /\
  QuotaEngine.count_as_dict example_world
    {| QuotaEngine._resources := QUOTAS_registry;
       QuotaEngine.__driver_override := None;
       QuotaEngine.__driver := None;
       QuotaEngine.__driver_name := None |}
    example_context "bogus" (QuotaEngine.ArgsProject (Some "p") None)
    initial_state
  = (Raise (QuotaResourceUnknown ["bogus"]), initial_state).
Proof.
  destruct unknown_resources_are_reported_before_any_lookup
    as (Hget & Hcount).
  split.
  - apply (Hget example_world example_context QUOTAS_registry
             ["zebra"; "cores"; "bogus"] None None None initial_state "bogus").
    + apply registry_of_wf.
    + apply (bool_decide_unpack _). vm_compute. exact I.
    + apply (bool_decide_unpack _). vm_compute. exact I.
  - by apply Hcount.
Defined.

(** The limit checks stop in their validation, at the first name that is
    not registered, with [InvalidQuotaMethodUsage] for the method [check];
    nothing has been looked up, and the dictionaries of the caller are as
    they were. *)
Lemma limit_checks_stop_at_the_first_unregistered_name :
  (forall w context resources (values : dict Z) project_id user_id st
          pre k v post,
      values = pre ++ (k, v) :: post ->
      Forall (fun kv => checkable resources kv.1) pre ->
      dict_get k resources = None ->
      DbQuotaDriver.limit_check w context resources values project_id user_id
        st
      = (Raise (InvalidQuotaMethodUsage "check" k), st)) /\
  (forall w context resources (project_values user_values : dict Z)
          project_id user_id st pre k v post,
      (project_values = pre ++ (k, v) :: post \/
       (Forall (fun kv => checkable resources kv.1) project_values /\
        user_values = pre ++ (k, v) :: post)) ->
      Forall (fun kv => checkable resources kv.1) pre ->
      dict_get k resources = None ->
      DbQuotaDriver.limit_check_project_and_user w context resources
        (Some project_values) (Some user_values) project_id user_id st
      = (Raise (InvalidQuotaMethodUsage "check" k),
         {| DbQuotaDriver.project_values_after := project_values;
            DbQuotaDriver.user_values_after := user_values |}, st)).
Proof.
  split.
  - intros w context resources values project_id user_id st pre k v post
      Hvalues Hpre Hk.
    unfold DbQuotaDriver.limit_check. unfold bind at 1.
    by rewrite (_valid_method_call_check_resources_unknown _ _ pre k v post).
  - intros w context resources project_values user_values project_id user_id
      st pre k v post Hwhere Hpre Hk.
    apply limit_check_project_and_user_invalid_untouched.
    destruct Hwhere as [Hpv|[Hpc Huv]].
    + by eapply lcpu_validation_unknown_project.
    + by eapply lcpu_validation_unknown_user.
Qed.

(** ** Counting across cells *)

(** The three names [InstanceList.get_counts] counts. *)
Definition counted_names : list string := ["instances"; "cores"; "ram"].

(** A dictionary of counts as [InstanceList.get_counts] returns it for one
    scope: distinct names among the three. *)
Definition counts_ok (counts : option (dict Z)) : Prop :=
  exists d, counts = Some d /\ NoDup (dict_keys d) /\
            forall k, k ∈ dict_keys d -> k ∈ counted_names.

(** A cell either failed or answered with counts for the project and, when
    a user is given, for the user. *)
Definition cell_ok (user_id : option string) (r : CellResult CountDict) : Prop :=
  match r with
  | CellFailure => True
  | CellValue c =>
      counts_ok (count_project c) /\
      (truthy user_id = true -> counts_ok (count_user c))
  end.

(** What a cell contributes to the total of [name] at one scope: its count,
    and nothing if it failed. *)
Definition cell_count (scope : CountDict -> option (dict Z)) (name : string)
    (r : CellResult CountDict) : Z :=
  match r with
  | CellFailure => 0
  | CellValue c => default 0 (dict_get name (default [] (scope c)))
  end.

Definition cells_total (scope : CountDict -> option (dict Z)) (name : string)
    (results : list (CellResult CountDict)) : Z :=
  foldr Z.add 0 (cell_count scope name <$> results).

Definition totals (scope : CountDict -> option (dict Z))
    (results : list (CellResult CountDict)) : dict Z :=
  [("instances", cells_total scope "instances" results);
   ("cores", cells_total scope "cores" results);
   ("ram", cells_total scope "ram" results)].

(** The answers of the cells that did not fail. *)
Definition responding (results : list (CellResult CountDict)) : list CountDict :=
  omap (fun r => match r with
                 | CellValue c => Some c
                 | CellFailure => None
                 end) results.

(** The sum of the counts of [name] over the answers [cs]. *)
Definition sum_counts (scope : CountDict -> option (dict Z)) (name : string)
    (cs : list CountDict) : Z :=
  foldr Z.add 0
    ((fun c => default 0 (dict_get name (default [] (scope c)))) <$> cs).

Definition sums (scope : CountDict -> option (dict Z)) (cs : list CountDict)
    : dict Z :=
  [("instances", sum_counts scope "instances" cs);
   ("cores", sum_counts scope "cores" cs);
   ("ram", sum_counts scope "ram" cs)].

(** What [scatter_gather_cells] hands to the legacy count, cell by cell. *)
Definition legacy_cell_results (w : World) (project_id user_id : option string)
    : list (CellResult CountDict) :=
  (scatter_gather_get_counts w
     (if CONF_api_instance_list_per_project_cells w
      then CellMappingList_get_by_project_id w project_id
      else CELLS w)
     project_id user_id).*2.

Lemma cells_total_snoc scope name results r :
  cells_total scope name (results ++ [r])
  = cells_total scope name results + cell_count scope name r.
Proof.
  unfold cells_total. rewrite fmap_app, foldr_app. simpl.
  generalize (cell_count scope name <$> results). intros l.
  induction l as [|x l IH]; simpl; lia.
Qed.

(** Failed cells can be left out of the sum. *)
Lemma cells_total_responding scope name results :
  cells_total scope name results = sum_counts scope name (responding results).
Proof.
  unfold cells_total, sum_counts, responding.
  induction results as [|r results IH]; [done|].
  destruct r as [c|]; simpl; [f_equal|]; apply IH.
Qed.

Lemma totals_responding scope results :
  totals scope results = sums scope (responding results).
Proof. unfold totals, sums. by rewrite !cells_total_responding. Qed.

(** One [total[resource] += count] on a dictionary of the three names. *)
Lemma add_counts_step (k : string) (v a b c : Z) st :
  k ∈ counted_names ->
  (cur <- getitem k [("instances", a); ("cores", b); ("ram", c)] ;;
   ret (dict_set k (cur + v) [("instances", a); ("cores", b); ("ram", c)])) st
  = (Ok [("instances", if decide (k = "instances") then a + v else a);
         ("cores", if decide (k = "cores") then b + v else b);
         ("ram", if decide (k = "ram") then c + v else c)], st).
Proof.
  unfold counted_names. rewrite !elem_of_cons.
  intros [->|[->|[->|Hnil]]]; [| | |by apply elem_of_nil in Hnil];
    reflexivity.
Qed.

Lemma add_counts_run (counts : dict Z) (a b c : Z) st :
  NoDup (dict_keys counts) ->
  (forall k, k ∈ dict_keys counts -> k ∈ counted_names) ->
  add_counts counts [("instances", a); ("cores", b); ("ram", c)] st
  = (Ok [("instances", a + default 0 (dict_get "instances" counts));
         ("cores", b + default 0 (dict_get "cores" counts));
         ("ram", c + default 0 (dict_get "ram" counts))], st).
Proof.
  unfold add_counts, dict_keys. revert a b c.
  induction counts as [|[k v] counts IH]; intros a b c Hnd Hnames.
  - simpl. unfold ret. by rewrite !Z.add_0_r.
  - rewrite fmap_cons in Hnd. apply NoDup_cons in Hnd as [Hk Hnd].
    assert (Hknown : k ∈ counted_names) by (apply Hnames; left).
    assert (Hnone : dict_get k counts = None) by by apply dict_get_None.
    assert (Hrest : forall k', k' ∈ counts.*1 -> k' ∈ counted_names).
    { intros k' Hk'. apply Hnames. by right. }
    cbn [for_each fst snd]. unfold bind at 1. cbn [fst snd].
    rewrite (add_counts_step k v a b c st Hknown).
    rewrite IH by done. cbn [dict_get].
    do 2 f_equal.
    repeat case_decide; subst; rewrite ?Hnone; cbn [default from_option id];
      repeat first [lia | done | f_equal].
Qed.

Lemma totals_snoc_failure scope results :
  totals scope (results ++ [CellFailure]) = totals scope results.
Proof.
  unfold totals. rewrite !cells_total_snoc. simpl. by rewrite !Z.add_0_r.
Qed.

Lemma add_counts_totals scope results c d st :
  scope c = Some d ->
  NoDup (dict_keys d) ->
  (forall k, k ∈ dict_keys d -> k ∈ counted_names) ->
  add_counts d (totals scope results) st
  = (Ok (totals scope (results ++ [CellValue c])), st).
Proof.
  intros Hd Hnd Hnames. unfold totals at 1.
  rewrite add_counts_run by done.
  unfold totals. rewrite !cells_total_snoc. simpl. by rewrite Hd.
Qed.

(** C8: whatever the cells hold, as long as every cell that did not fail
    answered with counts of instances, cores and ram (for the project, and
    for the user when one is given), [_instances_cores_ram_count_legacy]
    returns, after its one scatter/gather call, the sums over the cells that
    answered; it does not raise, and a failed cell adds nothing to any
    total. *)
Theorem legacy_count_skips_failed_cells w context project_id user_id st :
  Forall (cell_ok user_id) (legacy_cell_results w project_id user_id) ->
  _instances_cores_ram_count_legacy w context project_id user_id st
  = (Ok {| count_project :=
             Some (sums count_project
                     (responding (legacy_cell_results w project_id user_id)));
           count_user :=
             if truthy user_id
             then Some (sums count_user
                          (responding
                             (legacy_cell_results w project_id user_id)))
             else None |},
     add_calls [Call_scatter_gather_cells project_id user_id] st).
Proof.
  intros Hcells. unfold _instances_cores_ram_count_legacy.
  fold (legacy_cell_results w project_id user_id).
  set (results := legacy_cell_results w project_id user_id) in *.
  unfold bind at 1. unfold call at 1.
  fold (add_calls [Call_scatter_gather_cells project_id user_id] st).
  set (st1 := add_calls _ st).
  match goal with
  | |- ?m st1 = _ => assert (Hwp : wp m st1 (fun r st' =>
         r = Ok {| count_project := Some (totals count_project results);
                   count_user :=
                     if truthy user_id
                     then Some (totals count_user results)
                     else None |} /\ st' = st1))
  end.
  { apply wp_for_each with
      (I := fun pre acc st' =>
              acc = {| count_project := Some (totals count_project pre);
                       count_user :=
                         if truthy user_id
                         then Some (totals count_user pre)
                         else None |} /\ st' = st1).
    - done.
    - intros pre x post acc st' Hxs [-> ->].
      assert (Hx : cell_ok user_id x).
      { apply (proj1 (Forall_forall _ _) Hcells). rewrite Hxs.
        apply elem_of_app. right. left. }
      destruct x as [c|]; cbn [is_cell_failure_sentinel negb].
      + destruct Hx as [(d & Hd & Hnd & Hnames) Huser].
        rewrite Hd. cbn [count_project count_user].
        unfold wp, bind, ret.
        rewrite (add_counts_totals count_project pre c d st1 Hd Hnd Hnames).
        destruct (truthy user_id) eqn:Htruthy.
        * destruct (Huser eq_refl) as (du & Hdu & Hndu & Hnamesu).
          rewrite Hdu.
          rewrite (add_counts_totals count_user pre c du st1 Hdu Hndu Hnamesu).
          done.
        * done.
      + unfold wp, ret. cbn [fst snd]. by rewrite !totals_snoc_failure.
    - by intros acc st' [-> ->]. }
  unfold wp in Hwp. destruct Hwp as [Hr Hst].
  rewrite <- !totals_responding.
  match goal with
  | |- ?m st1 = _ => destruct (m st1) as [r st']
  end.
  simpl in Hr, Hst. by subst.
Qed.

(** Three cells, the second of which failed: the counts are those of the
    first and the third. *)
Lemma legacy_count_skips_failed_cells_witness :
  CellFailure ∈ legacy_cell_results example_world (Some "p") (Some "u") /\
  _instances_cores_ram_count_legacy example_world example_context
    (Some "p") (Some "u") initial_state
  = (Ok {| count_project :=
             Some [("instances", 2); ("cores", 18); ("ram", 1024)];
           count_user :=
             Some [("instances", 2); ("cores", 3); ("ram", 1024)] |},
     add_calls [Call_scatter_gather_cells (Some "p") (Some "u")]
       initial_state).
Proof.
  split.
  - right. left.
  - apply (legacy_count_skips_failed_cells example_world example_context
             (Some "p") (Some "u") initial_state).
    each_entry ltac:(first
      [ exact I
      | split; [|intros _];
        (eexists; split; [reflexivity|]; split;
         [apply (bool_decide_unpack _); vm_compute; exact I
         |intros k Hk; apply (bool_decide_unpack _);
          revert k Hk; apply Forall_forall;
          each_entry ltac:(vm_compute; exact I)]) ]).
Defined.

(** ** The migration gate *)

(** What the existence query of [_user_id_queued_for_delete_populated]
    answers in the world [w]: whether no unmigrated mapping is left (in the
    project, when one is given). *)
Definition db_populated (w : World) (project_id : option string) : bool :=
  let query :=
    filter (fun m => unmigrated_filter m = true) (instance_mappings w) in
  negb (list_truthy
          match project_id with
          | Some p =>
              if truthy (Some p) then filter (fun m => im_project_id m = p) query
              else query
          | None => query
          end).

(** The gate is open for a project when the global flag is set or the
    project is in the per-project cache. *)
Definition gate_open (st : ProcState) (project_id : option string) : Prop :=
  UID_QFD_POPULATED_CACHE_ALL st = true \/
  project_id ∈ UID_QFD_POPULATED_CACHE_BY_PROJECT st.

(** [st'] has cached at least what [st] has. *)
Definition gate_le (st st' : ProcState) : Prop :=
  (UID_QFD_POPULATED_CACHE_ALL st = true ->
   UID_QFD_POPULATED_CACHE_ALL st' = true) /\
  UID_QFD_POPULATED_CACHE_BY_PROJECT st
    ⊆ UID_QFD_POPULATED_CACHE_BY_PROJECT st'.

(** [m] never takes anything out of the caches. *)
Definition gate_mono {A} (m : M A) : Prop :=
  forall st, gate_le st (m st).2.

(** The engine that [QUOTAS] evaluates to. *)
Definition QUOTAS_engine : QuotaEngine.t :=
  {| QuotaEngine._resources := QUOTAS_registry;
     QuotaEngine.__driver_override := None;
     QuotaEngine.__driver := None;
     QuotaEngine.__driver_name := None |}.

(** One call into the module during the life of the process, in any world,
    that runs from its start to its end with no other call in between: the
    functions that consult the gate, a count through [QUOTAS], or any
    computation that only records calls (the driver's limit checks and
    quota retrievals without usages are of this kind). *)
Inductive process_step : ProcState -> ProcState -> Prop :=
| step_is_qfd_populated w context st :
    process_step st (is_qfd_populated w context st).2
| step__instances_cores_ram_count w context project_id user_id st :
    process_step st
      (_instances_cores_ram_count w context project_id user_id st).2
| step__server_group_count_members_by_user w context group user_id st :
    process_step st
      (_server_group_count_members_by_user w context group user_id st).2
| step_count_as_dict w context resource args st :
    process_step st
      (QuotaEngine.count_as_dict w QUOTAS_engine context resource args st).2
| step_log_only {A} (m : M A) st :
    log_only m -> process_step st (m st).2.

(** Any number of calls, one after the other. *)
Definition process_run : ProcState -> ProcState -> Prop := rtc process_step.

Lemma QUOTAS_run st : QUOTAS st = (Ok QUOTAS_engine, st).
Proof. reflexivity. Qed.

Lemma gate_le_refl st : gate_le st st.
Proof. by split. Qed.

Lemma gate_le_trans st1 st2 st3 :
  gate_le st1 st2 -> gate_le st2 st3 -> gate_le st1 st3.
Proof.
  intros [Ha1 Hp1] [Ha2 Hp2]. split; [auto|]. by transitivity
    (UID_QFD_POPULATED_CACHE_BY_PROJECT st2).
Qed.

Lemma gate_le_open st st' project_id :
  gate_le st st' -> gate_open st project_id -> gate_open st' project_id.
Proof.
  intros [Ha Hp] [Hall|Hin]; [left; auto|right]. by apply Hp.
Qed.

Lemma gate_mono_log_only {A} (m : M A) : log_only m -> gate_mono m.
Proof.
  intros Hm st. destruct (log_only_globals m st Hm) as [Ha Hp].
  split; [by rewrite Ha|by rewrite Hp].
Qed.

Lemma gate_mono_bind {A B} (m : M A) (f : A -> M B) :
  gate_mono m -> (forall a, gate_mono (f a)) -> gate_mono (bind m f).
Proof.
  intros Hm Hf st. unfold bind. specialize (Hm st).
  destruct (m st) as [[a|e] st1]; [|done].
  eapply gate_le_trans; [exact Hm|apply Hf].
Qed.

Lemma _user_id_queued_for_delete_populated_run w context project_id st :
  _user_id_queued_for_delete_populated w context project_id st
  = (Ok (db_populated w project_id),
     add_calls [Call_exists_query project_id] st).
Proof. reflexivity. Qed.

Lemma log_only__user_id_queued_for_delete_populated w context project_id :
  log_only (_user_id_queued_for_delete_populated w context project_id).
Proof.
  eexists _, _. intros st.
  apply _user_id_queued_for_delete_populated_run.
Qed.

(** The two ways [is_qfd_populated] runs: on a set flag it answers from the
    flag; otherwise it asks the database once and stores the answer. *)
Lemma is_qfd_populated_cached w context st :
  UID_QFD_POPULATED_CACHE_ALL st = true ->
  is_qfd_populated w context st = (Ok true, st).
Proof.
  intros Hall. unfold is_qfd_populated, bind, get_state. rewrite Hall.
  simpl. by rewrite Hall.
Qed.

Lemma is_qfd_populated_query w context st :
  UID_QFD_POPULATED_CACHE_ALL st = false ->
  is_qfd_populated w context st
  = (Ok (db_populated w None),
     {| UID_QFD_POPULATED_CACHE_BY_PROJECT :=
          UID_QFD_POPULATED_CACHE_BY_PROJECT st;
        UID_QFD_POPULATED_CACHE_ALL := db_populated w None;
        calls := calls st ++ [Call_exists_query None] |}).
Proof.
  intros Hall. unfold is_qfd_populated, bind, get_state. rewrite Hall.
  reflexivity.
Qed.

Lemma gate_mono_is_qfd_populated w context :
  gate_mono (is_qfd_populated w context).
Proof.
  intros st. destruct (UID_QFD_POPULATED_CACHE_ALL st) eqn:Hall.
  - rewrite is_qfd_populated_cached by done. apply gate_le_refl.
  - rewrite is_qfd_populated_query by done. split; [|done].
    simpl. by rewrite Hall.
Qed.

Lemma log_only_add_counts counts total : log_only (add_counts counts total).
Proof. unfold add_counts. log_only_tac. Qed.

Lemma log_only__instances_cores_ram_count_legacy
    w context project_id user_id :
  log_only (_instances_cores_ram_count_legacy w context project_id user_id).
Proof.
  unfold _instances_cores_ram_count_legacy.
  pose proof log_only_add_counts.
  log_only_tac.
Qed.

Lemma log_only__instances_cores_ram_count_api_db_placement
    w context project_id user_id :
  log_only
    (_instances_cores_ram_count_api_db_placement w context project_id user_id).
Proof.
  unfold _instances_cores_ram_count_api_db_placement,
    _cores_ram_count_placement.
  log_only_tac.
Qed.

(** The placement count asks the API database and placement, once each,
    and nothing else. *)
Lemma _instances_cores_ram_count_api_db_placement_calls
    w context project_id user_id st :
  (_instances_cores_ram_count_api_db_placement w context project_id user_id
     st).2
  = add_calls [Call_InstanceMappingList_get_counts project_id user_id;
               Call_get_usages_counts_for_quota project_id user_id] st.
Proof.
  unfold _instances_cores_ram_count_api_db_placement,
    _cores_ram_count_placement, bind, call, ret, raise, add_calls.
  cbn [fst snd].
  destruct (count_project (InstanceMappingList_get_counts w project_id user_id)),
    (count_project (get_usages_counts_for_quota w project_id user_id)),
    (count_user (InstanceMappingList_get_counts w project_id user_id)),
    (count_user (get_usages_counts_for_quota w project_id user_id));
    cbn [snd calls UID_QFD_POPULATED_CACHE_ALL
           UID_QFD_POPULATED_CACHE_BY_PROJECT];
    by rewrite <- app_assoc.
Qed.

(** With the gate open, [_instances_cores_ram_count] is the placement
    count. *)
Lemma _instances_cores_ram_count_open w context project_id user_id st :
  CONF_quota_count_usage_from_placement w = true ->
  gate_open st project_id ->
  _instances_cores_ram_count w context project_id user_id st
  = _instances_cores_ram_count_api_db_placement w context project_id user_id
      st.
Proof.
  intros Hconf Hopen. unfold _instances_cores_ram_count. rewrite Hconf.
  unfold bind at 1. unfold get_state at 1.
  assert (Hgate : negb (UID_QFD_POPULATED_CACHE_ALL st) &&
                  bool_decide
                    (project_id ∉ UID_QFD_POPULATED_CACHE_BY_PROJECT st)
                  = false).
  { destruct Hopen as [Hall|Hin]; [by rewrite Hall|].
    rewrite bool_decide_eq_false_2 by auto. apply andb_false_r. }
  rewrite Hgate. reflexivity.
Qed.

(** With the gate closed, it asks the database about the project; a
    positive answer puts the project into the cache. *)
Lemma _instances_cores_ram_count_closed w context project_id user_id st :
  CONF_quota_count_usage_from_placement w = true ->
  UID_QFD_POPULATED_CACHE_ALL st = false ->
  project_id ∉ UID_QFD_POPULATED_CACHE_BY_PROJECT st ->
  _instances_cores_ram_count w context project_id user_id st
  = if db_populated w project_id
    then _instances_cores_ram_count_api_db_placement w context project_id
           user_id
           {| UID_QFD_POPULATED_CACHE_BY_PROJECT :=
                {[ project_id ]} ∪ UID_QFD_POPULATED_CACHE_BY_PROJECT st;
              UID_QFD_POPULATED_CACHE_ALL := false;
              calls := calls st ++ [Call_exists_query project_id] |}
    else (call (LOG_warning
            "Falling back to legacy quota counting method for instances, cores, and ram") ;;;
          _instances_cores_ram_count_legacy w context project_id user_id)
           (add_calls [Call_exists_query project_id] st).
Proof.
  intros Hconf Hall Hin. unfold _instances_cores_ram_count. rewrite Hconf.
  unfold bind at 1. unfold get_state at 1. rewrite Hall.
  rewrite bool_decide_eq_true_2 by done. cbn [negb andb].
  unfold bind at 1. unfold bind at 1.
  rewrite _user_id_queued_for_delete_populated_run.
  destruct (db_populated w project_id); [|reflexivity].
  unfold bind at 1. unfold add_UID_QFD_POPULATED_CACHE_BY_PROJECT at 1.
  unfold add_calls. cbn [UID_QFD_POPULATED_CACHE_ALL
                           UID_QFD_POPULATED_CACHE_BY_PROJECT calls].
  rewrite Hall. reflexivity.
Qed.

Lemma gate_mono__instances_cores_ram_count w context project_id user_id :
  gate_mono (_instances_cores_ram_count w context project_id user_id).
Proof.
  intros st.
  destruct (CONF_quota_count_usage_from_placement w) eqn:Hconf.
  - destruct (decide (gate_open st project_id)) as [Hopen|Hclosed].
    + rewrite _instances_cores_ram_count_open by done.
      apply gate_mono_log_only,
        log_only__instances_cores_ram_count_api_db_placement.
    + assert (Hall : UID_QFD_POPULATED_CACHE_ALL st = false).
      { destruct (UID_QFD_POPULATED_CACHE_ALL st) eqn:Hall; [|done].
        destruct Hclosed. by left. }
      assert (Hin : project_id ∉ UID_QFD_POPULATED_CACHE_BY_PROJECT st).
      { intros Hin. destruct Hclosed. by right. }
      rewrite _instances_cores_ram_count_closed by done.
      destruct (db_populated w project_id).
      * eapply gate_le_trans;
          [|apply gate_mono_log_only,
              log_only__instances_cores_ram_count_api_db_placement].
        split; [simpl; congruence|]. simpl. apply union_subseteq_r.
      * eapply gate_le_trans;
          [|apply gate_mono_log_only, log_only_bind;
            [apply log_only_call
            |intros _; apply log_only__instances_cores_ram_count_legacy]].
        by split.
  - unfold _instances_cores_ram_count. rewrite Hconf.
    apply gate_mono_log_only, log_only__instances_cores_ram_count_legacy.
Qed.

Lemma log_only__server_group_count_members_by_user_legacy
    w context group user_id :
  log_only
    (_server_group_count_members_by_user_legacy w context group user_id).
Proof. unfold _server_group_count_members_by_user_legacy. log_only_tac. Qed.

Lemma gate_mono__server_group_count_members_by_user
    w context group user_id :
  gate_mono (_server_group_count_members_by_user w context group user_id).
Proof.
  unfold _server_group_count_members_by_user.
  apply gate_mono_bind; [apply gate_mono_is_qfd_populated|].
  intros populated. apply gate_mono_log_only.
  pose proof log_only__server_group_count_members_by_user_legacy.
  log_only_tac.
Qed.

Lemma gate_mono_count_as_dict w context resource args :
  gate_mono (QuotaEngine.count_as_dict w QUOTAS_engine context resource args).
Proof.
  unfold QuotaEngine.count_as_dict.
  destruct (dict_get resource (QuotaEngine._resources QUOTAS_engine))
    as [r|] eqn:Hr; [|apply gate_mono_log_only, log_only_raise].
  apply dict_get_Some_elem in Hr.
  assert (Hall : Forall
            (fun kr => forall args,
                 gate_mono
                   match kr.2 with
                   | CountableResource _ f _ =>
                       match f, args with
                       | CountByProject f, QuotaEngine.ArgsProject p u =>
                           f w context p u
                       | CountByProject f, QuotaEngine.ArgsUser u =>
                           f w context u None
                       | CountByUser f, QuotaEngine.ArgsUser u => f w context u
                       | CountByUser f,
                         (QuotaEngine.ArgsProject _ _
                         | QuotaEngine.ArgsGroup _ _) =>
                           raise (TypeError
                             "takes 2 positional arguments but 3 were given")
                       | CountByGroup f, QuotaEngine.ArgsGroup g u =>
                           f w context g u
                       | CountByGroup f, QuotaEngine.ArgsProject p u =>
                           f w context (A_project_id p) u
                       | CountByGroup f, QuotaEngine.ArgsUser _ =>
                           raise (TypeError
                             "missing 1 required positional argument: 'user_id'")
                       | CountByProject f, QuotaEngine.ArgsGroup _ _ =>
                           raise (TypeError "count_as_dict")
                       end
                   | _ => raise (QuotaResourceUnknown [resource])
                   end)
            (QuotaEngine._resources QUOTAS_engine)).
  { each_entry ltac:(intros [p u|u|g u]; cbn [snd];
      first [ apply gate_mono__instances_cores_ram_count
            | apply gate_mono__server_group_count_members_by_user
            | apply gate_mono_log_only, log_only_raise
            | apply gate_mono_log_only;
              unfold _keypair_get_count_by_user, _server_group_count;
              log_only_tac ]). }
  apply (proj1 (Forall_forall _ _) Hall (resource, r) Hr).
Qed.

(** A counter by group that is reached with a project id in the place of
    the group runs up to its first use of the group:
    [_server_group_count_members_by_user] consults the gate, which asks the
    database and sets the flag, before [group.members] fails. *)
Lemma count_by_group_with_a_project_id :
  DbQuotaDriver._get_usages example_world example_context
    (registry_of
       [CountableResource "members"
          (CountByGroup _server_group_count_members_by_user) None])
    (Some "p") (Some "u") initial_state
  = (Raise (AttributeError "members"),
     (set_UID_QFD_POPULATED_CACHE_ALL true
        (add_calls [Call_count_as_dict "members" (Some "p") (Some "u");
                    Call_exists_query None] initial_state)).2) /\
  QuotaEngine.count_as_dict example_world QUOTAS_engine example_context
    "server_group_members" (QuotaEngine.ArgsProject (Some "p") (Some "u"))
    initial_state
  = (Raise (AttributeError "members"),
     (set_UID_QFD_POPULATED_CACHE_ALL true
        (add_calls [Call_exists_query None] initial_state)).2).
Proof. split; reflexivity. Qed.

Lemma process_step_gate_le st st' : process_step st st' -> gate_le st st'.
Proof.
  intros Hstep. destruct Hstep.
  - apply gate_mono_is_qfd_populated.
  - apply gate_mono__instances_cores_ram_count.
  - apply gate_mono__server_group_count_members_by_user.
  - apply gate_mono_count_as_dict.
  - by apply gate_mono_log_only.
Qed.

Lemma process_run_gate_le st st' : process_run st st' -> gate_le st st'.
Proof.
  induction 1 as [st|st1 st2 st3 Hstep _ IH]; [apply gate_le_refl|].
  eapply gate_le_trans; [by apply process_step_gate_le|done].
Qed.

Lemma is_qfd_populated_true w context st st' :
  is_qfd_populated w context st = (Ok true, st') ->
  UID_QFD_POPULATED_CACHE_ALL st' = true.
Proof.
  destruct (UID_QFD_POPULATED_CACHE_ALL st) eqn:Hall.
  - rewrite is_qfd_populated_cached by done. by intros [= <-].
  - rewrite is_qfd_populated_query by done. by intros [= -> <-].
Qed.

(** A deployment in which one instance mapping of project ["p"] has not
    been migrated, and usage is counted from placement. *)
Definition unmigrated_world : World :=
  {| CONF_quota := CONF_quota example_world;
     CONF_quota_count_usage_from_placement := true;
     CONF_api_instance_list_per_project_cells := false;
     Quotas_get_default_class := Quotas_get_default_class example_world;
     Quotas_get_all_class_by_name := Quotas_get_all_class_by_name example_world;
     Quotas_get_all := Quotas_get_all example_world;
     Quotas_get_all_by_project := Quotas_get_all_by_project example_world;
     Quotas_get_all_by_project_and_user :=
       Quotas_get_all_by_project_and_user example_world;
     quota_get_per_project_resources :=
       quota_get_per_project_resources example_world;
     instance_mappings :=
       [ {| im_project_id := "p"; im_user_id := None;
            im_queued_for_delete := None |} ];
     InstanceMappingList_get_counts :=
       InstanceMappingList_get_counts example_world;
     InstanceMappingList_get_count_by_uuids_and_user :=
       InstanceMappingList_get_count_by_uuids_and_user example_world;
     get_usages_counts_for_quota := get_usages_counts_for_quota example_world;
     CellMappingList_get_by_project_id :=
       CellMappingList_get_by_project_id example_world;
     CELLS := CELLS example_world;
     scatter_gather_get_counts := scatter_gather_get_counts example_world;
     scatter_gather_group_member_uuids :=
       scatter_gather_group_member_uuids example_world;
     BuildRequestList_get_by_filters :=
       BuildRequestList_get_by_filters example_world;
     InstanceGroupList_get_counts := InstanceGroupList_get_counts example_world;
     KeyPairList_get_count_by_user := KeyPairList_get_count_by_user example_world |}.


(** ** The band of settable quotas *)

Section SettableQuotas.
Variables (w : World) (context : RequestContext).

(** With usages, the entries of [get_project_quotas] carry the counts of the
    project. *)
Lemma eval_get_project_quotas_usages resources project_id quota_class remains
    project_quotas pu st :
  registry_wf resources ->
  (forall st,
      eval (DbQuotaDriver._get_usages w context resources project_id None) st
      = Ok pu) ->
  eval (DbQuotaDriver.get_project_quotas w context resources project_id
          quota_class true remains project_quotas) st
  = Ok ((fun r =>
           (resource_name r,
            quota_value_of w context project_id
              (passed_or project_quotas
                 (Quotas_get_all_by_project w project_id))
              quota_class (Some pu) remains r))
          <$> resources.*2).
Proof.
  intros Hwf Hpu. unfold DbQuotaDriver.get_project_quotas. apply eval_of_wp.
  apply wp_bind.
  apply wp_mono with
    (Q := fun r _ =>
            r = Ok (passed_or project_quotas
                      (Quotas_get_all_by_project w project_id))).
  { unfold passed_or. destruct (map_truthy project_quotas); [done|].
    by apply wp_bind, wp_call, wp_ret. }
  intros ? st1 ->. apply wp_bind.
  eapply wp_of_eval; [apply Hpu|]. intros st2.
  eapply wp_of_eval; [by apply eval__process_quotas | done].
Qed.

Lemma eval_get_user_quotas_usages resources project_id user_id quota_class
    project_quotas user_quotas uu st :
  registry_wf resources ->
  (forall st,
      eval (DbQuotaDriver._get_usages w context resources project_id user_id)
        st = Ok uu) ->
  eval (DbQuotaDriver.get_user_quotas w context resources project_id user_id
          quota_class true project_quotas user_quotas) st
  = Ok ((fun r =>
           (resource_name r,
            quota_value_of w context project_id
              (passed_or user_quotas
                 (Quotas_get_all_by_project_and_user w project_id user_id)
               ∪ passed_or project_quotas
                   (Quotas_get_all_by_project w project_id))
              quota_class (Some uu) false r))
          <$> resources.*2).
Proof.
  intros Hwf Huu. unfold DbQuotaDriver.get_user_quotas. apply eval_of_wp.
  apply wp_bind.
  apply wp_mono with
    (Q := fun r _ =>
            r = Ok (passed_or user_quotas
                      (Quotas_get_all_by_project_and_user w project_id user_id))).
  { unfold passed_or. destruct (map_truthy user_quotas); [done|].
    by apply wp_bind, wp_call, wp_ret. }
  intros ? st1 ->. apply wp_bind.
  apply wp_mono with
    (Q := fun r _ =>
            r = Ok (passed_or project_quotas
                      (Quotas_get_all_by_project w project_id))).
  { unfold passed_or. destruct (map_truthy project_quotas); [done|].
    by apply wp_bind, wp_call, wp_ret. }
  intros ? st2 ->. rewrite user_quotas_fill. apply wp_bind.
  eapply wp_of_eval; [apply Huu|]. intros st3.
  eapply wp_of_eval; [by apply eval__process_quotas | done].
Qed.

(** The limit of the project for a resource, as [get_settable_quotas] reads
    it: the stored project quota, else the class quota, else the default. *)
Definition project_limit (project_id : option string) (r : Resource) : Z :=
  resolve_limit w
    (class_quotas_of w (effective_quota_class context project_id None))
    (Quotas_get_all_by_project w project_id) r.

(** What is left of it once every per-user limit stored in the project has
    been subtracted. *)
Definition project_remains (project_id : option string) (r : Resource) : Z :=
  project_limit project_id r
  - granted (Quotas_get_all w project_id) (resource_name r).

(** The band for a user whose counts are [uu]. *)
Definition user_band (project_id user_id : option string) (uu : dict Z)
    (r : Resource) : DbQuotaDriver.SettableQuota :=
  {| DbQuotaDriver.minimum := default 0 (dict_get (resource_name r) uu);
     DbQuotaDriver.maximum :=
       DbQuotaDriver._sum_quota_values (project_remains project_id r)
         (default 0
            (Quotas_get_all_by_project_and_user w project_id user_id
               !! resource_name r)) |}.

(** The band for a project whose counts are [pu]. *)
Definition project_band (project_id : option string) (pu : dict Z)
    (r : Resource) : DbQuotaDriver.SettableQuota :=
  {| DbQuotaDriver.minimum :=
       Z.max
         (DbQuotaDriver._sub_quota_values (project_limit project_id r)
            (project_remains project_id r))
         (default 0 (dict_get (resource_name r) pu));
     DbQuotaDriver.maximum := -1 |}.
End SettableQuotas.

(** A loop that files one value under the name of each item. *)
Lemma for_each_keyed {A V} (key : A -> string) (g : A -> V) (xs : list A)
    (body : A -> dict V -> M (dict V)) st :
  NoDup (key <$> xs) ->
  (forall x acc, x ∈ xs -> body x acc st = (Ok (dict_set (key x) (g x) acc), st)) ->
  for_each xs body [] st = (Ok ((fun x => (key x, g x)) <$> xs), st).
Proof.
  intros Hnd Hbody.
  rewrite <- (app_nil_l ((fun x => (key x, g x)) <$> xs)).
  rewrite <- (fold_dict_set_keyed key g xs []) by done.
  generalize (@nil (string * V)). clear Hnd.
  induction xs as [|x xs IH]; intros acc; [done|].
  cbn [for_each fold_left]. unfold bind.
  rewrite Hbody by left. apply IH. intros y acc' Hy. apply Hbody. by right.
Qed.

Lemma for_each_fmap {A B S} (f : A -> B) (xs : list A) (body : B -> S -> M S)
    acc st :
  for_each (f <$> xs) body acc st = for_each xs (fun x => body (f x)) acc st.
Proof.
  revert acc st. induction xs as [|x xs IH]; intros acc st; [done|].
  rewrite fmap_cons. cbn [for_each]. unfold bind.
  destruct (body (f x) acc st) as [[acc'|e] st1]; [apply IH|done].
Qed.

(** A deployment like [example_world] in which the one per-user limit
    stored for cores is unlimited. *)
Definition unlimited_grant_world : World :=
  {| CONF_quota := CONF_quota example_world;
     CONF_quota_count_usage_from_placement := false;
     CONF_api_instance_list_per_project_cells := false;
     Quotas_get_default_class := Quotas_get_default_class example_world;
     Quotas_get_all_class_by_name := Quotas_get_all_class_by_name example_world;
     Quotas_get_all := fun _ => [ {| resource := "cores"; hard_limit := -1 |} ];
     Quotas_get_all_by_project := Quotas_get_all_by_project example_world;
     Quotas_get_all_by_project_and_user :=
       Quotas_get_all_by_project_and_user example_world;
     quota_get_per_project_resources :=
       quota_get_per_project_resources example_world;
     instance_mappings := [];
     InstanceMappingList_get_counts :=
       InstanceMappingList_get_counts example_world;
     InstanceMappingList_get_count_by_uuids_and_user :=
       InstanceMappingList_get_count_by_uuids_and_user example_world;
     get_usages_counts_for_quota := get_usages_counts_for_quota example_world;
     CellMappingList_get_by_project_id :=
       CellMappingList_get_by_project_id example_world;
     CELLS := CELLS example_world;
     scatter_gather_get_counts := scatter_gather_get_counts example_world;
     scatter_gather_group_member_uuids :=
       scatter_gather_group_member_uuids example_world;
     BuildRequestList_get_by_filters :=
       BuildRequestList_get_by_filters example_world;
     InstanceGroupList_get_counts := InstanceGroupList_get_counts example_world;
     KeyPairList_get_count_by_user := KeyPairList_get_count_by_user example_world |}.

(** The entry of [name] in a returned dictionary. *)
Definition returned_entry {V} (name : string) (r : result (dict V))
    : option V :=
  match r with
  | Ok d => dict_get name d
  | Raise _ => None
  end.

(** C5, where the code differs: the per-user limits are subtracted from the
    project limit with plain subtraction. With a project limit of 20 cores
    and one user whose stored limit is unlimited (-1), what remains is
    20 - (-1) = 21, and a user without a stored limit can be set up to 21;
    subtraction that propagates the unlimited value would have left -1. *)
Lemma get_settable_quotas_remains_is_plain_subtraction :
  Quotas_get_all_by_project unlimited_grant_world (Some "p") !! "cores"
  = Some 20 /\
  hard_limit <$> Quotas_get_all unlimited_grant_world (Some "p") = [-1] /\
  Quotas_get_all_by_project_and_user unlimited_grant_world (Some "p")
    (Some "u") !! "cores" = None /\
  returned_entry "cores"
    (eval (DbQuotaDriver.get_project_quotas unlimited_grant_world
             example_context QUOTAS_registry (Some "p") None true true
             (Some (Quotas_get_all_by_project unlimited_grant_world
                      (Some "p")))) initial_state)
  = Some {| QuotaValue.limit := 20; QuotaValue.in_use := Some 18;
            QuotaValue.remains := Some 21 |} /\
  returned_entry "cores"
    (eval (DbQuotaDriver.get_settable_quotas unlimited_grant_world
             example_context QUOTAS_registry (Some "p") (Some "u"))
       initial_state)
  = Some {| DbQuotaDriver.minimum := 3; DbQuotaDriver.maximum := 21 |} /\
  DbQuotaDriver._sub_quota_values 20 (-1) = -1 /\
  DbQuotaDriver._sum_quota_values (DbQuotaDriver._sub_quota_values 20 (-1)) 0
  = -1.
Proof. vm_compute. repeat split. Qed.


(** * Further properties of the driver *)

(** ** When [limit_check] accepts *)

(** X1: on valid input (registered checkable names, no negative value)
    [limit_check] returns normally exactly when no requested value is above
    a concrete project-scope or user-scope limit; otherwise it raises
    [OverQuota], never anything else. *)
Theorem limit_check_accepts_iff_within_limits
    w context resources (values : dict Z) project_id user_id st :
  registry_wf resources ->
  NoDup (dict_keys values) ->
  Forall (fun kv => checkable resources kv.1) values ->
  Forall (fun kv => 0 <= kv.2) values ->
  exists quotas user_quotas,
    eval (project_scope_limits w context resources (dict_keys values)
            project_id) st = Ok quotas /\
    eval (user_scope_limits w context resources (dict_keys values)
            project_id user_id) st = Ok user_quotas /\
    (eval (DbQuotaDriver.limit_check w context resources values project_id
             user_id) st = Ok tt <->
     forall k v, (k, v) ∈ values ->
                 ~ exceeds quotas k v /\ ~ exceeds user_quotas k v) /\
    (eval (DbQuotaDriver.limit_check w context resources values project_id
             user_id) st = Ok tt \/
     exists overs headroom,
       overs <> [] /\
       eval (DbQuotaDriver.limit_check w context resources values project_id
               user_id) st = Raise (OverQuota overs quotas [] headroom)).
Proof.
  intros Hwf Hnd Hcheck Hnonneg.
  eexists _, _.
  split; [by apply eval_project_scope_limits|].
  split; [by apply eval_user_scope_limits|].
  rewrite limit_check_run by done.
  set (quotas := limits_at _ _ _ _ _ None).
  set (user_quotas := limits_at _ _ _ _ _ (effective_id user_id _)).
  set (overs := (filter (flagged quotas user_quotas) values).*1).
  split.
  - destruct (decide (overs = [])) as [Hnil|Hovers].
    + split; [|done]. intros _ k v Hin.
      assert (Hnot : ~ flagged quotas user_quotas (k, v)).
      { intros Hflag.
        assert (k ∈ overs) as Hk.
        { apply list_elem_of_fmap. exists (k, v). split; [done|].
          by apply list_elem_of_filter. }
        rewrite Hnil in Hk. by apply elem_of_nil in Hk. }
      unfold flagged in Hnot. simpl in Hnot. tauto.
    + split; [done|]. intros Hall. destruct Hovers.
      apply nil_iff_no_elem. intros k Hk.
      apply list_elem_of_fmap in Hk as ([k' v] & -> & Hin).
      apply list_elem_of_filter in Hin as [Hflag Hin].
      destruct (Hall _ _ Hin) as [Hq Huq].
      destruct Hflag; tauto.
  - destruct (decide (overs = [])) as [Hnil|Hovers]; [by left|right].
    eexists _, _. split; [|reflexivity].
    intros Hsorted. apply Hovers.
    apply nil_iff_no_elem. intros k Hk.
    apply elem_of_sorted in Hk. rewrite Hsorted in Hk.
    by apply elem_of_nil in Hk.
Qed.

(** Ten cores against a project limit of 20 and a per-user limit of 5 for
    a user other than ["u"] are over the user's limit; for ["u"], who has
    no limit of their own, they pass. *)
Lemma limit_check_accepts_iff_within_limits_witness :
  eval (DbQuotaDriver.limit_check example_world example_context
          QUOTAS_registry [("cores", 10)] (Some "p") (Some "u")) initial_state
  = Ok tt /\
  exists headroom,
    eval (DbQuotaDriver.limit_check example_world example_context
            QUOTAS_registry [("cores", 10)] (Some "p") (Some "v"))
      initial_state
    = Raise (OverQuota ["cores"] [("cores", 20)] [] headroom).
Proof.
  destruct (limit_check_accepts_iff_within_limits example_world
              example_context QUOTAS_registry [("cores", 10)] (Some "p")
              (Some "u") initial_state)
    as (quotas & user_quotas & Hq & Huq & Hiff & _).
  - apply registry_of_wf.
  - apply (bool_decide_unpack _). vm_compute. exact I.
  - each_entry ltac:(by eexists).
  - each_entry ltac:(simpl; lia).
  - split.
    + apply Hiff. intros k v Hin.
      vm_compute in Hq. vm_compute in Huq. simplify_eq.
      apply list_elem_of_singleton in Hin as [= -> ->].
      split; intros (q & Hget & Hq); vm_compute in Hget; simplify_eq; lia.
    + eexists. vm_compute. reflexivity.
Defined.

(** ** Values that are not admissible *)

(** X2: a negative requested value makes [limit_check] raise
    [InvalidQuotaValue] with the sorted names of all negative values, before
    any quota is looked up (the state is unchanged). *)
Theorem limit_check_rejects_negative_values
    w context resources (values : dict Z) project_id user_id st k v :
  Forall (fun kv => checkable resources kv.1) values ->
  (k, v) ∈ values -> v < 0 ->
  exists unders,
    DbQuotaDriver.limit_check w context resources values project_id user_id st
    = (Raise (InvalidQuotaValue unders), st) /\
    StronglySorted String.le unders /\
    forall x, x ∈ unders <-> exists y, (x, y) ∈ values /\ y < 0.
Proof.
  intros Hcheck Hin Hneg. eexists. split; [|split].
  - unfold DbQuotaDriver.limit_check. unfold bind at 1.
    rewrite _valid_method_call_check_resources_ok by done.
    destruct (list_truthy _) eqn:Hunders; [reflexivity|].
    apply unders_empty in Hunders.
    apply (proj1 (Forall_forall _ _) Hunders) in Hin. simpl in Hin. lia.
  - apply sorted_StronglySorted.
  - intros x. rewrite elem_of_sorted, list_elem_of_fmap. split.
    + intros ([x' y] & -> & Hxy). apply list_elem_of_filter in Hxy as [Hy Hxy].
      by exists y.
    + intros (y & Hxy & Hy). exists (x, y). split; [done|].
      by apply list_elem_of_filter.
Qed.

Lemma limit_check_rejects_negative_values_witness :
  DbQuotaDriver.limit_check example_world example_context QUOTAS_registry
    [("ram", -1); ("cores", 1); ("instances", -2)] None None initial_state
  = (Raise (InvalidQuotaValue ["instances"; "ram"]), initial_state).
Proof.
  destruct (limit_check_rejects_negative_values example_world example_context
              QUOTAS_registry [("ram", -1); ("cores", 1); ("instances", -2)]
              None None initial_state "ram" (-1))
    as (unders & Hrun & _).
  - each_entry ltac:(by eexists).
  - left.
  - lia.
  - rewrite Hrun. vm_compute in Hrun. by simplify_eq.
Defined.

(** The names of the negative values of a dictionary, as
    [InvalidQuotaValue] carries them. *)
Definition negative_names (values : dict Z) : list string :=
  sorted (filter (fun kv : string * Z => kv.2 < 0) values).*1.

Lemma negative_names_spec values x :
  x ∈ negative_names values <-> exists y, (x, y) ∈ values /\ y < 0.
Proof.
  unfold negative_names. rewrite elem_of_sorted, list_elem_of_fmap. split.
  - intros ([x' y] & -> & Hxy). apply list_elem_of_filter in Hxy as [Hy Hxy].
    by exists y.
  - intros (y & Hxy & Hy). exists (x, y). split; [done|].
    by apply list_elem_of_filter.
Qed.

Lemma unders_truthy (values : dict Z) k v :
  (k, v) ∈ values -> v < 0 ->
  list_truthy (filter (fun kv : string * Z => kv.2 < 0) values).*1 = true.
Proof.
  intros Hin Hneg. destruct (list_truthy _) eqn:Hunders; [done|].
  apply unders_empty in Hunders.
  apply (proj1 (Forall_forall _ _) Hunders) in Hin. simpl in Hin. lia.
Qed.

(** X3: [limit_check_project_and_user] refuses a call without values
    (both dictionaries absent or empty) with [Invalid], and a call with a
    negative value with [InvalidQuotaValue]: the negative names of
    [project_values] when there are any, and only otherwise those of
    [user_values]. In each case nothing has been looked up and the caller's
    dictionaries are as they were. *)
Theorem limit_check_project_and_user_rejects_bad_arguments :
  (forall w context resources project_values user_values project_id user_id st,
      default [] project_values = [] -> default [] user_values = [] ->
      DbQuotaDriver.limit_check_project_and_user w context resources
        project_values user_values project_id user_id st
      = (Raise (Invalid
           "Must specify at least one of project_values or user_values for the limit check."),
         {| DbQuotaDriver.project_values_after := [];
            DbQuotaDriver.user_values_after := [] |}, st)) /\
  (forall w context resources (project_values user_values : dict Z)
          project_id user_id st k v,
      Forall (fun kv => checkable resources kv.1) project_values ->
      Forall (fun kv => checkable resources kv.1) user_values ->
      (k, v) ∈ project_values -> v < 0 ->
      DbQuotaDriver.limit_check_project_and_user w context resources
        (Some project_values) (Some user_values) project_id user_id st
      = (Raise (InvalidQuotaValue (negative_names project_values)),
         {| DbQuotaDriver.project_values_after := project_values;
            DbQuotaDriver.user_values_after := user_values |}, st)) /\
  (forall w context resources (project_values user_values : dict Z)
          project_id user_id st k v,
      Forall (fun kv => checkable resources kv.1) project_values ->
      Forall (fun kv => checkable resources kv.1) user_values ->
      Forall (fun kv => 0 <= kv.2) project_values ->
      (k, v) ∈ user_values -> v < 0 ->
      DbQuotaDriver.limit_check_project_and_user w context resources
        (Some project_values) (Some user_values) project_id user_id st
      = (Raise (InvalidQuotaValue (negative_names user_values)),
         {| DbQuotaDriver.project_values_after := project_values;
            DbQuotaDriver.user_values_after := user_values |}, st)).
Proof.
  split; [|split].
  - intros w context resources pv uv project_id user_id st Hpv Huv.
    rewrite limit_check_project_and_user_unfold. cbv zeta.
    rewrite Hpv, Huv. reflexivity.
  - intros w context resources pv uv project_id user_id st k v Hpc Huc Hin Hneg.
    rewrite limit_check_project_and_user_unfold. cbv zeta.
    unfold default. cbn [from_option id].
    assert (Hval : lcpu_validation resources pv uv st
                   = (Raise (InvalidQuotaValue (negative_names pv)), st)).
    { unfold lcpu_validation.
      unfold bind at 1. rewrite _valid_method_call_check_resources_ok by done.
      unfold bind at 1. rewrite _valid_method_call_check_resources_ok by done.
      destruct pv as [|kv pv]; [by apply elem_of_nil in Hin|].
      cbn [dict_truthy list_truthy orb negb]. unfold bind at 1. unfold ret at 1.
      cbn [for_each]. unfold bind at 1.
      by rewrite (unders_truthy _ k v). }
    by rewrite Hval.
  - intros w context resources pv uv project_id user_id st k v Hpc Huc Hpn
      Hin Hneg.
    rewrite limit_check_project_and_user_unfold. cbv zeta.
    unfold default. cbn [from_option id].
    assert (Hval : lcpu_validation resources pv uv st
                   = (Raise (InvalidQuotaValue (negative_names uv)), st)).
    { unfold lcpu_validation.
      unfold bind at 1. rewrite _valid_method_call_check_resources_ok by done.
      unfold bind at 1. rewrite _valid_method_call_check_resources_ok by done.
      assert (Htruthy : dict_truthy pv || dict_truthy uv = true).
      { destruct uv; [by apply elem_of_nil in Hin|]. apply orb_true_r. }
      rewrite Htruthy. cbn [negb]. unfold bind at 1. unfold ret at 1.
      cbn [for_each]. unfold bind at 1.
      rewrite unders_nil by done. cbn [list_truthy]. unfold ret at 1.
      unfold bind at 1.
      by rewrite (unders_truthy _ k v). }
    by rewrite Hval.
Qed.

Lemma limit_check_project_and_user_rejects_bad_arguments_witness :
  DbQuotaDriver.limit_check_project_and_user example_world example_context
    QUOTAS_registry None (Some []) None None initial_state
  = (Raise (Invalid
       "Must specify at least one of project_values or user_values for the limit check."),
     {| DbQuotaDriver.project_values_after := [];
        DbQuotaDriver.user_values_after := [] |}, initial_state) /\
  DbQuotaDriver.limit_check_project_and_user example_world example_context
    QUOTAS_registry (Some [("ram", -1); ("cores", -1)])
    (Some [("instances", -1)]) None None initial_state
  = (Raise (InvalidQuotaValue ["cores"; "ram"]),
     {| DbQuotaDriver.project_values_after := [("ram", -1); ("cores", -1)];
        DbQuotaDriver.user_values_after := [("instances", -1)] |},
     initial_state) /\
  DbQuotaDriver.limit_check_project_and_user example_world example_context
    QUOTAS_registry (Some [("ram", 1)]) (Some [("instances", -1)]) None None
    initial_state
  = (Raise (InvalidQuotaValue ["instances"]),
     {| DbQuotaDriver.project_values_after := [("ram", 1)];
        DbQuotaDriver.user_values_after := [("instances", -1)] |},
     initial_state).
Proof.
  pose proof limit_check_project_and_user_rejects_bad_arguments
    as (Hnone & Hproject & Huser).
  split; [by apply Hnone|]. split.
  - apply (Hproject example_world example_context QUOTAS_registry
             [("ram", -1); ("cores", -1)] [("instances", -1)] None None
             initial_state "ram" (-1)).
    + each_entry ltac:(by eexists).
    + each_entry ltac:(by eexists).
    + left.
    + lia.
  - apply (Huser example_world example_context QUOTAS_registry
             [("ram", 1)] [("instances", -1)] None None
             initial_state "instances" (-1)).
    + each_entry ltac:(by eexists).
    + each_entry ltac:(by eexists).
    + each_entry ltac:(simpl; lia).
    + left.
    + lia.
Defined.

(** ** What the retrievals look up *)

(** [m] leaves the state alone, whatever its result. *)
Definition pure {A} (m : M A) : Prop := forall st, (m st).2 = st.

Lemma pure_ret {A} (a : A) : pure (ret a).
Proof. done. Qed.

Lemma pure_raise {A} e : pure (raise e : M A).
Proof. done. Qed.

Lemma pure_bind {A B} (m : M A) (f : A -> M B) :
  pure m -> (forall a, pure (f a)) -> pure (bind m f).
Proof.
  intros Hm Hf st. unfold bind. specialize (Hm st).
  destruct (m st) as [[a|e] st1]; simpl in Hm; subst; [apply Hf|done].
Qed.

Lemma pure_getitem {V} k (d : dict V) : pure (getitem k d).
Proof. unfold getitem. by destruct (dict_get k d). Qed.

Lemma pure_for_each {A S} (xs : list A) (body : A -> S -> M S) acc :
  (forall x acc, pure (body x acc)) -> pure (for_each xs body acc).
Proof.
  intros Hbody. revert acc. induction xs as [|x xs IH]; intros acc; [done|].
  cbn [for_each]. apply pure_bind; [apply Hbody|apply IH].
Qed.

Lemma pure_run {A} (m : M A) st r st' : pure m -> m st = (r, st') -> st' = st.
Proof. intros Hm Hrun. specialize (Hm st). by rewrite Hrun in Hm. Qed.

Create HintDb pure.
#[export] Hint Resolve pure_ret pure_raise pure_getitem : pure.

Ltac pure_step :=
  match goal with
  | |- pure (bind _ _) => apply pure_bind; [|intros ?]
  | |- pure (for_each _ _ _) => apply pure_for_each; intros ? ?
  | |- pure (if ?b then _ else _) => destruct b
  | |- pure (match ?x with _ => _ end) => destruct x
  | |- pure _ => solve [auto with pure]
  end.
Ltac pure_tac := repeat pure_step.

Lemma run_of_eval {A} (m : M A) st r st' :
  eval m st = r -> (m st).2 = st' -> m st = (r, st').
Proof. unfold eval. intros <- <-. by destruct (m st). Qed.

(** The lookups of a quota class: none without a class. *)
Definition class_lookups (context : RequestContext)
    (project_id quota_class : option string) : list Call :=
  match effective_quota_class context project_id quota_class with
  | Some qc =>
      if truthy (Some qc) then [Call_Quotas_get_all_class_by_name qc] else []
  | None => []
  end.

Lemma _process_quotas_run w context resources project_id quotas quota_class
    usages remains st :
  registry_wf resources ->
  DbQuotaDriver._process_quotas w context resources project_id quotas
    quota_class usages remains st
  = (Ok ((fun r =>
            (resource_name r,
             quota_value_of w context project_id quotas quota_class usages
               remains r))
           <$> resources.*2),
     add_calls
       (class_lookups context project_id quota_class
        ++ [Call_Quotas_get_default_class]
        ++ (if remains then [Call_Quotas_get_all project_id] else []))
       st).
Proof.
  intros Hwf. apply run_of_eval; [by apply eval__process_quotas|].
  pose proof (eval__process_quotas w context resources project_id quotas
                quota_class usages remains st Hwf) as Hok.
  unfold eval in Hok.
  destruct (DbQuotaDriver._process_quotas _ _ _ _ _ _ _ _ st) as [r st']
    eqn:Hrun.
  simpl in Hok. subst r. simpl.
  unfold DbQuotaDriver._process_quotas in Hrun.
  fold (effective_quota_class context project_id quota_class) in Hrun.
  apply bind_run in Hrun as [(e & _ & [=]) | (cq & st1 & Hclass & Hrun)].
  assert (Hst1 : st1 = add_calls (class_lookups context project_id quota_class)
                         st).
  { unfold class_lookups.
    destruct (effective_quota_class context project_id quota_class) as [qc|];
      [destruct (truthy (Some qc))|];
      unfold bind, call, ret in Hclass; simplify_eq;
      by rewrite ?add_calls_nil. }
  apply bind_run in Hrun as [(e & _ & [=]) | (d & st2 & Hdef & Hrun)].
  assert (Hst2 : st2 = add_calls [Call_Quotas_get_default_class] st1).
  { unfold DbQuotaDriver.get_defaults, bind, call, ret in Hdef.
    by simplify_eq. }
  apply bind_run in Hrun as [(e & _ & [=]) | (mq & st3 & Hloop & Hrun)].
  apply pure_run in Hloop; [|pure_tac].
  subst st3 st2 st1. rewrite !add_calls_app in Hrun.
  destruct remains.
  - apply bind_run in Hrun as [(e & Hc & _) | ([] & st4 & Hc & Hrun)];
      [by inversion Hc|].
    apply pure_run in Hrun; [|pure_tac].
    unfold call in Hc. simplify_eq. unfold add_calls. simpl.
    by rewrite <- !app_assoc.
  - unfold ret in Hrun. simplify_eq. by rewrite ?app_nil_r.
Qed.

(** The lookup of a stored dictionary that was not passed (absent, or
    empty). *)
Definition lookup_unless_passed (passed : option (gmap string Z)) (c : Call)
    : list Call :=
  if map_truthy passed then [] else [c].

(** X4: [get_project_quotas] without usages returns one entry per
    registered resource, in the order of the registry. The limit is the
    project's stored quota, else the quota of the class (the context's
    class when the project is the context's, else the class given), else
    the default. What remains, when asked for, is the limit minus the
    per-user limits stored in the project. The project's quotas are looked
    up only when none were passed (an empty dictionary counts as none), the
    class only when there is one, the default class once, and the per-user
    rows only for [remains]. *)
Theorem get_project_quotas_without_usages
    w context resources project_id quota_class remains project_quotas st :
  registry_wf resources ->
  DbQuotaDriver.get_project_quotas w context resources project_id quota_class
    false remains project_quotas st
  = (Ok ((fun kr : string * Resource =>
            let limit :=
              resolve_limit w
                (class_quotas_of w
                   (effective_quota_class context project_id quota_class))
                (passed_or project_quotas
                   (Quotas_get_all_by_project w project_id)) kr.2 in
            (kr.1,
             {| QuotaValue.limit := limit;
                QuotaValue.in_use := None;
                QuotaValue.remains :=
                  if remains
                  then Some (limit - granted (Quotas_get_all w project_id) kr.1)
                  else None |}))
           <$> resources),
     add_calls
       (lookup_unless_passed project_quotas
          (Call_Quotas_get_all_by_project project_id)
        ++ class_lookups context project_id quota_class
        ++ [Call_Quotas_get_default_class]
        ++ (if remains then [Call_Quotas_get_all project_id] else []))
       st).
Proof.
  intros Hwf. unfold DbQuotaDriver.get_project_quotas.
  unfold bind at 1.
  assert (Hfetch :
            (if map_truthy project_quotas
             then ret (default ∅ project_quotas)
             else call (Call_Quotas_get_all_by_project project_id) ;;;
                  ret (Quotas_get_all_by_project w project_id)) st
            = (Ok (passed_or project_quotas
                     (Quotas_get_all_by_project w project_id)),
               add_calls
                 (lookup_unless_passed project_quotas
                    (Call_Quotas_get_all_by_project project_id)) st)).
  { unfold passed_or, lookup_unless_passed.
    destruct (map_truthy project_quotas); [by rewrite add_calls_nil|done]. }
  rewrite Hfetch. unfold bind at 1. unfold ret at 1.
  rewrite _process_quotas_run by done. rewrite add_calls_app.
  f_equal. f_equal.
  rewrite (registry_wf_keyed
             (fun r => quota_value_of w context project_id _ quota_class
                         (Some []) remains r)) by done.
  apply list_fmap_ext. intros i r Hr. cbv zeta. f_equal.
  assert (Hname : r.1 = resource_name r.2).
  { apply list_elem_of_lookup_2 in Hr. destruct Hwf as [_ Hnames].
    symmetry. apply (proj1 (Forall_forall _ _) Hnames _ Hr). }
  unfold quota_value_of. cbn [dict_truthy list_truthy]. by rewrite Hname.
Qed.

(** A project limit of 20 cores of which 10 remain, found with three
    lookups. *)
Lemma get_project_quotas_without_usages_witness :
  returned_entry "cores"
    (eval (DbQuotaDriver.get_project_quotas example_world example_context
             QUOTAS_registry (Some "p") None false true (Some ∅))
       initial_state)
  = Some {| QuotaValue.limit := 20; QuotaValue.in_use := None;
            QuotaValue.remains := Some 10 |} /\
  calls (DbQuotaDriver.get_project_quotas example_world example_context
           QUOTAS_registry (Some "p") None false true (Some ∅)
           initial_state).2
  = [Call_Quotas_get_all_by_project (Some "p");
     Call_Quotas_get_default_class;
     Call_Quotas_get_all (Some "p")].
Proof.
  unfold eval.
  rewrite (get_project_quotas_without_usages example_world example_context
             QUOTAS_registry (Some "p") None true (Some ∅) initial_state
             (registry_of_wf _)).
  vm_compute. by split.
Defined.

(** X5: [get_user_quotas] without usages returns one entry per registered
    resource whose limit is the limit stored for the user, when there is
    one, and otherwise the limit the project has (its stored quota, else
    the class quota, else the default). The user's stored limits and the
    project's are each looked up only when they were not passed (an empty
    dictionary counts as not passed). *)
Theorem get_user_quotas_without_usages
    w context resources project_id user_id quota_class project_quotas
    user_quotas st :
  registry_wf resources ->
  DbQuotaDriver.get_user_quotas w context resources project_id user_id
    quota_class false project_quotas user_quotas st
  = (Ok ((fun kr : string * Resource =>
            (kr.1,
             {| QuotaValue.limit :=
                  default
                    (resolve_limit w
                       (class_quotas_of w
                          (effective_quota_class context project_id
                             quota_class))
                       (passed_or project_quotas
                          (Quotas_get_all_by_project w project_id)) kr.2)
                    (passed_or user_quotas
                       (Quotas_get_all_by_project_and_user w project_id
                          user_id) !! kr.1);
                QuotaValue.in_use := None;
                QuotaValue.remains := None |}))
           <$> resources),
     add_calls
       (lookup_unless_passed user_quotas
          (Call_Quotas_get_all_by_project_and_user project_id user_id)
        ++ lookup_unless_passed project_quotas
             (Call_Quotas_get_all_by_project project_id)
        ++ class_lookups context project_id quota_class
        ++ [Call_Quotas_get_default_class])
       st).
Proof.
  intros Hwf. unfold DbQuotaDriver.get_user_quotas.
  unfold bind at 1.
  assert (Hfetch : forall passed c stored st,
            (if map_truthy passed then ret (default ∅ passed)
             else call c ;;; ret stored) st
            = (Ok (passed_or passed stored),
               add_calls (lookup_unless_passed passed c) st)).
  { intros passed c stored st0. unfold passed_or, lookup_unless_passed.
    destruct (map_truthy passed); [by rewrite add_calls_nil|done]. }
  rewrite Hfetch. unfold bind at 1. rewrite Hfetch.
  rewrite user_quotas_fill. unfold bind at 1. unfold ret at 1.
  rewrite _process_quotas_run by done. rewrite !add_calls_app.
  rewrite app_nil_r, <- ?app_assoc.
  f_equal. f_equal.
  rewrite (registry_wf_keyed
             (fun r => quota_value_of w context project_id _ quota_class
                         (Some []) false r)) by done.
  apply list_fmap_ext. intros i r Hr. f_equal.
  assert (Hname : resource_name r.2 = r.1).
  { apply list_elem_of_lookup_2 in Hr. destruct Hwf as [_ Hnames].
    apply (proj1 (Forall_forall _ _) Hnames _ Hr). }
  unfold quota_value_of, resolve_limit. cbn [dict_truthy list_truthy].
  rewrite Hname, lookup_union.
  by destruct (passed_or user_quotas _ !! r.1),
    (passed_or project_quotas _ !! r.1).
Qed.

(** The user ["v"] has a stored limit of 5 cores and none for instances,
    for which the project's 2 applies. *)
Lemma get_user_quotas_without_usages_witness :
  returned_entry "cores"
    (eval (DbQuotaDriver.get_user_quotas example_world example_context
             QUOTAS_registry (Some "p") (Some "v") None false None None)
       initial_state)
  = Some {| QuotaValue.limit := 5; QuotaValue.in_use := None;
            QuotaValue.remains := None |} /\
  returned_entry "instances"
    (eval (DbQuotaDriver.get_user_quotas example_world example_context
             QUOTAS_registry (Some "p") (Some "v") None false None None)
       initial_state)
  = Some {| QuotaValue.limit := 2; QuotaValue.in_use := None;
            QuotaValue.remains := None |} /\
  calls (DbQuotaDriver.get_user_quotas example_world example_context
           QUOTAS_registry (Some "p") (Some "v") None false None None
           initial_state).2
  = [Call_Quotas_get_all_by_project_and_user (Some "p") (Some "v");
     Call_Quotas_get_all_by_project (Some "p");
     Call_Quotas_get_default_class].
Proof.
  unfold eval.
  rewrite (get_user_quotas_without_usages example_world example_context
             QUOTAS_registry (Some "p") (Some "v") None None None
             initial_state (registry_of_wf _)).
  vm_compute. by repeat split.
Defined.

(** X6: [get_defaults] and [get_class_quotas] return one value per
    registered resource: the value the default class (respectively the
    named class) holds for it, and otherwise the resource's configured
    default, which is -1 for a resource without a flag. Each makes one
    lookup; [get_class_quotas] does not consult the default class. *)
Theorem defaults_and_class_quotas w context resources quota_class st :
  registry_wf resources ->
  DbQuotaDriver.get_defaults w context resources st
  = (Ok ((fun kr : string * Resource =>
            (kr.1,
             default
               (match resource_flag kr.2 with
                | Some f => if truthy (Some f) then CONF_quota w f else -1
                | None => -1
                end)
               (Quotas_get_default_class w !! kr.1)))
           <$> resources),
     add_calls [Call_Quotas_get_default_class] st) /\
  DbQuotaDriver.get_class_quotas w context resources quota_class st
  = (Ok ((fun kr : string * Resource =>
            (kr.1,
             default
               (match resource_flag kr.2 with
                | Some f => if truthy (Some f) then CONF_quota w f else -1
                | None => -1
                end)
               (Quotas_get_all_class_by_name w quota_class !! kr.1)))
           <$> resources),
     add_calls [Call_Quotas_get_all_class_by_name quota_class] st).
Proof.
  intros Hwf.
  assert (Hfold : forall m : gmap string Z,
            fold_left
              (fun quotas resource =>
                 dict_set (resource_name resource)
                   (default (resource_default w resource)
                      (m !! resource_name resource)) quotas)
              resources.*2 []
            = (fun kr : string * Resource =>
                 (kr.1,
                  default
                    (match resource_flag kr.2 with
                     | Some f =>
                         if truthy (Some f) then CONF_quota w f else -1
                     | None => -1
                     end)
                    (m !! kr.1)))
                <$> resources).
  { intros m.
    rewrite (fold_dict_set_keyed resource_name
               (fun r => default (resource_default w r) (m !! resource_name r))).
    - rewrite app_nil_l.
      rewrite (registry_wf_keyed
                 (fun r => default (resource_default w r)
                             (m !! resource_name r))) by done.
      apply list_fmap_ext. intros i r Hr.
      assert (Hname : resource_name r.2 = r.1).
      { apply list_elem_of_lookup_2 in Hr. destruct Hwf as [_ Hnames].
        apply (proj1 (Forall_forall _ _) Hnames _ Hr). }
      by rewrite Hname.
    - rewrite app_nil_l, registry_wf_names by done. apply Hwf. }
  split.
  - unfold DbQuotaDriver.get_defaults, bind, call, ret. by rewrite Hfold.
  - unfold DbQuotaDriver.get_class_quotas, bind, call, ret. by rewrite Hfold.
Qed.

(** In the example nothing is stored in any class: cores default to the
    configured 10, and security groups, which have no flag, to -1. *)
Lemma defaults_and_class_quotas_witness :
  returned_entry "cores"
    (eval (DbQuotaDriver.get_defaults example_world example_context
             QUOTAS_registry) initial_state) = Some 10 /\
  returned_entry "security_groups"
    (eval (DbQuotaDriver.get_class_quotas example_world example_context
             QUOTAS_registry "gold") initial_state) = Some (-1).
Proof.
  destruct (defaults_and_class_quotas example_world example_context
              QUOTAS_registry "gold" initial_state (registry_of_wf _))
    as [Hdefaults Hclass].
  unfold eval. rewrite Hdefaults, Hclass. vm_compute. by split.
Defined.

(** * Further properties of the counting functions *)

(** ** The existence query *)

(** A mapping is migrated when [queued_for_delete] is set and, unless the
    instance is queued for delete, so is [user_id]. *)
Definition migrated (m : InstanceMapping) : Prop :=
  exists qfd, im_queued_for_delete m = Some qfd /\
              (im_user_id m = None -> qfd = true).

Lemma unmigrated_filter_spec m : unmigrated_filter m = true <-> ~ migrated m.
Proof.
  unfold unmigrated_filter, migrated.
  destruct (im_queued_for_delete m) as [qfd|]; split.
  - rewrite andb_true_iff, bool_decide_eq_true, negb_true_iff.
    intros [Hu Hq] (qfd' & [= <-] & Himp). rewrite Himp in Hq; done.
  - intros Hnot. rewrite andb_true_iff, bool_decide_eq_true, negb_true_iff.
    destruct (decide (im_user_id m = None)) as [Hu|Hu], qfd; try done.
    + destruct Hnot. by exists true.
    + destruct Hnot. by exists true.
    + destruct Hnot. by exists false.
  - intros _ (qfd & [=] & _).
  - done.
Qed.

(** X7: [_user_id_queued_for_delete_populated] makes one existence query
    and answers true exactly when every instance mapping, or every mapping
    of the project when a (non-empty) project is given, is migrated. So an
    answer of true for all projects implies true for each project, and the
    empty project id is answered like no project. *)
Theorem existence_query_answers_migrated w context project_id st :
  exists populated : bool,
    _user_id_queued_for_delete_populated w context project_id st
    = (Ok populated, add_calls [Call_exists_query project_id] st) /\
    (populated = true <->
     forall m, m ∈ instance_mappings w ->
               (truthy project_id = true ->
                project_id = Some (im_project_id m)) ->
               migrated m) /\
    (eval (_user_id_queued_for_delete_populated w context None) st = Ok true ->
     populated = true) /\
    (truthy project_id = false ->
     eval (_user_id_queued_for_delete_populated w context None) st
     = Ok populated).
Proof.
  exists (db_populated w project_id).
  split; [apply _user_id_queued_for_delete_populated_run|].
  assert (Hall : forall l : list InstanceMapping,
             negb (list_truthy l) = true <-> l = []).
  { intros [|x l]; simpl; split; done. }
  assert (Hspec : forall pid,
             db_populated w pid = true <->
             forall m, m ∈ instance_mappings w ->
                       (truthy pid = true -> pid = Some (im_project_id m)) ->
                       migrated m).
  { intros pid. unfold db_populated. cbv zeta. rewrite Hall.
    rewrite nil_iff_no_elem. split.
    - intros Hnone m Hm Hproj.
      destruct (decide (migrated m)) as [|Hun]; [done|]. exfalso.
      apply unmigrated_filter_spec in Hun.
      apply (Hnone m).
      destruct pid as [p|]; [destruct (truthy (Some p)) eqn:Hp|].
      + apply list_elem_of_filter. split.
        * specialize (Hproj eq_refl). congruence.
        * by apply list_elem_of_filter.
      + by apply list_elem_of_filter.
      + by apply list_elem_of_filter.
    - intros Hmig m Hm.
      assert (Hin : m ∈ filter (fun m => unmigrated_filter m = true)
                          (instance_mappings w) /\
                    (truthy pid = true -> pid = Some (im_project_id m))).
      { destruct pid as [p|]; [destruct (truthy (Some p)) eqn:Hp|].
        - apply list_elem_of_filter in Hm as [Hp' Hm]. split; [done|].
          intros _. by rewrite Hp'.
        - done.
        - done. }
      destruct Hin as [Hin Hproj].
      apply list_elem_of_filter in Hin as [Hun Hin].
      apply unmigrated_filter_spec in Hun. apply Hun. by apply Hmig. }
  split; [apply Hspec|]. split.
  - unfold eval.
    rewrite (_user_id_queued_for_delete_populated_run w context None st).
    simpl. intros [= Hnone]. apply Hspec.
    intros m Hm _. apply (proj1 (Hspec None) Hnone m Hm). done.
  - intros Hfalsy. unfold eval.
    rewrite (_user_id_queued_for_delete_populated_run w context None st).
    simpl. f_equal. unfold db_populated. cbv zeta.
    destruct project_id as [p|]; [|done]. by rewrite Hfalsy.
Qed.

(** ** How the counts of instances, cores and ram are taken *)

Lemma pure_add_counts counts total : pure (add_counts counts total).
Proof. unfold add_counts. pure_tac. Qed.

(** The legacy count makes its one scatter/gather call, whatever the cells
    hold. *)
Lemma _instances_cores_ram_count_legacy_calls w context project_id user_id
    st :
  (_instances_cores_ram_count_legacy w context project_id user_id st).2
  = add_calls [Call_scatter_gather_cells project_id user_id] st.
Proof.
  unfold _instances_cores_ram_count_legacy. unfold bind at 1.
  unfold call at 1.
  fold (add_calls [Call_scatter_gather_cells project_id user_id] st).
  match goal with
  | |- (?m ?s).2 = _ => assert (Hpure : pure m)
  end.
  { pose proof pure_add_counts. pure_tac. }
  apply Hpure.
Qed.

(** X8: how [_instances_cores_ram_count] chooses. Without
    [count_usage_from_placement] it is the legacy count and the gate is
    neither read nor written. With it and a closed gate, the database is
    asked about the project: on a positive answer the project enters the
    per-project cache and the count is the placement count; on a negative
    answer a warning is logged, the count is the legacy count, and the
    caches are left as they were, so that the next call asks again. *)
Theorem _instances_cores_ram_count_cases w context project_id user_id st :
  (CONF_quota_count_usage_from_placement w = false ->
   _instances_cores_ram_count w context project_id user_id st
   = _instances_cores_ram_count_legacy w context project_id user_id st) /\
  (CONF_quota_count_usage_from_placement w = true ->
   ~ gate_open st project_id ->
   eval (_user_id_queued_for_delete_populated w context project_id) st
   = Ok true ->
   exists st1,
     _instances_cores_ram_count w context project_id user_id st
     = _instances_cores_ram_count_api_db_placement w context project_id
         user_id st1 /\
     UID_QFD_POPULATED_CACHE_BY_PROJECT st1
     = {[ project_id ]} ∪ UID_QFD_POPULATED_CACHE_BY_PROJECT st /\
     UID_QFD_POPULATED_CACHE_ALL st1 = false /\
     calls st1 = calls st ++ [Call_exists_query project_id]) /\
  (CONF_quota_count_usage_from_placement w = true ->
   ~ gate_open st project_id ->
   eval (_user_id_queued_for_delete_populated w context project_id) st
   = Ok false ->
   let st' := (_instances_cores_ram_count w context project_id user_id st).2 in
   eval (_instances_cores_ram_count w context project_id user_id) st
   = eval (_instances_cores_ram_count_legacy w context project_id user_id) st /\
   st' = add_calls
           [Call_exists_query project_id;
            LOG_warning
              "Falling back to legacy quota counting method for instances, cores, and ram";
            Call_scatter_gather_cells project_id user_id] st /\
   ~ gate_open st' project_id).
Proof.
  assert (Hclosed : ~ gate_open st project_id ->
                    UID_QFD_POPULATED_CACHE_ALL st = false /\
                    project_id ∉ UID_QFD_POPULATED_CACHE_BY_PROJECT st).
  { intros Hnot. split.
    - destruct (UID_QFD_POPULATED_CACHE_ALL st) eqn:Hall; [|done].
      destruct Hnot. by left.
    - intros Hin. destruct Hnot. by right. }
  split; [|split].
  - intros Hconf. unfold _instances_cores_ram_count. by rewrite Hconf.
  - intros Hconf Hnot Hq. destruct (Hclosed Hnot) as [Hall Hin].
    rewrite _instances_cores_ram_count_closed by done.
    unfold eval in Hq.
    rewrite _user_id_queued_for_delete_populated_run in Hq. simpl in Hq.
    injection Hq as ->.
    eexists. split; [reflexivity|]. done.
  - intros Hconf Hnot Hq. destruct (Hclosed Hnot) as [Hall Hin]. cbv zeta.
    unfold eval in *.
    rewrite _user_id_queued_for_delete_populated_run in Hq. simpl in Hq.
    injection Hq as Hq.
    rewrite _instances_cores_ram_count_closed by done. rewrite Hq.
    set (warning := LOG_warning _).
    assert (Hst : ((call warning ;;;
                    _instances_cores_ram_count_legacy w context project_id
                      user_id)
                     (add_calls [Call_exists_query project_id] st)).2
                  = add_calls
                      [Call_exists_query project_id; warning;
                       Call_scatter_gather_cells project_id user_id] st).
    { unfold bind at 1, call at 1. cbn [fst snd].
      rewrite _instances_cores_ram_count_legacy_calls.
      unfold add_calls. simpl. by rewrite <- !app_assoc. }
    split; [|split].
    + unfold bind at 1, call at 1. cbn [fst snd].
      exact (log_only_eval _ _ st
               (log_only__instances_cores_ram_count_legacy w context
                  project_id user_id)).
    + exact Hst.
    + rewrite Hst. intros [Hall'|Hin']; simpl in *; [congruence|done].
Qed.

Lemma initial_gate_closed project_id : ~ gate_open initial_state project_id.
Proof. intros [Hall|Hin]; [done|]. by apply not_elem_of_empty in Hin. Qed.

(** In a deployment where a mapping of project ["p"] is unmigrated, a
    count for project ["q"] opens the gate for ["q"], and a count for ["p"]
    falls back to the legacy count after asking and warning. *)
Lemma _instances_cores_ram_count_cases_witness :
  Some "q" ∈ UID_QFD_POPULATED_CACHE_BY_PROJECT
    (_instances_cores_ram_count unmigrated_world example_context (Some "q") None
       initial_state).2 /\
  calls (_instances_cores_ram_count unmigrated_world example_context
           (Some "p") None initial_state).2
  = [Call_exists_query (Some "p");
     LOG_warning
       "Falling back to legacy quota counting method for instances, cores, and ram";
     Call_scatter_gather_cells (Some "p") None].
Proof.
  split.
  - destruct (_instances_cores_ram_count_cases unmigrated_world
                example_context (Some "q") None initial_state)
      as (_ & Hpositive & _).
    destruct (Hpositive eq_refl (initial_gate_closed _) eq_refl)
      as (st1 & Hrun & Hcache & _).
    rewrite Hrun.
    rewrite (proj2 (log_only_globals _ st1
                      (log_only__instances_cores_ram_count_api_db_placement
                         _ _ _ _))).
    rewrite Hcache. apply elem_of_union_l. by apply elem_of_singleton.
  - destruct (_instances_cores_ram_count_cases unmigrated_world
                example_context (Some "p") None initial_state)
      as (_ & _ & Hnegative).
    destruct (Hnegative eq_refl (initial_gate_closed _) eq_refl)
      as (_ & Hst & _).
    by rewrite Hst.
Defined.

(** ** Members of a server group *)

(** The UUIDs the cells of [per_cell] answered with, when all answered. *)
Fixpoint gathered_uuids (per_cell : list (CellResult (gset string)))
    : option (gset string) :=
  match per_cell with
  | [] => Some ∅
  | CellValue uuids :: rest => (fun s => uuids ∪ s) <$> gathered_uuids rest
  | CellFailure :: _ => None
  end.

Lemma gathered_uuids_loop per_cell (acc : gset string) st :
  for_each per_cell
    (fun uuids (instance_uuids : gset string) =>
       match uuids with
       | CellValue uuids => ret (instance_uuids ∪ uuids)
       | CellFailure => raise (TypeError "unsupported operand type(s) for |=")
       end) acc st
  = (match gathered_uuids per_cell with
     | Some s => Ok (acc ∪ s)
     | None => Raise (TypeError "unsupported operand type(s) for |=")
     end, st).
Proof.
  revert acc. induction per_cell as [|[uuids|] rest IH]; intros acc.
  - simpl. unfold ret. by rewrite (right_id_L ∅ (∪)).
  - cbn [for_each gathered_uuids]. unfold bind at 1. unfold ret at 1.
    rewrite IH. destruct (gathered_uuids rest) as [s|]; simpl; [|done].
    by rewrite (assoc_L (∪)).
  - reflexivity.
Qed.

Lemma gathered_uuids_None per_cell :
  gathered_uuids per_cell = None <-> CellFailure ∈ per_cell.
Proof.
  induction per_cell as [|[uuids|] rest IH]; simpl.
  - split; [done|]. intros H. by apply elem_of_nil in H.
  - rewrite fmap_None, IH. split; [by right|].
    intros H. apply elem_of_cons in H as [|]; done.
  - split; [by left|done].
Qed.

(** The answers of the cells that answered. *)
Definition cell_answers (per_cell : list (CellResult (gset string)))
    : list (gset string) :=
  omap (fun r => match r with
                 | CellValue uuids => Some uuids
                 | CellFailure => None
                 end) per_cell.

Lemma gathered_uuids_Some per_cell s :
  gathered_uuids per_cell = Some s -> s = ⋃ cell_answers per_cell.
Proof.
  revert s. induction per_cell as [|[uuids|] rest IH]; intros s; simpl.
  - by intros [= <-].
  - destruct (gathered_uuids rest) as [s'|]; [|done]. intros [= <-].
    by rewrite (IH s' eq_refl).
  - done.
Qed.

Lemma fold_add_uuids (build_requests : list string) (s : gset string) :
  fold_left (fun (s : gset string) u => {[ u ]} ∪ s) build_requests s
  = s ∪ list_to_set build_requests.
Proof.
  revert s. induction build_requests as [|u rest IH]; intros s; simpl.
  - by rewrite (right_id_L ∅ (∪)).
  - rewrite IH. rewrite (comm_L (∪) {[ u ]} s). by rewrite (assoc_L (∪)).
Qed.

(** X9: the legacy count of the members of a server group asks every cell
    and then the build requests. If every cell answered, the count is the
    number of distinct UUIDs among the answers of the cells and the build
    requests, so that an instance known both to a cell and as a build
    request counts once. A cell that failed is not skipped: the function
    raises [TypeError] and the build requests are not asked. *)
Theorem server_group_members_legacy_counts_distinct_uuids
    w context group user_id st :
  let per_cell :=
    (scatter_gather_group_member_uuids w user_id (members group)).*2 in
  let build_requests :=
    BuildRequestList_get_by_filters w user_id (members group) in
  (CellFailure ∉ per_cell ->
   _server_group_count_members_by_user_legacy w context group user_id st
   = (Ok {| count_project := None;
            count_user :=
              Some [("server_group_members",
                     Z.of_nat (size (⋃ cell_answers per_cell
                                     ∪ list_to_set build_requests)))] |},
      add_calls [Call_scatter_gather_all_cells;
                 Call_BuildRequestList_get_by_filters] st)) /\
  (CellFailure ∈ per_cell ->
   _server_group_count_members_by_user_legacy w context group user_id st
   = (Raise (TypeError "unsupported operand type(s) for |="),
      add_calls [Call_scatter_gather_all_cells] st)).
Proof.
  cbv zeta. split.
  - intros Hall.
    destruct (gathered_uuids
                (scatter_gather_group_member_uuids w user_id (members group)).*2)
      as [s|] eqn:Hs; [|by apply gathered_uuids_None in Hs].
    unfold _server_group_count_members_by_user_legacy.
    cbn [getattr_members]. unfold bind at 1. unfold ret at 1.
    unfold bind at 1. unfold call at 1. unfold bind at 1.
    rewrite gathered_uuids_loop, Hs.
    unfold bind at 1. unfold call at 1. unfold ret.
    rewrite fold_add_uuids. unfold add_calls. simpl.
    rewrite <- app_assoc. rewrite (left_id_L ∅ (∪)).
    by rewrite (gathered_uuids_Some _ s Hs).
  - intros Hfail. apply gathered_uuids_None in Hfail.
    unfold _server_group_count_members_by_user_legacy.
    cbn [getattr_members]. unfold bind at 1. unfold ret at 1.
    unfold bind at 1. unfold call at 1. unfold bind at 1.
    by rewrite gathered_uuids_loop, Hfail.
Qed.

(** A deployment like [example_world] with the given answers of the cells
    about the members of a group and the given build requests. *)
Definition group_world (per_cell : dict (CellResult (gset string)))
    (build_requests : list string) : World :=
  {| CONF_quota := CONF_quota example_world;
     CONF_quota_count_usage_from_placement := false;
     CONF_api_instance_list_per_project_cells := false;
     Quotas_get_default_class := Quotas_get_default_class example_world;
     Quotas_get_all_class_by_name := Quotas_get_all_class_by_name example_world;
     Quotas_get_all := Quotas_get_all example_world;
     Quotas_get_all_by_project := Quotas_get_all_by_project example_world;
     Quotas_get_all_by_project_and_user :=
       Quotas_get_all_by_project_and_user example_world;
     quota_get_per_project_resources :=
       quota_get_per_project_resources example_world;
     instance_mappings :=
       [ {| im_project_id := "p"; im_user_id := None;
            im_queued_for_delete := None |} ];
     InstanceMappingList_get_counts :=
       InstanceMappingList_get_counts example_world;
     InstanceMappingList_get_count_by_uuids_and_user := fun _ _ => 7;
     get_usages_counts_for_quota := get_usages_counts_for_quota example_world;
     CellMappingList_get_by_project_id :=
       CellMappingList_get_by_project_id example_world;
     CELLS := CELLS example_world;
     scatter_gather_get_counts := scatter_gather_get_counts example_world;
     scatter_gather_group_member_uuids := fun _ _ => per_cell;
     BuildRequestList_get_by_filters := fun _ _ => build_requests;
     InstanceGroupList_get_counts := InstanceGroupList_get_counts example_world;
     KeyPairList_get_count_by_user := KeyPairList_get_count_by_user example_world |}.

(** Two cells know three instances between them, one of which is also a
    build request, and there is one more build request: four members. With
    a failed cell in between the count raises. *)
Lemma server_group_members_legacy_counts_distinct_uuids_witness :
  eval (_server_group_count_members_by_user_legacy
          (group_world [("cell1", CellValue {[ "i1"; "i2" ]});
                        ("cell2", CellValue {[ "i2"; "i3" ]})]
             ["i3"; "i4"])
          example_context {| members := ["i1"; "i2"; "i3"; "i4"] |} (Some "u"))
    initial_state
  = Ok {| count_project := None;
          count_user := Some [("server_group_members", 4)] |} /\
  eval (_server_group_count_members_by_user_legacy
          (group_world [("cell1", CellValue {[ "i1"; "i2" ]});
                        ("cell2", CellFailure);
                        ("cell3", CellValue {[ "i2"; "i3" ]})]
             ["i3"; "i4"])
          example_context {| members := ["i1"; "i2"; "i3"; "i4"] |} (Some "u"))
    initial_state
  = Raise (TypeError "unsupported operand type(s) for |=").
Proof.
  split.
  - destruct (server_group_members_legacy_counts_distinct_uuids
                (group_world [("cell1", CellValue {[ "i1"; "i2" ]});
                              ("cell2", CellValue {[ "i2"; "i3" ]})]
                   ["i3"; "i4"])
                example_context {| members := ["i1"; "i2"; "i3"; "i4"] |}
                (Some "u") initial_state) as [Hok _].
    unfold eval. rewrite Hok; [by vm_compute|].
    intros H. cbn in H. repeat (apply elem_of_cons in H as [[=]|H]).
    by apply elem_of_nil in H.
  - destruct (server_group_members_legacy_counts_distinct_uuids
                (group_world [("cell1", CellValue {[ "i1"; "i2" ]});
                              ("cell2", CellFailure);
                              ("cell3", CellValue {[ "i2"; "i3" ]})]
                   ["i3"; "i4"])
                example_context {| members := ["i1"; "i2"; "i3"; "i4"] |}
                (Some "u") initial_state) as [_ Hfail].
    unfold eval. rewrite Hfail; [done|]. right. left.
Defined.

(** ** Counts from the API database and placement *)

Lemma dict_update_snoc {V} (d other : dict V) k v :
  dict_update d (other ++ [(k, v)]) = dict_set k v (dict_update d other).
Proof. unfold dict_update. by rewrite fold_left_app. Qed.

(** After [d.update(other)] a key has the value of [other] if [other] has
    it, and its old value otherwise. *)
Lemma dict_get_dict_update {V} (d other : dict V) k :
  NoDup (dict_keys other) ->
  dict_get k (dict_update d other)
  = match dict_get k other with
    | Some v => Some v
    | None => dict_get k d
    end.
Proof.
  induction other as [|[k' v'] other IH] using rev_ind; intros Hnd; [done|].
  unfold dict_keys in Hnd. rewrite fmap_app in Hnd.
  apply NoDup_app in Hnd as (Hnd & Hdisj & _).
  rewrite dict_update_snoc, dict_get_set, IH by done.
  assert (Hget : dict_get k (other ++ [(k', v')])
                 = match dict_get k other with
                   | Some v => Some v
                   | None => if decide (k = k') then Some v' else None
                   end).
  { clear. induction other as [|[k0 v0] other IH]; cbn [app dict_get].
    - by destruct (decide (k = k')).
    - destruct (decide (k = k0)); [done|apply IH]. }
  rewrite Hget. destruct (decide (k = k')) as [->|Hne].
  - assert (dict_get k' other = None) as ->; [|by rewrite decide_True].
    apply dict_get_None. intros Hin. apply (Hdisj _ Hin). left.
  - rewrite decide_False by done. by destruct (dict_get k other).
Qed.

(** X10: the placement count takes the counts of the API database and
    overwrites them, key by key, with those of placement: a count that
    placement reports wins, a count it does not report is kept. The user
    part is returned only when the API database reported one, and then
    placement must report one too, or [KeyError] is raised. *)
Theorem placement_counts_overwrite_api_db_counts
    w context project_id user_id st api_project placement_project :
  let api := InstanceMappingList_get_counts w project_id user_id in
  let placement := get_usages_counts_for_quota w project_id user_id in
  count_project api = Some api_project ->
  count_project placement = Some placement_project ->
  NoDup (dict_keys placement_project) ->
  match count_user api, count_user placement with
  | None, _ =>
      exists project,
        eval (_instances_cores_ram_count_api_db_placement w context project_id
                user_id) st
        = Ok {| count_project := Some project; count_user := None |} /\
        forall k,
          dict_get k project
          = match dict_get k placement_project with
            | Some v => Some v
            | None => dict_get k api_project
            end
  | Some api_user, Some placement_user =>
      NoDup (dict_keys placement_user) ->
      exists project user,
        eval (_instances_cores_ram_count_api_db_placement w context project_id
                user_id) st
        = Ok {| count_project := Some project; count_user := Some user |} /\
        forall k,
          dict_get k project
          = match dict_get k placement_project with
            | Some v => Some v
            | None => dict_get k api_project
            end /\
          dict_get k user
          = match dict_get k placement_user with
            | Some v => Some v
            | None => dict_get k api_user
            end
  | Some _, None =>
      eval (_instances_cores_ram_count_api_db_placement w context project_id
              user_id) st
      = Raise (KeyError "user")
  end.
Proof.
  cbv zeta. intros Hap Hpp Hnd.
  unfold eval, _instances_cores_ram_count_api_db_placement,
    _cores_ram_count_placement, bind, call, ret, raise.
  cbn [fst snd]. rewrite Hap, Hpp.
  destruct (count_user (InstanceMappingList_get_counts w project_id user_id))
    as [api_user|];
    [destruct (count_user (get_usages_counts_for_quota w project_id user_id))
       as [placement_user|]|].
  - intros Hndu. eexists _, _. split; [reflexivity|]. intros k.
    by rewrite !dict_get_dict_update.
  - reflexivity.
  - eexists. split; [reflexivity|]. intros k.
    by rewrite dict_get_dict_update.
Qed.

(** A deployment in which the API database counts 4 instances (and stale
    cores) and placement counts cores and ram. *)
Definition placement_world : World :=
  {| CONF_quota := CONF_quota example_world;
     CONF_quota_count_usage_from_placement := true;
     CONF_api_instance_list_per_project_cells := false;
     Quotas_get_default_class := Quotas_get_default_class example_world;
     Quotas_get_all_class_by_name := Quotas_get_all_class_by_name example_world;
     Quotas_get_all := Quotas_get_all example_world;
     Quotas_get_all_by_project := Quotas_get_all_by_project example_world;
     Quotas_get_all_by_project_and_user :=
       Quotas_get_all_by_project_and_user example_world;
     quota_get_per_project_resources :=
       quota_get_per_project_resources example_world;
     instance_mappings := [];
     InstanceMappingList_get_counts := fun _ _ =>
       {| count_project := Some [("instances", 4); ("cores", 1)];
          count_user := None |};
     InstanceMappingList_get_count_by_uuids_and_user := fun _ _ => 7;
     get_usages_counts_for_quota := fun _ _ =>
       {| count_project := Some [("cores", 16); ("ram", 2048)];
          count_user := Some [("cores", 8); ("ram", 1024)] |};
     CellMappingList_get_by_project_id :=
       CellMappingList_get_by_project_id example_world;
     CELLS := CELLS example_world;
     scatter_gather_get_counts := scatter_gather_get_counts example_world;
     scatter_gather_group_member_uuids :=
       scatter_gather_group_member_uuids example_world;
     BuildRequestList_get_by_filters :=
       BuildRequestList_get_by_filters example_world;
     InstanceGroupList_get_counts := InstanceGroupList_get_counts example_world;
     KeyPairList_get_count_by_user := KeyPairList_get_count_by_user example_world |}.

Lemma placement_counts_overwrite_api_db_counts_witness :
  eval (_instances_cores_ram_count_api_db_placement placement_world
          example_context (Some "p") None) initial_state
  = Ok {| count_project := Some [("instances", 4); ("cores", 16); ("ram", 2048)];
          count_user := None |}.
Proof.
  destruct (placement_counts_overwrite_api_db_counts placement_world
              example_context (Some "p") None initial_state
              [("instances", 4); ("cores", 1)] [("cores", 16); ("ram", 2048)]
              eq_refl eq_refl) as (project & Hrun & _).
  - apply (bool_decide_unpack _). vm_compute. exact I.
  - rewrite Hrun. vm_compute in Hrun. by simplify_eq.
Defined.

(** ** The gate of the server group members *)

(** X11: while the flag is not set, [is_qfd_populated] asks the database
    on every call and stores the answer, so a negative answer is asked
    again the next time. With the flag set,
    [_server_group_count_members_by_user] takes the count of the API
    database with a single call; after a negative answer it logs a warning
    and counts the legacy way. *)
Theorem server_group_members_gate
    w context (group : InstanceGroup) user_id st :
  (UID_QFD_POPULATED_CACHE_ALL st = false ->
   exists populated st',
     eval (_user_id_queued_for_delete_populated w context None) st
     = Ok populated /\
     is_qfd_populated w context st = (Ok populated, st') /\
     UID_QFD_POPULATED_CACHE_ALL st' = populated /\
     UID_QFD_POPULATED_CACHE_BY_PROJECT st'
     = UID_QFD_POPULATED_CACHE_BY_PROJECT st /\
     calls st' = calls st ++ [Call_exists_query None] /\
     (populated = false ->
      _server_group_count_members_by_user w context group user_id st
      = (call (LOG_warning
           "Falling back to legacy quota counting method for server group members") ;;;
         _server_group_count_members_by_user_legacy w context group user_id)
          st' /\
      forall w' context',
        calls (is_qfd_populated w' context' st').2
        = calls st ++ [Call_exists_query None; Call_exists_query None])) /\
  (UID_QFD_POPULATED_CACHE_ALL st = true ->
   _server_group_count_members_by_user w context group user_id st
   = (Ok {| count_project := None;
            count_user :=
              Some [("server_group_members",
                     InstanceMappingList_get_count_by_uuids_and_user w
                       (members group) user_id)] |},
      add_calls [Call_InstanceMappingList_get_count_by_uuids_and_user user_id]
        st)).
Proof.
  split.
  - intros Hall. eexists _, _.
    split; [unfold eval; by rewrite _user_id_queued_for_delete_populated_run|].
    split; [by apply is_qfd_populated_query|].
    repeat (split; [done|]).
    intros Hneg. split.
    + unfold _server_group_count_members_by_user. unfold bind at 1.
      rewrite is_qfd_populated_query by done. by rewrite Hneg.
    + intros w' context'. rewrite is_qfd_populated_query by done.
      simpl. by rewrite <- app_assoc.
  - intros Hall. unfold _server_group_count_members_by_user. unfold bind at 1.
    by rewrite is_qfd_populated_cached.
Qed.

(** With an unmigrated mapping in the database every call asks again. *)
Lemma server_group_members_gate_witness :
  calls (is_qfd_populated unmigrated_world example_context
           (is_qfd_populated unmigrated_world example_context initial_state).2).2
  = [Call_exists_query None; Call_exists_query None] /\
  eval (_server_group_count_members_by_user (group_world [] [])
          example_context {| members := [] |} (Some "u"))
    (is_qfd_populated example_world example_context initial_state).2
  = Ok {| count_project := None;
          count_user := Some [("server_group_members", 7)] |}.
Proof.
  split.
  - destruct (server_group_members_gate unmigrated_world example_context
                {| members := [] |} None initial_state) as [Hclosed _].
    destruct (Hclosed eq_refl)
      as (populated & st' & Hq & Hrun & _ & _ & _ & Hneg).
    assert (populated = false) as ->.
    { vm_compute in Hq. by simplify_eq. }
    destruct (Hneg eq_refl) as [_ Hagain].
    rewrite Hrun. apply Hagain.
  - destruct (server_group_members_gate (group_world [] []) example_context
                {| members := [] |} (Some "u")
                (is_qfd_populated example_world example_context
                   initial_state).2) as [_ Hset].
    unfold eval. by rewrite Hset.
Defined.

(** * The other drivers *)

Lemma fold_left_names {V} (f : string -> V) (resources : list Resource)
    (d : dict V) :
  fold_left (fun d r => dict_set (resource_name r) (f (resource_name r)) d)
    resources d
  = fold_left (fun d k => dict_set k (f k) d) (resource_name <$> resources) d.
Proof.
  revert d. induction resources as [|r rs IH]; intros d; [done|].
  rewrite fmap_cons. cbn [fold_left]. apply IH.
Qed.

(** A dictionary with one value per resource, computed from its name. *)
Lemma dict_get_by_name {V} (f : string -> V) (resources : list Resource) n :
  dict_get n
    (fold_left (fun d r => dict_set (resource_name r) (f (resource_name r)) d)
       resources [])
  = if decide (n ∈ resource_name <$> resources) then Some (f n) else None.
Proof. by rewrite fold_left_names, dict_get_fold_set. Qed.

(** X12: the no-op driver reports every resource of the registry, and
    nothing else, as unlimited: -1 as default, as class quota, as limit, as
    usage when usages are asked for and as remainder when that is asked
    for; every band is from 0 to -1. *)
Theorem noop_driver_reports_unlimited
    context (resources : dict Resource) project_id user_id quota_class
    qc usages remains n :
  let registered := n ∈ resource_name <$> resources.*2 in
  dict_get n (NoopQuotaDriver.get_defaults context resources)
  = (if decide registered then Some (-1) else None) /\
  dict_get n (NoopQuotaDriver.get_class_quotas context resources qc)
  = (if decide registered then Some (-1) else None) /\
  dict_get n
    (NoopQuotaDriver.get_project_quotas context resources project_id
       quota_class usages remains)
  = (if decide registered
     then Some {| QuotaValue.limit := -1;
                  QuotaValue.in_use := if usages then Some (-1) else None;
                  QuotaValue.remains := if remains then Some (-1) else None |}
     else None) /\
  dict_get n
    (NoopQuotaDriver.get_user_quotas context resources project_id user_id
       quota_class usages)
  = (if decide registered
     then Some {| QuotaValue.limit := -1;
                  QuotaValue.in_use := if usages then Some (-1) else None;
                  QuotaValue.remains := None |}
     else None) /\
  dict_get n
    (NoopQuotaDriver.get_settable_quotas context resources project_id user_id)
  = (if decide registered
     then Some {| DbQuotaDriver.minimum := 0; DbQuotaDriver.maximum := -1 |}
     else None).
Proof.
  cbv zeta.
  unfold NoopQuotaDriver.get_defaults, NoopQuotaDriver.get_class_quotas,
    NoopQuotaDriver.get_project_quotas, NoopQuotaDriver.get_user_quotas,
    NoopQuotaDriver._get_noop_quotas, NoopQuotaDriver.get_settable_quotas.
  repeat split.
  - apply (dict_get_by_name (fun _ => -1)).
  - apply (dict_get_by_name (fun _ => -1)).
  - apply (dict_get_by_name (fun _ => QuotaValue.Build_t _ _ _)).
  - apply (dict_get_by_name (fun _ => QuotaValue.Build_t _ _ _)).
  - apply (dict_get_by_name (fun _ => DbQuotaDriver.Build_SettableQuota _ _)).
Qed.

(** The limit and the usage the unified limits driver reports for a name. *)
Definition unified_limit (placement_limits local_limits : gmap string Z)
    (n : string) : Z :=
  match placement_limits !! n with
  | Some limit => limit
  | None => default (-1) (local_limits !! n)
  end.

Definition unified_usage (p_in_use local_in_use : gmap string Z) (n : string)
    : Z :=
  match p_in_use !! n with
  | Some count => count
  | None => default 0 (local_in_use !! n)
  end.

Lemma unified_usage_loop (p_in_use local_in_use : gmap string Z)
    (resources : list Resource) (project_quotas : dict QuotaValue.t) :
  (forall r, r ∈ resources ->
             is_Some (dict_get (resource_name r) project_quotas)) ->
  exists quotas,
    fold_left
      (fun acc resource =>
         match acc with
         | Raises e => Raises e
         | Returns project_quotas =>
             let usage_count := 0 in
             let usage_count :=
               match local_in_use !! resource_name resource with
               | Some n => n
               | None => usage_count
               end in
             let usage_count :=
               match p_in_use !! resource_name resource with
               | Some n => n
               | None => usage_count
               end in
             match dict_get (resource_name resource) project_quotas with
             | Some entry =>
                 Returns
                   (dict_set (resource_name resource)
                      {| QuotaValue.limit := QuotaValue.limit entry;
                         QuotaValue.in_use := Some usage_count;
                         QuotaValue.remains := QuotaValue.remains entry |}
                      project_quotas)
             | None => Raises (DriverError (KeyError (resource_name resource)))
             end
         end)
      resources (Returns project_quotas)
    = Returns quotas /\
    forall n,
      dict_get n quotas
      = if decide (n ∈ resource_name <$> resources)
        then (fun entry =>
                {| QuotaValue.limit := QuotaValue.limit entry;
                   QuotaValue.in_use :=
                     Some (unified_usage p_in_use local_in_use n);
                   QuotaValue.remains := QuotaValue.remains entry |})
               <$> dict_get n project_quotas
        else dict_get n project_quotas.
Proof.
  revert project_quotas.
  induction resources as [|r rs IH]; intros pq Hpresent.
  - exists pq. split; [done|]. intros n.
    rewrite decide_False; [done|apply not_elem_of_nil].
  - cbn [fold_left]. cbv zeta.
    destruct (Hpresent r) as [entry Hentry]; [left|]. rewrite Hentry.
    set (entry' := QuotaValue.Build_t _ _ _).
    destruct (IH (dict_set (resource_name r) entry' pq))
      as (quotas & Hrun & Hget).
    { intros r' Hr'. rewrite dict_get_set.
      case_decide; [by eexists|]. apply Hpresent. by right. }
    exists quotas. split; [exact Hrun|]. intros n. rewrite Hget.
    rewrite fmap_cons, dict_get_set. subst entry'.
    assert (Husage : match p_in_use !! resource_name r with
                     | Some n0 => n0
                     | None =>
                         match local_in_use !! resource_name r with
                         | Some n0 => n0
                         | None => 0
                         end
                     end
                     = unified_usage p_in_use local_in_use (resource_name r)).
    { unfold unified_usage.
      by destruct (p_in_use !! resource_name r),
           (local_in_use !! resource_name r). }
    rewrite Husage. clear Hget Hrun.
    destruct (decide (resource_name r = n)) as [<-|Hne].
    + rewrite (decide_True (P := resource_name r ∈ resource_name r :: _))
        by left.
      rewrite Hentry.
      by destruct (decide (resource_name r ∈ resource_name <$> rs)).
    + destruct (decide (n ∈ resource_name <$> rs)) as [Hin|Hnin].
      * by rewrite (decide_True (P := n ∈ resource_name r :: _)) by by right.
      * rewrite (decide_False (P := n ∈ resource_name r :: _)); [done|].
        rewrite not_elem_of_cons. auto.
Qed.

(** X13: [UnifiedLimitsDriver.get_project_quotas] refuses a quota class
    with [NotImplementedError], and then [remains], before it reads any
    limit. Otherwise it returns an entry for every resource of the registry
    and nothing else: the limit is the project's placement limit, else the
    local default limit, else -1; the usage, when usages are asked for, is
    the placement count, else the local count, else 0. [get_user_quotas]
    is [get_project_quotas] without [remains], whoever the user is. *)
Theorem unified_limits_project_quotas
    ul context (resources : dict Resource) project_id user_id usages remains :
  (forall qc,
      UnifiedLimitsDriver.get_project_quotas ul context resources project_id
        (Some qc) usages remains
      = Raises (NotImplementedError "quota_class")) /\
  UnifiedLimitsDriver.get_project_quotas ul context resources project_id
    None usages true
  = Raises (NotImplementedError "remains") /\
  (exists quotas,
      UnifiedLimitsDriver.get_project_quotas ul context resources project_id
        None usages false = Returns quotas /\
      UnifiedLimitsDriver.get_user_quotas ul context resources project_id
        user_id None usages = Returns quotas /\
      forall n,
        dict_get n quotas
        = if decide (n ∈ resource_name <$> resources.*2)
          then Some
                 {| QuotaValue.limit :=
                      unified_limit
                        (placement_limit_get_legacy_project_limits ul
                           project_id)
                        (local_limit_get_legacy_default_limits ul) n;
                    QuotaValue.in_use :=
                      if usages
                      then Some
                             (unified_usage
                                (placement_limit_get_legacy_counts ul
                                   project_id)
                                (local_limit_get_in_use ul project_id) n)
                      else None;
                    QuotaValue.remains := None |}
          else None).
Proof.
  split; [done|]. split; [done|].
  unfold UnifiedLimitsDriver.get_user_quotas,
    UnifiedLimitsDriver.get_project_quotas. cbv zeta.
  set (limits := fold_left _ resources.*2 []).
  assert (Hlimits : forall n,
             dict_get n limits
             = if decide (n ∈ resource_name <$> resources.*2)
               then Some
                      {| QuotaValue.limit :=
                           unified_limit
                             (placement_limit_get_legacy_project_limits ul
                                project_id)
                             (local_limit_get_legacy_default_limits ul) n;
                         QuotaValue.in_use := None;
                         QuotaValue.remains := None |}
               else None).
  { intros n. subst limits.
    apply (dict_get_by_name
             (fun n =>
                {| QuotaValue.limit :=
                     unified_limit
                       (placement_limit_get_legacy_project_limits ul
                          project_id)
                       (local_limit_get_legacy_default_limits ul) n;
                   QuotaValue.in_use := None;
                   QuotaValue.remains := None |})). }
  destruct usages.
  - destruct (unified_usage_loop
                (placement_limit_get_legacy_counts ul project_id)
                (local_limit_get_in_use ul project_id) resources.*2 limits)
      as (quotas & Hrun & Hget).
    { intros r Hr. rewrite Hlimits. rewrite decide_True; [done|].
      apply list_elem_of_fmap. by exists r. }
    exists quotas. split; [exact Hrun|]. split; [exact Hrun|].
    intros n. rewrite Hget, Hlimits.
    by destruct (decide (n ∈ resource_name <$> resources.*2)).
  - exists limits. split; [done|]. split; [done|]. exact Hlimits.
Qed.

(** X14: the defaults of the unified limits driver are the default
    placement limit of a resource, else its local default limit, else -1,
    for every resource of the registry and nothing else; the class quotas
    are the defaults, whatever the class. *)
Theorem unified_limits_defaults ul context (resources : dict Resource) qc n :
  dict_get n (UnifiedLimitsDriver.get_defaults ul context resources)
  = (if decide (n ∈ resource_name <$> resources.*2)
     then Some (unified_limit (placement_limit_get_legacy_default_limits ul)
                  (local_limit_get_legacy_default_limits ul) n)
     else None) /\
  UnifiedLimitsDriver.get_class_quotas ul context resources qc
  = UnifiedLimitsDriver.get_defaults ul context resources.
Proof.
  split; [|done].
  unfold UnifiedLimitsDriver.get_defaults. cbv zeta.
  rewrite <- (dict_get_by_name
                (unified_limit (placement_limit_get_legacy_default_limits ul)
                   (local_limit_get_legacy_default_limits ul))).
  f_equal. generalize (@nil (string * Z)).
  induction resources.*2 as [|r rs IH]; intros d; [done|].
  cbn [fold_left]. rewrite <- IH. f_equal. unfold unified_limit.
  by destruct (placement_limit_get_legacy_default_limits ul !! _).
Qed.

(** * The engine *)

(** X15: how the engine finds its driver. A driver given at construction
    is always the driver, and nothing is imported. Otherwise the driver is
    imported when the configured name is not the one the engine holds, and
    kept with that name: once a driver has been returned, every later
    resolution under the same configured name returns it again without
    importing (so the warning of the unified limits driver is logged once
    per import, not per call). A failed import raises [ImportError] and
    leaves the engine as it was. *)
Theorem driver_resolution_is_cached :
  (forall cfg self st driver,
      QuotaEngine.__driver_override self = Some driver ->
      QuotaEngine._driver cfg self st = (Returns (Some driver), self, st)) /\
  (forall cfg self st driver self' st',
      QuotaEngine._driver cfg self st = (Returns (Some driver), self', st') ->
      forall cfg' st2,
        QuotaEngine.CONF_quota_driver cfg' = QuotaEngine.CONF_quota_driver cfg ->
        QuotaEngine._driver cfg' self' st2
        = (Returns (Some driver), self', st2)) /\
  (forall cfg self st driver,
      QuotaEngine.__driver_override self = None ->
      QuotaEngine.__driver_name self
      <> Some (QuotaEngine.CONF_quota_driver cfg) ->
      QuotaEngine.importutils_import_object cfg
        (QuotaEngine.CONF_quota_driver cfg) = Some driver ->
      exists self',
        QuotaEngine._driver cfg self st
        = (Returns (Some driver), self',
           match driver with
           | QuotaEngine.UnifiedLimitsDriver =>
               add_calls
                 [LOG_warning
                    "The Unified Limits Quota Driver is experimental and is under active development. Do not use this driver."]
                 st
           | _ => st
           end) /\
        QuotaEngine._resources self' = QuotaEngine._resources self /\
        QuotaEngine.__driver_name self'
        = Some (QuotaEngine.CONF_quota_driver cfg)) /\
  (forall cfg self st e self' st',
      QuotaEngine._driver cfg self st = (Raises e, self', st') ->
      e = ImportError (QuotaEngine.CONF_quota_driver cfg) /\
      self' = self /\ st' = st).
Proof.
  split; [|split; [|split]].
  - intros cfg self st driver Hover. unfold QuotaEngine._driver.
    by rewrite Hover.
  - intros cfg self st driver self' st' Hrun cfg' st2 Hname.
    unfold QuotaEngine._driver in *. rewrite Hname.
    destruct (QuotaEngine.__driver_override self) as [d|] eqn:Hover.
    { simplify_eq. by rewrite Hover. }
    destruct (decide (QuotaEngine.__driver_name self
                      ≠ Some (QuotaEngine.CONF_quota_driver cfg)))
      as [Hne|Heq].
    + destruct (QuotaEngine.importutils_import_object cfg _) as [d|];
        [|done].
      simplify_eq. cbn [QuotaEngine.__driver_override
                          QuotaEngine.__driver_name QuotaEngine.__driver].
      rewrite ?Hover. by rewrite decide_False by (by intros H; apply H).
    + simplify_eq. rewrite ?Hover. rewrite decide_False by done. congruence.
  - intros cfg self st driver Hover Hname Himport.
    unfold QuotaEngine._driver. rewrite Hover, decide_True, Himport by done.
    destruct driver; (eexists; split; [reflexivity|done]).
  - intros cfg self st e self' st' Hrun.
    unfold QuotaEngine._driver in Hrun.
    destruct (QuotaEngine.__driver_override self); [done|].
    destruct (decide _); [|done].
    destruct (QuotaEngine.importutils_import_object cfg _); [done|].
    by simplify_eq.
Qed.

(** A configuration that names the unified limits driver, and one that
    names the same driver but can no longer import anything. *)
Definition unified_config : QuotaEngine.Config :=
  {| QuotaEngine.CONF_quota_driver := "nova.quota.UnifiedLimitsDriver";
     QuotaEngine.importutils_import_object := fun name =>
       if decide (name = "nova.quota.DbQuotaDriver")
       then Some QuotaEngine.DbQuotaDriver
       else if decide (name = "nova.quota.NoopQuotaDriver")
       then Some QuotaEngine.NoopQuotaDriver
       else if decide (name = "nova.quota.UnifiedLimitsDriver")
       then Some QuotaEngine.UnifiedLimitsDriver
       else None |}.

Definition broken_config : QuotaEngine.Config :=
  {| QuotaEngine.CONF_quota_driver := "nova.quota.UnifiedLimitsDriver";
     QuotaEngine.importutils_import_object := fun _ => None |}.

Lemma driver_resolution_is_cached_witness :
  exists engine,
    QuotaEngine._driver unified_config QUOTAS_engine initial_state
    = (Returns (Some QuotaEngine.UnifiedLimitsDriver), engine,
       add_calls
         [LOG_warning
            "The Unified Limits Quota Driver is experimental and is under active development. Do not use this driver."]
         initial_state) /\
    QuotaEngine._driver broken_config engine initial_state
    = (Returns (Some QuotaEngine.UnifiedLimitsDriver), engine, initial_state) /\
    QuotaEngine._driver broken_config QUOTAS_engine initial_state
    = (Raises (ImportError "nova.quota.UnifiedLimitsDriver"), QUOTAS_engine,
       initial_state).
Proof.
  pose proof driver_resolution_is_cached as (_ & Hcached & Himport & _).
  destruct (Himport unified_config QUOTAS_engine initial_state
              QuotaEngine.UnifiedLimitsDriver eq_refl)
    as (engine & Hrun & _); [done|done|].
  exists engine. split; [exact Hrun|]. split; [|done].
  by apply (Hcached _ _ _ _ _ _ Hrun).
Defined.

(** X17: the [resources] property lists the names of the resources the
    engine was constructed with, in ascending order and each once, also
    when several resources bear the same name. *)
Theorem engine_resources_are_sorted_names quota_driver resources st :
  exists engine,
    QuotaEngine.__init__ quota_driver resources st = (Ok engine, st) /\
    StronglySorted String.le (QuotaEngine.resources engine) /\
    NoDup (QuotaEngine.resources engine) /\
    forall n,
      n ∈ QuotaEngine.resources engine
      <-> exists r, r ∈ default [] resources /\ resource_name r = n.
Proof.
  eexists. split; [reflexivity|]. cbn [QuotaEngine._resources].
  unfold QuotaEngine.resources. cbn [QuotaEngine._resources].
  fold (registry_of (default [] resources)).
  split; [apply sorted_StronglySorted|]. split.
  - rewrite sorted_Permutation. apply registry_of_wf.
  - intros n. rewrite elem_of_sorted, <- dict_get_is_Some.
    rewrite dict_get_registry_of.
    generalize (default [] resources). intros rs. split.
    + intros [r Hr].
      assert (Hin : r ∈ filter (fun r => resource_name r = n) rs).
      { destruct (filter _ rs) as [|x l] using rev_ind; [done|].
        rewrite last_snoc in Hr. simplify_eq.
        apply elem_of_app. right. left. }
      apply list_elem_of_filter in Hin as [Hn Hin]. by exists r.
    + intros (r & Hin & Hn).
      assert (Hf : r ∈ filter (fun r => resource_name r = n) rs)
        by by apply list_elem_of_filter.
      destruct (filter _ rs) as [|x l] using rev_ind;
        [by apply elem_of_nil in Hf|].
      rewrite last_snoc. by eexists.
Qed.

(** * Usages *)

Lemma fold_set_fresh (d : dict Z) :
  NoDup (dict_keys d) ->
  fold_left (fun usages (rc : string * Z) => dict_set rc.1 rc.2 usages) d [] = d.
Proof.
  intros Hnd.
  rewrite <- (app_nil_l d) at 2.
  assert (Hgen : forall acc,
             NoDup (dict_keys acc ++ dict_keys d) ->
             fold_left (fun usages (rc : string * Z) => dict_set rc.1 rc.2 usages)
               d acc = acc ++ d).
  { clear Hnd. induction d as [|[k v] d IH]; intros acc Hnd.
    - by rewrite app_nil_r.
    - cbn [fold_left fst snd]. unfold dict_keys in Hnd.
      rewrite fmap_cons in Hnd. cbn [fst] in Hnd.
      rewrite dict_set_fresh.
      + rewrite IH.
        * by rewrite <- app_assoc.
        * unfold dict_keys. rewrite fmap_app, <- app_assoc. done.
      + apply NoDup_app in Hnd as (_ & Hdisj & _).
        intros Hin. apply (Hdisj _ Hin). left. }
  apply Hgen. by rewrite app_nil_l.
Qed.

Lemma dict_in_true {V} k (d : dict V) : k ∈ dict_keys d -> dict_in k d = true.
Proof.
  intros Hin. apply dict_get_is_Some in Hin as [v Hv].
  unfold dict_in. by rewrite Hv.
Qed.

Lemma dict_in_false {V} k (d : dict V) : k ∉ dict_keys d -> dict_in k d = false.
Proof.
  intros Hin. apply dict_get_None in Hin. unfold dict_in. by rewrite Hin.
Qed.

(** X18: the usages of the registered resources. [_get_usages] over the
    registry of [QUOTAS] counts instances, cores and ram with a single call
    of their counter, takes the usages at the user's scope when a user is
    given and at the project's otherwise, reports key pairs and server
    group members as 0 without counting them, counts the server groups,
    and has no usage for the resources that are not countable. *)
Theorem usages_of_the_registered_resources
    w context project_id user_id st counts st2 d n :
  let scope : CountDict -> option (dict Z) :=
    if truthy user_id then count_user else count_project in
  "instances" ∉ quota_get_per_project_resources w ->
  "server_groups" ∉ quota_get_per_project_resources w ->
  _instances_cores_ram_count w context project_id user_id
    (add_calls [Call_count_as_dict "instances" project_id user_id] st)
  = (Ok counts, st2) ->
  scope counts = Some d ->
  NoDup (dict_keys d) ->
  (forall k, k ∈ dict_keys d <-> k ∈ counted_names) ->
  scope (InstanceGroupList_get_counts w project_id user_id)
  = Some [("server_groups", n)] ->
  DbQuotaDriver._get_usages w context QUOTAS_registry project_id user_id st
  = (Ok (d ++ [("key_pairs", 0); ("server_groups", n);
               ("server_group_members", 0)]),
     add_calls
       [Call_count_as_dict "server_groups" project_id user_id;
        Call_InstanceGroupList_get_counts project_id user_id] st2).
Proof.
  cbv zeta. intros Hinst Hsg Hcount Hd Hnd Hkeys Hgroups.
  assert (Hin : forall k, k ∈ counted_names -> dict_in k d = true).
  { intros k Hk. apply dict_in_true. by apply Hkeys. }
  assert (Hout : forall k (rest : dict Z),
             k ∉ counted_names -> k ∉ dict_keys rest ->
             dict_in k (d ++ rest) = false /\
             forall v, dict_set k v (d ++ rest) = (d ++ rest) ++ [(k, v)]).
  { intros k rest Hk Hrest.
    assert (Hnot : k ∉ dict_keys (d ++ rest)).
    { unfold dict_keys in *. rewrite fmap_app, elem_of_app.
      intros [Hd'|Hr]; [by apply Hk, Hkeys|done]. }
    split; [by apply dict_in_false|]. intros v. by apply dict_set_fresh. }
  unfold DbQuotaDriver._get_usages.
  change (QUOTAS_registry.*2) with QUOTAS_resources.
  unfold QUOTAS_resources. cbn [for_each].
  (* instances *)
  unfold bind at 1. cbn [countable resource_name dict_in dict_get].
  rewrite (bool_decide_eq_false_2 ("instances" ∈ ["key_pairs"; _]))
    by (by apply (bool_decide_unpack _)).
  rewrite (bool_decide_eq_false_2 _ Hinst).
  unfold bind at 1. unfold bind at 1. unfold DbQuotaDriver.invoke_count_as_dict at 1.
  unfold bind at 1. unfold call at 1.
  cbn [default from_option id resource_name].
  fold (add_calls [Call_count_as_dict "instances" project_id user_id] st).
  rewrite Hcount. unfold ret at 1. unfold bind at 1.
  assert (Hscope : forall c : CountDict,
             (if String.eqb (if truthy user_id then "user" else "project")
                   "user"
              then count_user c else count_project c)
             = (if truthy user_id then count_user else count_project) c).
  { intros c. by destruct (truthy user_id). }
  rewrite Hscope, Hd. unfold ret at 1. unfold ret at 1.
  rewrite fold_set_fresh by done.
  (* cores, ram *)
  unfold bind at 1. cbn [countable resource_name].
  rewrite (Hin "cores") by (right; left). unfold ret at 1.
  unfold bind at 1. cbn [countable resource_name].
  rewrite (Hin "ram") by (right; right; left). unfold ret at 1.
  (* the four absolute resources *)
  do 4 (unfold bind at 1; cbn [countable]; unfold ret at 1).
  (* key_pairs *)
  destruct (Hout "key_pairs" []) as [Hkp_in Hkp_set];
    [by apply (bool_decide_unpack _)|apply not_elem_of_nil|].
  rewrite app_nil_r in Hkp_in. setoid_rewrite app_nil_r in Hkp_set.
  unfold bind at 1. cbn [countable resource_name]. rewrite Hkp_in.
  rewrite (bool_decide_eq_true_2 ("key_pairs" ∈ ["key_pairs"; _])) by left.
  unfold ret at 1. rewrite Hkp_set.
  (* server_groups *)
  destruct (Hout "server_groups" [("key_pairs", 0)]) as [Hsg_in Hsg_set];
    [by apply (bool_decide_unpack _)|by apply (bool_decide_unpack _)|].
  unfold bind at 1. cbn [countable resource_name]. rewrite Hsg_in.
  rewrite (bool_decide_eq_false_2 ("server_groups" ∈ ["key_pairs"; _]))
    by (by apply (bool_decide_unpack _)).
  rewrite (bool_decide_eq_false_2 _ Hsg).
  unfold bind at 1. unfold bind at 1. unfold DbQuotaDriver.invoke_count_as_dict at 1.
  unfold bind at 1. unfold call at 1.
  cbn [default from_option id resource_name].
  unfold _server_group_count at 1. unfold bind at 1. unfold call at 1.
  unfold ret at 1. unfold ret at 1. unfold bind at 1.
  rewrite Hscope, Hgroups. unfold ret at 1. unfold ret at 1.
  cbn [fold_left fst snd]. rewrite Hsg_set, <- app_assoc. cbn [app].
  (* server_group_members *)
  destruct (Hout "server_group_members"
              [("key_pairs", 0); ("server_groups", n)]) as [Hm_in Hm_set];
    [by apply (bool_decide_unpack _)|by apply (bool_decide_unpack _)|].
  unfold bind at 1. cbn [countable resource_name]. rewrite Hm_in.
  rewrite (bool_decide_eq_true_2 ("server_group_members" ∈ ["key_pairs"; _]))
    by (right; left).
  unfold ret at 1. rewrite Hm_set, <- app_assoc. cbn [app].
  (* the four deprecated resources *)
  do 4 (unfold bind at 1; cbn [countable]; unfold ret at 1).
  unfold ret. f_equal.
  destruct st2. unfold add_calls. simpl. by rewrite <- app_assoc.
Qed.

(** In the example the user ["u"] uses 2 instances, 3 cores and 1024 MB in
    the two cells that answer, and has one server group. *)
Lemma usages_of_the_registered_resources_witness :
  eval (DbQuotaDriver._get_usages example_world example_context
          QUOTAS_registry (Some "p") (Some "u")) initial_state
  = Ok [("instances", 2); ("cores", 3); ("ram", 1024); ("key_pairs", 0);
        ("server_groups", 1); ("server_group_members", 0)] /\
  calls (DbQuotaDriver._get_usages example_world example_context
           QUOTAS_registry (Some "p") (Some "u") initial_state).2
  = [Call_count_as_dict "instances" (Some "p") (Some "u");
     Call_scatter_gather_cells (Some "p") (Some "u");
     Call_count_as_dict "server_groups" (Some "p") (Some "u");
     Call_InstanceGroupList_get_counts (Some "p") (Some "u")].
Proof.
  unfold eval.
  rewrite (usages_of_the_registered_resources example_world example_context
             (Some "p") (Some "u") initial_state
             {| count_project :=
                  Some [("instances", 2); ("cores", 18); ("ram", 1024)];
                count_user :=
                  Some [("instances", 2); ("cores", 3); ("ram", 1024)] |}
             (add_calls [Call_count_as_dict "instances" (Some "p") (Some "u");
                         Call_scatter_gather_cells (Some "p") (Some "u")]
                initial_state)
             [("instances", 2); ("cores", 3); ("ram", 1024)] 1).
  - by split.
  - by apply (bool_decide_unpack _).
  - by apply (bool_decide_unpack _).
  - by vm_compute.
  - reflexivity.
  - apply (bool_decide_unpack _). vm_compute. exact I.
  - intros k. unfold counted_names, dict_keys. simpl. done.
  - reflexivity.
Defined.

(** ** What [OverQuota] carries *)

(** X19: an [OverQuota] raised by [limit_check_project_and_user] carries
    the sorted, non-empty list of the names over their limit, no usages,
    and as headroom of each of these names the limit that is reported for
    it in [quotas]: the limit itself, not what is left of it. *)
Theorem limit_check_project_and_user_headroom_is_the_limit
    w context resources (project_values user_values : dict Z)
    project_id user_id st :
  registry_wf resources ->
  NoDup (dict_keys project_values) -> NoDup (dict_keys user_values) ->
  Forall (fun kv => checkable resources kv.1) project_values ->
  Forall (fun kv => checkable resources kv.1) user_values ->
  Forall (fun kv => 0 <= kv.2) project_values ->
  Forall (fun kv => 0 <= kv.2) user_values ->
  project_values <> [] \/ user_values <> [] ->
  exists r args st',
    DbQuotaDriver.limit_check_project_and_user w context resources
      (Some project_values) (Some user_values) project_id user_id st
    = (r, args, st') /\
    forall overs quotas usages headroom,
      r = Raise (OverQuota overs quotas usages headroom) ->
      usages = [] /\ overs <> [] /\ StronglySorted String.le overs /\
      forall k, k ∈ overs ->
                is_Some (dict_get k quotas) /\
                dict_get k headroom = dict_get k quotas.
Proof.
  intros Hwf Hpk Huk Hpc Huc Hpn Hun Hsome.
  destruct (limit_check_project_and_user_run w context resources
              project_values user_values project_id user_id
              Hwf Hpc Huc Hpn Hun Hsome st) as [st' Hrun].
  eexists _, _, st'. split; [exact Hrun|].
  intros overs quotas usages headroom Hr.
  unfold lcpu_outcome in Hr. cbv zeta in Hr.
  assert (Hsorted_ne : forall l : list string, l <> [] -> sorted l <> []).
  { intros l Hl Hs. apply Hl. apply nil_iff_no_elem. intros k Hk.
    apply elem_of_sorted in Hk. rewrite Hs in Hk.
    by apply elem_of_nil in Hk. }
  destruct (decide (_ = [])) as [Hmerged|Hmerged] in Hr.
  - destruct (decide (_ = [])) as [Hboth|Hboth] in Hr; [done|].
    assert (Hreq : forall k,
               k ∈ scoped_overs
                     (limits_at w context resources
                        (elements (all_keys project_values user_values))
                        (effective_id project_id (ctx_project_id context))
                        None)
                     (limits_at w context resources
                        (elements (all_keys project_values user_values))
                        (effective_id project_id (ctx_project_id context))
                        (effective_id user_id (ctx_user_id context)))
                     (filter (fun kv => kv.1 ∈ dict_keys user_values)
                        project_values)
                     (filter (fun kv => kv.1 ∈ dict_keys project_values)
                        user_values)
                     (dict_keys
                        (filter (fun kv => kv.1 ∈ dict_keys project_values)
                           user_values)) ->
               k ∈ elements (all_keys project_values user_values)).
    { intros k Hk. apply list_elem_of_filter in Hk as [_ Hk].
      apply requested_iff. right.
      unfold dict_keys in Hk.
      apply list_elem_of_fmap in Hk as ([k' v] & -> & Hkv).
      apply list_elem_of_filter in Hkv as [_ Hkv].
      apply list_elem_of_fmap. by exists (k', v). }
    destruct (over_user_only _ _ _ _ _) in Hr;
      injection Hr as <- <- <- <-;
      (split; [done|]; split; [by apply Hsorted_ne|];
       split; [apply sorted_StronglySorted|];
       intros k Hk; apply (proj1 (elem_of_sorted _ _)) in Hk).
    + assert (Hpresent := user_quotas_present w context resources
                            project_values user_values project_id user_id
                            Hpc Huc k (Hreq k Hk)).
      split; [exact Hpresent|]. by apply dict_get_limits_dict.
    + assert (Hpresent := quotas_present w context resources
                            project_values user_values project_id
                            Hpc Huc k (Hreq k Hk)).
      split; [exact Hpresent|]. by apply dict_get_limits_dict.
  - injection Hr as <- <- <- <-.
    split; [done|]. split; [by apply Hsorted_ne|].
    split; [apply sorted_StronglySorted|].
    intros k Hk. apply (proj1 (elem_of_sorted _ _)) in Hk.
    assert (Hreq : k ∈ elements (all_keys project_values user_values)).
    { apply merged_values_requested; [done|].
      unfold dict_keys. apply list_elem_of_fmap in Hk as (kv & -> & Hkv).
      apply list_elem_of_filter in Hkv as [_ Hkv].
      apply list_elem_of_fmap. by exists kv. }
    assert (Hpresent := merged_quotas_present w context resources
                          project_values user_values project_id user_id
                          Hwf Hpc Huc k Hreq).
    split; [exact Hpresent|]. by apply dict_get_limits_dict.
Qed.

(** Three instances for the project and for the user against a project
    limit of two. *)
Lemma limit_check_project_and_user_headroom_is_the_limit_witness :
  exists headroom,
    (DbQuotaDriver.limit_check_project_and_user example_world example_context
       QUOTAS_registry (Some [("instances", 3)]) (Some [("instances", 3)])
       None None initial_state).1.1
    = Raise (OverQuota ["instances"] [("instances", 2)] [] headroom) /\
    dict_get "instances" headroom = Some 2.
Proof.
  destruct (limit_check_project_and_user_headroom_is_the_limit example_world
              example_context QUOTAS_registry [("instances", 3)]
              [("instances", 3)] None None initial_state)
    as (r & args & st' & Hrun & Hpayload).
  - apply registry_of_wf.
  - apply (bool_decide_unpack _). vm_compute. exact I.
  - apply (bool_decide_unpack _). vm_compute. exact I.
  - each_entry ltac:(by eexists).
  - each_entry ltac:(by eexists).
  - each_entry ltac:(simpl; lia).
  - each_entry ltac:(simpl; lia).
  - by left.
  - rewrite Hrun. vm_compute in Hrun.
    injection Hrun as Hr _ _. symmetry in Hr.
    destruct (Hpayload _ _ _ _ Hr) as (_ & _ & _ & Hhead).
    destruct (Hhead "instances") as [_ Hget]; [left|].
    eexists. split; [exact Hr|]. exact Hget.
Defined.

(** ** Settable quotas of a registry without countable resources *)

Lemma _get_usages_nothing_countable w context resources project_id user_id st :
  Forall (fun kr : string * Resource => countable kr.2 = None) resources ->
  DbQuotaDriver._get_usages w context resources project_id user_id st
  = (Ok [], st).
Proof.
  intros Hnone. unfold DbQuotaDriver._get_usages.
  induction Hnone as [|kr resources Hkr _ IH]; [done|].
  rewrite fmap_cons. cbn [for_each]. unfold bind at 1.
  rewrite Hkr. unfold ret at 1. exact IH.
Qed.

(** X20: usages are attached to the quotas only when the dictionary of
    usages is not empty. For a registry without countable resources the
    usages are empty, no entry has an ['in_use'], and
    [get_settable_quotas], which reads it, raises [KeyError] for a user and
    for a project alike; for an empty registry it returns the empty
    dictionary. *)
Theorem get_settable_quotas_without_countable_resources
    w context resources project_id user_id st :
  registry_wf resources ->
  Forall (fun kr : string * Resource => countable kr.2 = None) resources ->
  eval (DbQuotaDriver.get_settable_quotas w context resources project_id
          user_id) st
  = if decide (resources = []) then Ok [] else Raise (KeyError "in_use").
Proof.
  intros Hwf Hnone.
  assert (Husages : forall uid st,
             eval (DbQuotaDriver._get_usages w context resources project_id
                     uid) st = Ok []).
  { intros uid st0. unfold eval.
    by rewrite _get_usages_nothing_countable. }
  unfold DbQuotaDriver.get_settable_quotas. apply eval_of_wp.
  apply wp_bind, wp_call. apply wp_bind.
  eapply wp_of_eval.
  { apply (eval_get_project_quotas_usages w context resources project_id
             None true _ [] _ Hwf (Husages None)). }
  intros st1.
  destruct (truthy user_id).
  - apply wp_bind, wp_call. apply wp_bind.
    eapply wp_of_eval.
    { apply (eval_get_user_quotas_usages w context resources project_id
               user_id None _ _ [] _ Hwf (Husages user_id)). }
    intros st2. destruct resources as [|[k r] resources];
      [by rewrite decide_True|].
    rewrite decide_False by done.
    rewrite !fmap_cons. cbn [for_each snd]. unfold wp, bind at 1.
    unfold bind at 1. unfold getitem. cbn [dict_get].
    rewrite decide_True by done. reflexivity.
  - destruct resources as [|[k r] resources]; [by rewrite decide_True|].
    rewrite decide_False by done.
    rewrite !fmap_cons. cbn [for_each snd]. reflexivity.
Qed.

(** An engine of absolute resources only. *)
Lemma get_settable_quotas_without_countable_resources_witness :
  eval (DbQuotaDriver.get_settable_quotas example_world example_context
          (registry_of [AbsoluteResource "fixed_ips" None;
                        AbsoluteResource "floating_ips" None])
          (Some "p") None) initial_state
  = Raise (KeyError "in_use").
Proof.
  apply (get_settable_quotas_without_countable_resources example_world
           example_context
           (registry_of [AbsoluteResource "fixed_ips" None;
                         AbsoluteResource "floating_ips" None])
           (Some "p") None initial_state).
  - apply registry_of_wf.
  - by each_entry idtac.
Defined.

(** X21: an engine that holds no driver and is configured with the unified
    limits driver imports it on the first call, which logs the driver's
    warning once; that call and every later one under the same
    configuration answer with the unified limits driver's method on the
    engine's registry, and later calls log nothing. *)
Theorem engine_imports_the_unified_limits_driver_once
    w ul cfg self context project_id usages st :
  QuotaEngine.__driver_override self = None ->
  QuotaEngine.__driver_name self <> Some (QuotaEngine.CONF_quota_driver cfg) ->
  QuotaEngine.importutils_import_object cfg (QuotaEngine.CONF_quota_driver cfg)
  = Some QuotaEngine.UnifiedLimitsDriver ->
  exists self',
    QuotaEngine.get_project_quotas w ul cfg self context project_id None
      usages false st
    = (UnifiedLimitsDriver.get_project_quotas ul context
         (QuotaEngine._resources self) project_id None usages false,
       self',
       add_calls
         [LOG_warning
            "The Unified Limits Quota Driver is experimental and is under active development. Do not use this driver."]
         st) /\
    forall w' ul' context' project_id' quota_class' usages' remains' st2,
      QuotaEngine.get_project_quotas w' ul' cfg self' context' project_id'
        quota_class' usages' remains' st2
      = (UnifiedLimitsDriver.get_project_quotas ul' context'
           (QuotaEngine._resources self) project_id' quota_class' usages'
           remains',
         self', st2) /\
      QuotaEngine.get_reserved cfg self' st2 = (Returns 0, self', st2).
Proof.
  intros Hover Hname Himport.
  eexists. split.
  - unfold QuotaEngine.get_project_quotas, QuotaEngine.call_driver,
      QuotaEngine._driver.
    rewrite Hover, decide_True, Himport by done. reflexivity.
  - intros w' ul' context' project_id' quota_class' usages' remains' st2.
    unfold QuotaEngine.get_project_quotas, QuotaEngine.get_reserved,
      QuotaEngine.call_driver, QuotaEngine._driver.
    cbn [QuotaEngine.__driver_override QuotaEngine.__driver_name
           QuotaEngine.__driver QuotaEngine._resources].
    rewrite ?Hover. by rewrite decide_False by (by intros H; apply H).
Qed.

(** The engine of [QUOTAS] with placement limits of 8 cores for every
    project: the first call reports the limit and warns, the reserved
    amount is then 0 without a second warning. *)
Definition cores_limits : Limits :=
  {| local_limit_get_legacy_default_limits := {[ "key_pairs" := 100 ]};
     placement_limit_get_legacy_default_limits := ∅;
     placement_limit_get_legacy_project_limits := fun _ => {[ "cores" := 8 ]};
     local_limit_get_in_use := fun _ => ∅;
     placement_limit_get_legacy_counts := fun _ => {[ "cores" := 3 ]} |}.

Lemma engine_imports_the_unified_limits_driver_once_witness :
  exists engine quotas,
    QuotaEngine.get_project_quotas example_world cores_limits unified_config
      QUOTAS_engine example_context (Some "p") None true false initial_state
    = (Returns quotas, engine,
       add_calls
         [LOG_warning
            "The Unified Limits Quota Driver is experimental and is under active development. Do not use this driver."]
         initial_state) /\
    dict_get "cores" quotas
    = Some {| QuotaValue.limit := 8; QuotaValue.in_use := Some 3;
              QuotaValue.remains := None |} /\
    dict_get "key_pairs" quotas
    = Some {| QuotaValue.limit := 100; QuotaValue.in_use := Some 0;
              QuotaValue.remains := None |} /\
    dict_get "fixed_ips" quotas
    = Some {| QuotaValue.limit := -1; QuotaValue.in_use := Some 0;
              QuotaValue.remains := None |} /\
    QuotaEngine.get_reserved unified_config engine initial_state
    = (Returns 0, engine, initial_state).
Proof.
  destruct (engine_imports_the_unified_limits_driver_once example_world
              cores_limits unified_config QUOTAS_engine example_context
              (Some "p") true initial_state eq_refl)
    as (engine & Hfirst & Hlater); [done|done|].
  exists engine.
  destruct (Hlater example_world cores_limits example_context (Some "p") None
              true false initial_state) as [_ Hreserved].
  eexists. split; [rewrite Hfirst; vm_compute; reflexivity|].
  split; [by vm_compute|]. split; [by vm_compute|]. split; [by vm_compute|].
  exact Hreserved.
Defined.

(** ** The band of settable quotas, with the counts it takes *)

Lemma fetch_unless_passed (passed : option (gmap string Z)) c
    (stored : gmap string Z) st :
  (if map_truthy passed then ret (default ∅ passed)
   else call c ;;; ret stored) st
  = (Ok (passed_or passed stored), add_calls (lookup_unless_passed passed c) st).
Proof.
  unfold passed_or, lookup_unless_passed.
  destruct (map_truthy passed); [by rewrite add_calls_nil|done].
Qed.

(** [get_project_quotas] with usages: the stored quotas are looked up
    unless passed, then the usages of the project are counted, then the
    entries are built; an exception of the count is passed on. *)
Lemma get_project_quotas_usages_run w context resources project_id
    quota_class remains project_quotas st :
  registry_wf resources ->
  DbQuotaDriver.get_project_quotas w context resources project_id quota_class
    true remains project_quotas st
  = match DbQuotaDriver._get_usages w context resources project_id None
            (add_calls
               (lookup_unless_passed project_quotas
                  (Call_Quotas_get_all_by_project project_id)) st) with
    | (Ok pu, st2) =>
        (Ok ((fun r =>
                (resource_name r,
                 quota_value_of w context project_id
                   (passed_or project_quotas
                      (Quotas_get_all_by_project w project_id))
                   quota_class (Some pu) remains r))
               <$> resources.*2),
         add_calls
           (class_lookups context project_id quota_class
            ++ [Call_Quotas_get_default_class]
            ++ (if remains then [Call_Quotas_get_all project_id] else []))
           st2)
    | (Raise e, st2) => (Raise e, st2)
    end.
Proof.
  intros Hwf. unfold DbQuotaDriver.get_project_quotas.
  unfold bind at 1. rewrite fetch_unless_passed.
  unfold bind at 1.
  destruct (DbQuotaDriver._get_usages _ _ _ _ _ _) as [[pu|e] st2]; [|done].
  by rewrite _process_quotas_run.
Qed.

Lemma get_user_quotas_usages_run w context resources project_id user_id
    quota_class project_quotas user_quotas st :
  registry_wf resources ->
  DbQuotaDriver.get_user_quotas w context resources project_id user_id
    quota_class true project_quotas user_quotas st
  = match DbQuotaDriver._get_usages w context resources project_id user_id
            (add_calls
               (lookup_unless_passed user_quotas
                  (Call_Quotas_get_all_by_project_and_user project_id user_id)
                ++ lookup_unless_passed project_quotas
                     (Call_Quotas_get_all_by_project project_id)) st) with
    | (Ok uu, st2) =>
        (Ok ((fun r =>
                (resource_name r,
                 quota_value_of w context project_id
                   (passed_or user_quotas
                      (Quotas_get_all_by_project_and_user w project_id user_id)
                    ∪ passed_or project_quotas
                        (Quotas_get_all_by_project w project_id))
                   quota_class (Some uu) false r))
               <$> resources.*2),
         add_calls
           (class_lookups context project_id quota_class
            ++ [Call_Quotas_get_default_class]) st2)
    | (Raise e, st2) => (Raise e, st2)
    end.
Proof.
  intros Hwf. unfold DbQuotaDriver.get_user_quotas.
  unfold bind at 1. rewrite fetch_unless_passed.
  unfold bind at 1. rewrite fetch_unless_passed.
  rewrite add_calls_app, user_quotas_fill.
  unfold bind at 1.
  destruct (DbQuotaDriver._get_usages _ _ _ _ _ _) as [[uu|e] st2]; [|done].
  rewrite _process_quotas_run by done. by rewrite app_nil_r.
Qed.

(** The count of the usages of the project as [get_settable_quotas] takes
    it: [_get_usages] for the project, run in the state the process is in
    once the stored quotas of the project have been looked up. *)
Definition settable_project_usages (w : World) (context : RequestContext)
    (resources : dict Resource) (project_id : option string)
    (st : ProcState) : result (dict Z) * ProcState :=
  DbQuotaDriver._get_usages w context resources project_id None
    (add_calls
       ([Call_Quotas_get_all_by_project project_id]
        ++ lookup_unless_passed (Some (Quotas_get_all_by_project w project_id))
             (Call_Quotas_get_all_by_project project_id))
       st).

(** The count of the usages of the user, which follows once the quotas of
    the project have been built and the stored limits of the user have been
    looked up; [st] is the state the count of the project has left. *)
Definition settable_user_usages (w : World) (context : RequestContext)
    (resources : dict Resource) (project_id user_id : option string)
    (st : ProcState) : result (dict Z) * ProcState :=
  DbQuotaDriver._get_usages w context resources project_id user_id
    (add_calls
       (class_lookups context project_id None
        ++ [Call_Quotas_get_default_class; Call_Quotas_get_all project_id]
        ++ [Call_Quotas_get_all_by_project_and_user project_id user_id]
        ++ lookup_unless_passed
             (Some (Quotas_get_all_by_project_and_user w project_id user_id))
             (Call_Quotas_get_all_by_project_and_user project_id user_id)
        ++ lookup_unless_passed (Some (Quotas_get_all_by_project w project_id))
             (Call_Quotas_get_all_by_project project_id))
       st).

(** The entry of a resource in the project quotas that
    [get_settable_quotas] builds from the counts [pu]. *)
Definition settable_project_entry (w : World) (context : RequestContext)
    (project_id : option string) (pu : dict Z) (r : Resource)
    : QuotaValue.t :=
  {| QuotaValue.limit := project_limit w context project_id r;
     QuotaValue.in_use :=
       if dict_truthy pu
       then Some (default 0 (dict_get (resource_name r) pu))
       else None;
     QuotaValue.remains :=
       Some (project_limit w context project_id r
             - granted (Quotas_get_all w project_id) (resource_name r)) |}.

(** The loop over entries without ['in_use'] stops at the first one. *)
Lemma settable_loop_without_usages {V} (resources : dict Resource)
    (entry : Resource -> V)
    (body : string * V -> dict DbQuotaDriver.SettableQuota
            -> M (dict DbQuotaDriver.SettableQuota)) st :
  (forall r acc st,
      r ∈ resources.*2 ->
      body (resource_name r, entry r) acc st
      = (Raise (KeyError "in_use"), st)) ->
  (for_each ((fun r => (resource_name r, entry r)) <$> resources.*2) body []
     st).1
  = if decide (resources = []) then Ok [] else Raise (KeyError "in_use").
Proof.
  intros Hbody. destruct resources as [|[k r] resources]; [done|].
  rewrite decide_False by done. rewrite !fmap_cons. cbn [for_each].
  unfold bind. rewrite Hbody; [done|]. cbn [fmap list_fmap snd]. left.
Qed.

(** C5, as the code has it. [get_settable_quotas] takes the usage counts of
    the project and, for a user, of the user; an exception of a count is
    passed on. What remains of a resource is the project limit minus the
    sum of the per-user limits stored in the project, by plain subtraction.
    For a user whose counts are not empty the minimum is the user's count
    and the maximum is [_sum_quota_values] of what remains and the user's
    stored limit (0 when there is none); for a project whose counts are not
    empty the minimum is the larger of [_sub_quota_values limit remains]
    and the project's count, and the maximum is -1. With empty counts the
    entries carry no ['in_use'] and the function raises [KeyError], unless
    the registry is empty. The project quotas it computes on the way carry
    that limit and that remainder. *)
Theorem get_settable_quotas_band w context resources project_id user_id st :
  registry_wf resources ->
  let project_run :=
    settable_project_usages w context resources project_id st in
  let user_run :=
    settable_user_usages w context resources project_id user_id
      project_run.2 in
  eval (DbQuotaDriver.get_project_quotas w context resources project_id None
          true true (Some (Quotas_get_all_by_project w project_id)))
    (add_calls [Call_Quotas_get_all_by_project project_id] st)
  = match project_run.1 with
    | Ok pu =>
        Ok ((fun r =>
               (resource_name r,
                settable_project_entry w context project_id pu r))
              <$> resources.*2)
    | Raise e => Raise e
    end /\
  eval (DbQuotaDriver.get_settable_quotas w context resources project_id
          user_id) st
  = match project_run.1 with
    | Raise e => Raise e
    | Ok pu =>
        if truthy user_id then
          match user_run.1 with
          | Raise e => Raise e
          | Ok uu =>
              if dict_truthy uu
              then Ok ((fun r =>
                          (resource_name r,
                           user_band w context project_id user_id uu r))
                         <$> resources.*2)
              else if decide (resources = []) then Ok []
                   else Raise (KeyError "in_use")
          end
        else
          if dict_truthy pu
          then Ok ((fun r =>
                      (resource_name r,
                       project_band w context project_id pu r))
                     <$> resources.*2)
          else if decide (resources = []) then Ok []
               else Raise (KeyError "in_use")
    end.
Proof.
  intros Hwf project_run user_run.
  assert (Hnd : NoDup (resource_name <$> resources.*2)).
  { rewrite registry_wf_names by done. apply Hwf. }
  assert (Hproject :
            DbQuotaDriver.get_project_quotas w context resources project_id
              None true true (Some (Quotas_get_all_by_project w project_id))
              (add_calls [Call_Quotas_get_all_by_project project_id] st)
            = match project_run with
              | (Ok pu, st2) =>
                  (Ok ((fun r =>
                          (resource_name r,
                           settable_project_entry w context project_id pu r))
                         <$> resources.*2),
                   add_calls
                     (class_lookups context project_id None
                      ++ [Call_Quotas_get_default_class;
                          Call_Quotas_get_all project_id]) st2)
              | (Raise e, st2) => (Raise e, st2)
              end).
  { rewrite get_project_quotas_usages_run by done.
    rewrite add_calls_app. fold (settable_project_usages w context resources
                                   project_id st).
    fold project_run. destruct project_run as [[pu|e] st2]; [|done].
    by rewrite passed_or_same. }
  split.
  { unfold eval. rewrite Hproject. by destruct project_run as [[pu|e] st2]. }
  unfold DbQuotaDriver.get_settable_quotas, eval.
  unfold bind at 1. unfold call at 1.
  fold (add_calls [Call_Quotas_get_all_by_project project_id] st).
  unfold bind at 1. rewrite Hproject.
  subst user_run. destruct project_run as [[pu|e] st2]; [|done].
  cbn [fst snd].
  destruct (truthy user_id) eqn:Htruthy.
  - unfold bind at 1. unfold call at 1.
    fold (add_calls [Call_Quotas_get_all_by_project_and_user project_id
                       user_id]
            (add_calls
               (class_lookups context project_id None
                ++ [Call_Quotas_get_default_class;
                    Call_Quotas_get_all project_id]) st2)).
    unfold bind at 1. rewrite get_user_quotas_usages_run by done.
    rewrite !add_calls_app.
    unfold settable_user_usages.
    rewrite <- !app_assoc. cbn [app].
    destruct (DbQuotaDriver._get_usages _ _ _ _ _ _) as [[uu|e] st3]; [|done].
    cbn [fst snd]. rewrite !passed_or_same.
    destruct (dict_truthy uu) eqn:Huu.
    + rewrite for_each_fmap.
      rewrite (for_each_keyed resource_name
                 (user_band w context project_id user_id uu)); [done|done|].
      intros r acc Hr. cbn [fst snd]. unfold bind at 1.
      unfold getitem.
      rewrite (dict_get_keyed resource_name _ resources.*2 r Hnd Hr).
      unfold ret at 1. cbn [settable_project_entry QuotaValue.remains].
      unfold bind at 1.
      unfold ret at 1. unfold quota_value_of. cbn [QuotaValue.in_use].
      rewrite Huu. reflexivity.
    + apply (settable_loop_without_usages resources
               (fun r => quota_value_of w context project_id _ None (Some uu)
                           false r)).
      intros r acc st0 Hr. unfold bind at 1. unfold getitem.
      rewrite (dict_get_keyed resource_name _ resources.*2 r Hnd Hr).
      unfold ret at 1. cbn [settable_project_entry QuotaValue.remains].
      unfold bind at 1. unfold ret at 1.
      unfold quota_value_of. cbn [QuotaValue.in_use]. rewrite Huu.
      reflexivity.
  - destruct (dict_truthy pu) eqn:Hpu.
    + rewrite for_each_fmap.
      rewrite (for_each_keyed resource_name
                 (project_band w context project_id pu)); [done|done|].
      intros r acc Hr. unfold settable_project_entry. cbn [fst snd].
      cbn [QuotaValue.remains QuotaValue.in_use QuotaValue.limit].
      unfold bind at 1. unfold ret at 1. rewrite Hpu.
      reflexivity.
    + apply (settable_loop_without_usages resources
               (settable_project_entry w context project_id pu)).
      intros r acc st0 _. unfold settable_project_entry. rewrite Hpu.
      reflexivity.
Qed.

(** The project of the example: a limit of 20 cores, two users granted 5
    each, the user ["u"] without a stored limit. 10 cores remain; ["u"],
    who uses 3, can be set from 3 to 10, and the project, which uses 18,
    from 18 upwards. The same holds where usage is to be counted from
    placement and the project is not migrated, so that every count asks the
    database and falls back to the cells. Where the count of the user
    raises, [get_settable_quotas] raises the same. *)
Lemma get_settable_quotas_band_witness :
  returned_entry "cores"
    (eval (DbQuotaDriver.get_project_quotas example_world example_context
             QUOTAS_registry (Some "p") None true true
             (Some (Quotas_get_all_by_project example_world (Some "p"))))
       (add_calls [Call_Quotas_get_all_by_project (Some "p")] initial_state))
  = Some {| QuotaValue.limit := 20; QuotaValue.in_use := Some 18;
            QuotaValue.remains := Some 10 |} /\
  returned_entry "cores"
    (eval (DbQuotaDriver.get_settable_quotas example_world example_context
             QUOTAS_registry (Some "p") (Some "u")) initial_state)
  = Some {| DbQuotaDriver.minimum := 3; DbQuotaDriver.maximum := 10 |} /\
  returned_entry "cores"
    (eval (DbQuotaDriver.get_settable_quotas example_world example_context
             QUOTAS_registry (Some "p") None) initial_state)
  = Some {| DbQuotaDriver.minimum := 18; DbQuotaDriver.maximum := -1 |} /\
  returned_entry "cores"
    (eval (DbQuotaDriver.get_settable_quotas unmigrated_world example_context
             QUOTAS_registry (Some "p") (Some "u")) initial_state)
  = Some {| DbQuotaDriver.minimum := 3; DbQuotaDriver.maximum := 10 |} /\
  eval (DbQuotaDriver.get_settable_quotas placement_world example_context
          QUOTAS_registry (Some "p") (Some "u")) initial_state
  = Raise (KeyError "user").
Proof.
  pose proof (get_settable_quotas_band example_world example_context
                QUOTAS_registry (Some "p") (Some "u") initial_state
                (registry_of_wf _)) as [Hproject Huser].
  pose proof (get_settable_quotas_band example_world example_context
                QUOTAS_registry (Some "p") None initial_state
                (registry_of_wf _)) as [_ Hnone].
  pose proof (get_settable_quotas_band unmigrated_world example_context
                QUOTAS_registry (Some "p") (Some "u") initial_state
                (registry_of_wf _)) as [_ Hfallback].
  pose proof (get_settable_quotas_band placement_world example_context
                QUOTAS_registry (Some "p") (Some "u") initial_state
                (registry_of_wf _)) as [_ Hraise].
  cbv zeta in Hproject, Huser, Hnone, Hfallback, Hraise.
  rewrite Hproject, Huser, Hnone, Hfallback, Hraise.
  vm_compute. repeat split.
Defined.

(** ** The gate when calls overlap *)

(** The process serves its requests in parallel: while a call waits for
    the answer of a collaborator, other calls run, and a call that finds
    the gate closed is suspended between its existence query and what it
    does with the answer. Whatever the schedule, the state of the module
    changes in three ways only: a call to a collaborator or to the log is
    recorded, [is_qfd_populated] assigns to [UID_QFD_POPULATED_CACHE_ALL],
    and [_instances_cores_ram_count] adds a project to
    [UID_QFD_POPULATED_CACHE_BY_PROJECT]. The state of a process whose
    calls overlap moves by these steps, each taken by one of the calls
    under way. *)
Inductive overlapped_step : ProcState -> ProcState -> Prop :=
| step_call c st : overlapped_step st (call c st).2
| step_set_UID_QFD_POPULATED_CACHE_ALL b st :
    overlapped_step st (set_UID_QFD_POPULATED_CACHE_ALL b st).2
| step_add_UID_QFD_POPULATED_CACHE_BY_PROJECT project_id st :
    overlapped_step st
      (add_UID_QFD_POPULATED_CACHE_BY_PROJECT project_id st).2.

(** Any number of steps of calls that may overlap. *)
Definition overlapped_run : ProcState -> ProcState -> Prop :=
  rtc overlapped_step.

(** [m], run without interruption, moves the state by such steps. *)
Definition by_steps {A} (m : M A) : Prop :=
  forall st, overlapped_run st (m st).2.

(** [is_qfd_populated] from the answer of its existence query on: the
    answer is assigned to the flag, whatever the flag holds by then, and
    the flag is returned. *)
Definition is_qfd_populated_resume (populated : bool) : M bool :=
  set_UID_QFD_POPULATED_CACHE_ALL populated ;;;
  st <- get_state ;;
  ret (UID_QFD_POPULATED_CACHE_ALL st).

(** A call of [is_qfd_populated] that finds the flag unset is its query
    followed by [is_qfd_populated_resume]. *)
Lemma is_qfd_populated_split w context st :
  UID_QFD_POPULATED_CACHE_ALL st = false ->
  is_qfd_populated w context st
  = (populated <- _user_id_queued_for_delete_populated w context None ;;
     is_qfd_populated_resume populated) st.
Proof.
  intros Hall. unfold is_qfd_populated, bind, get_state. by rewrite Hall.
Qed.

(** [_instances_cores_ram_count] from the answer of its existence query
    on: a project whose query answered true is added to the per-project
    cache, and the count follows. *)
Definition _instances_cores_ram_count_resume (w : World)
    (context : RequestContext) (project_id user_id : option string)
    (uid_qfd_populated : bool) : M CountDict :=
  (if uid_qfd_populated
   then add_UID_QFD_POPULATED_CACHE_BY_PROJECT project_id
   else ret tt) ;;;
  if uid_qfd_populated then
    _instances_cores_ram_count_api_db_placement w context project_id user_id
  else
    call (LOG_warning
      "Falling back to legacy quota counting method for instances, cores, and ram") ;;;
    _instances_cores_ram_count_legacy w context project_id user_id.

(** A call of [_instances_cores_ram_count] that counts from placement and
    finds the gate closed is its query followed by
    [_instances_cores_ram_count_resume]. *)
Lemma _instances_cores_ram_count_split w context project_id user_id st :
  CONF_quota_count_usage_from_placement w = true ->
  UID_QFD_POPULATED_CACHE_ALL st = false ->
  project_id ∉ UID_QFD_POPULATED_CACHE_BY_PROJECT st ->
  _instances_cores_ram_count w context project_id user_id st
  = (uid_qfd_populated <-
       _user_id_queued_for_delete_populated w context project_id ;;
     _instances_cores_ram_count_resume w context project_id user_id
       uid_qfd_populated) st.
Proof.
  intros Hconf Hall Hin. unfold _instances_cores_ram_count. rewrite Hconf.
  unfold bind at 1. unfold get_state at 1. rewrite Hall.
  rewrite bool_decide_eq_true_2 by done. cbn [negb andb].
  unfold _instances_cores_ram_count_resume, bind.
  rewrite _user_id_queued_for_delete_populated_run.
  by destruct (db_populated w project_id).
Qed.

Section BySteps.
Context {A B : Type}.

Lemma by_steps_ret (a : A) : by_steps (ret a).
Proof. intros st. apply rtc_refl. Qed.

Lemma by_steps_raise e : by_steps (raise e : M A).
Proof. intros st. apply rtc_refl. Qed.

Lemma by_steps_bind (m : M A) (f : A -> M B) :
  by_steps m -> (forall a, by_steps (f a)) -> by_steps (bind m f).
Proof.
  intros Hm Hf st. unfold bind. specialize (Hm st).
  destruct (m st) as [[a|e] st1]; [|done].
  eapply rtc_trans; [exact Hm|apply Hf].
Qed.

Lemma overlapped_run_add_calls l st : overlapped_run st (add_calls l st).
Proof.
  revert st. induction l as [|c l IH]; intros st.
  - rewrite add_calls_nil. apply rtc_refl.
  - change (c :: l) with ([c] ++ l). rewrite <- add_calls_app.
    eapply rtc_l; [apply (step_call c)|apply IH].
Qed.

Lemma by_steps_log_only (m : M A) : log_only m -> by_steps m.
Proof.
  intros (r & l & Hm) st. rewrite Hm. apply overlapped_run_add_calls.
Qed.
End BySteps.

Lemma by_steps_is_qfd_populated_resume populated :
  by_steps (is_qfd_populated_resume populated).
Proof.
  intros st.
  apply rtc_once, (step_set_UID_QFD_POPULATED_CACHE_ALL populated).
Qed.

Lemma by_steps__instances_cores_ram_count_resume w context project_id user_id
    uid_qfd_populated :
  by_steps
    (_instances_cores_ram_count_resume w context project_id user_id
       uid_qfd_populated).
Proof.
  unfold _instances_cores_ram_count_resume.
  apply by_steps_bind.
  - destruct uid_qfd_populated; [|apply by_steps_ret].
    intros st.
    apply rtc_once, (step_add_UID_QFD_POPULATED_CACHE_BY_PROJECT project_id).
  - intros _. apply by_steps_log_only.
    pose proof log_only__instances_cores_ram_count_api_db_placement.
    pose proof log_only__instances_cores_ram_count_legacy.
    log_only_tac.
Qed.

Lemma by_steps_is_qfd_populated w context : by_steps (is_qfd_populated w context).
Proof.
  intros st. destruct (UID_QFD_POPULATED_CACHE_ALL st) eqn:Hall.
  - rewrite is_qfd_populated_cached by done. apply rtc_refl.
  - rewrite is_qfd_populated_query by done.
    eapply rtc_l; [apply (step_call (Call_exists_query None))|].
    apply rtc_once.
    apply (step_set_UID_QFD_POPULATED_CACHE_ALL (db_populated w None)).
Qed.

Lemma by_steps__instances_cores_ram_count w context project_id user_id :
  by_steps (_instances_cores_ram_count w context project_id user_id).
Proof.
  intros st.
  destruct (CONF_quota_count_usage_from_placement w) eqn:Hconf.
  - destruct (decide (gate_open st project_id)) as [Hopen|Hclosed].
    + rewrite _instances_cores_ram_count_open by done.
      apply by_steps_log_only,
        log_only__instances_cores_ram_count_api_db_placement.
    + assert (Hall : UID_QFD_POPULATED_CACHE_ALL st = false).
      { destruct (UID_QFD_POPULATED_CACHE_ALL st) eqn:Hall; [|done].
        destruct Hclosed. by left. }
      assert (Hin : project_id ∉ UID_QFD_POPULATED_CACHE_BY_PROJECT st).
      { intros Hin. destruct Hclosed. by right. }
      rewrite _instances_cores_ram_count_closed by done.
      destruct (db_populated w project_id).
      * eapply rtc_l; [apply (step_call (Call_exists_query project_id))|].
        eapply rtc_l;
          [apply (step_add_UID_QFD_POPULATED_CACHE_BY_PROJECT project_id)|].
        cbn [call add_UID_QFD_POPULATED_CACHE_BY_PROJECT snd
               UID_QFD_POPULATED_CACHE_ALL UID_QFD_POPULATED_CACHE_BY_PROJECT
               calls].
        rewrite Hall.
        apply by_steps_log_only,
          log_only__instances_cores_ram_count_api_db_placement.
      * eapply rtc_l; [apply (step_call (Call_exists_query project_id))|].
        apply by_steps_log_only, log_only_bind;
          [apply log_only_call
          |intros _; apply log_only__instances_cores_ram_count_legacy].
  - unfold _instances_cores_ram_count. rewrite Hconf.
    apply by_steps_log_only, log_only__instances_cores_ram_count_legacy.
Qed.

Lemma by_steps__server_group_count_members_by_user w context group user_id :
  by_steps (_server_group_count_members_by_user w context group user_id).
Proof.
  unfold _server_group_count_members_by_user.
  apply by_steps_bind; [apply by_steps_is_qfd_populated|].
  intros populated. apply by_steps_log_only.
  pose proof log_only__server_group_count_members_by_user_legacy.
  log_only_tac.
Qed.

Lemma by_steps_count_as_dict w context resource args :
  by_steps (QuotaEngine.count_as_dict w QUOTAS_engine context resource args).
Proof.
  unfold QuotaEngine.count_as_dict.
  destruct (dict_get resource (QuotaEngine._resources QUOTAS_engine))
    as [r|] eqn:Hr; [|apply by_steps_raise].
  apply dict_get_Some_elem in Hr.
  assert (Hall : Forall
            (fun kr => forall args,
                 by_steps
                   match kr.2 with
                   | CountableResource _ f _ =>
                       match f, args with
                       | CountByProject f, QuotaEngine.ArgsProject p u =>
                           f w context p u
                       | CountByProject f, QuotaEngine.ArgsUser u =>
                           f w context u None
                       | CountByUser f, QuotaEngine.ArgsUser u => f w context u
                       | CountByUser f,
                         (QuotaEngine.ArgsProject _ _
                         | QuotaEngine.ArgsGroup _ _) =>
                           raise (TypeError
                             "takes 2 positional arguments but 3 were given")
                       | CountByGroup f, QuotaEngine.ArgsGroup g u =>
                           f w context g u
                       | CountByGroup f, QuotaEngine.ArgsProject p u =>
                           f w context (A_project_id p) u
                       | CountByGroup f, QuotaEngine.ArgsUser _ =>
                           raise (TypeError
                             "missing 1 required positional argument: 'user_id'")
                       | CountByProject f, QuotaEngine.ArgsGroup _ _ =>
                           raise (TypeError "count_as_dict")
                       end
                   | _ => raise (QuotaResourceUnknown [resource])
                   end)
            (QuotaEngine._resources QUOTAS_engine)).
  { each_entry ltac:(intros [p u|u|g u]; cbn [snd];
      first [ apply by_steps__instances_cores_ram_count
            | apply by_steps__server_group_count_members_by_user
            | apply by_steps_raise
            | apply by_steps_log_only;
              unfold _keypair_get_count_by_user, _server_group_count;
              log_only_tac ]). }
  apply (proj1 (Forall_forall _ _) Hall (resource, r) Hr).
Qed.

(** A call that runs without interruption is a run of the overlapped
    process. *)
Lemma process_step_overlapped st st' :
  process_step st st' -> overlapped_run st st'.
Proof.
  intros Hstep. destruct Hstep.
  - apply by_steps_is_qfd_populated.
  - apply by_steps__instances_cores_ram_count.
  - apply by_steps__server_group_count_members_by_user.
  - apply by_steps_count_as_dict.
  - by apply by_steps_log_only.
Qed.

(** However calls overlap, nothing leaves the per-project cache. *)
Lemma overlapped_run_by_project st st' :
  overlapped_run st st' ->
  UID_QFD_POPULATED_CACHE_BY_PROJECT st
    ⊆ UID_QFD_POPULATED_CACHE_BY_PROJECT st'.
Proof.
  induction 1 as [st|st1 st2 st3 Hstep _ IH]; [done|].
  etransitivity; [|exact IH]. destruct Hstep; simpl; [done|done|].
  apply union_subseteq_r.
Qed.

(** Two calls of [is_qfd_populated] that overlap, from the state [st] on.
    Call A finds the flag unset and asks a database that holds an
    unmigrated mapping. *)
Definition overlap_A_asks (st : ProcState) : result bool * ProcState :=
  _user_id_queued_for_delete_populated unmigrated_world example_context None
    st.

(** While A waits for the answer, call B runs from start to end on the
    database as it is by then, migrated. *)
Definition overlap_B_runs (st : ProcState) : result bool * ProcState :=
  is_qfd_populated example_world example_context (overlap_A_asks st).2.

(** A gets its answer, false, and goes on. *)
Definition overlap_A_resumes (st : ProcState) : result bool * ProcState :=
  is_qfd_populated_resume false (overlap_B_runs st).2.

Lemma overlapped_run_overlap st : overlapped_run st (overlap_A_resumes st).2.
Proof.
  eapply rtc_l; [apply (step_call (Call_exists_query None))|].
  eapply rtc_trans; [apply (by_steps_is_qfd_populated example_world
                              example_context)|].
  apply rtc_once, (step_set_UID_QFD_POPULATED_CACHE_ALL false).
Qed.

(** C6, where the code differs: calls of [is_qfd_populated] that overlap
    take the flag from true back to false. A call that finds the flag unset
    is its query followed by the assignment of the answer. B, which runs
    while A waits, returns true and sets the flag; A then assigns the false
    it was answered. After that the flag is unset: the next call asks the
    database again and, on a database that answers false, returns false. *)
Lemma overlapping_calls_reset_the_flag :
  is_qfd_populated unmigrated_world example_context initial_state
  = (populated <-
       _user_id_queued_for_delete_populated unmigrated_world example_context
         None ;;
     is_qfd_populated_resume populated) initial_state /\
  (overlap_A_asks initial_state).1 = Ok false /\
  (overlap_B_runs initial_state).1 = Ok true /\
  UID_QFD_POPULATED_CACHE_ALL (overlap_B_runs initial_state).2 = true /\
  (overlap_A_resumes initial_state).1 = Ok false /\
  UID_QFD_POPULATED_CACHE_ALL (overlap_A_resumes initial_state).2 = false /\
  overlapped_run initial_state (overlap_A_resumes initial_state).2 /\
  is_qfd_populated example_world example_context
    (overlap_A_resumes initial_state).2
  = (Ok true,
     (set_UID_QFD_POPULATED_CACHE_ALL true
        (add_calls [Call_exists_query None]
           (overlap_A_resumes initial_state).2)).2) /\
  eval (is_qfd_populated unmigrated_world example_context)
    (overlap_A_resumes initial_state).2
  = Ok false.
Proof.
  split; [by apply is_qfd_populated_split|].
  do 5 (split; [reflexivity|]).
  split; [apply overlapped_run_overlap|split; reflexivity].
Qed.

(** C6, as the code has it. For calls that run one after the other, each
    seeing a database of its own, nothing leaves the caches: a set global
    flag stays set and a project in the per-project cache stays in it; once
    [is_qfd_populated] has returned true, every later call of it returns
    true and leaves the state, which records the existence queries, as it
    found it; and once the gate is open for a project, every later
    [_instances_cores_ram_count] for that project that counts from
    placement is the placement count, whose only calls are the two counting
    ones. The per-project cache keeps this however calls overlap:
    [_instances_cores_ram_count] adds the project when its query answers
    true, nothing is ever taken out, and a project in the cache is counted
    from placement without a query. Every call that runs without
    interruption is a run of the overlapped process. *)
Theorem migration_gate_is_monotonic_and_memoizing :
  (forall st st', process_run st st' -> gate_le st st') /\
  (forall w context st st' st'' w' context',
      is_qfd_populated w context st = (Ok true, st') ->
      process_run st' st'' ->
      is_qfd_populated w' context' st'' = (Ok true, st'')) /\
  (forall st st'' project_id w' context' user_id',
      gate_open st project_id ->
      process_run st st'' ->
      CONF_quota_count_usage_from_placement w' = true ->
      _instances_cores_ram_count w' context' project_id user_id' st''
      = _instances_cores_ram_count_api_db_placement w' context' project_id
          user_id' st'' /\
      (_instances_cores_ram_count w' context' project_id user_id' st'').2
      = add_calls
          [Call_InstanceMappingList_get_counts project_id user_id';
           Call_get_usages_counts_for_quota project_id user_id'] st'') /\
  (forall w context project_id user_id st,
      CONF_quota_count_usage_from_placement w = true ->
      UID_QFD_POPULATED_CACHE_ALL st = false ->
      eval (_user_id_queued_for_delete_populated w context project_id) st
      = Ok true ->
      project_id
      ∈ UID_QFD_POPULATED_CACHE_BY_PROJECT
          (_instances_cores_ram_count w context project_id user_id st).2) /\
  (forall st st'',
      overlapped_run st st'' ->
      UID_QFD_POPULATED_CACHE_BY_PROJECT st
        ⊆ UID_QFD_POPULATED_CACHE_BY_PROJECT st'') /\
  (forall st st'' project_id w' context' user_id',
      project_id ∈ UID_QFD_POPULATED_CACHE_BY_PROJECT st ->
      overlapped_run st st'' ->
      CONF_quota_count_usage_from_placement w' = true ->
      _instances_cores_ram_count w' context' project_id user_id' st''
      = _instances_cores_ram_count_api_db_placement w' context' project_id
          user_id' st'' /\
      (_instances_cores_ram_count w' context' project_id user_id' st'').2
      = add_calls
          [Call_InstanceMappingList_get_counts project_id user_id';
           Call_get_usages_counts_for_quota project_id user_id'] st'') /\
  (forall st st', process_run st st' -> overlapped_run st st').
Proof.
  split; [apply process_run_gate_le|].
  split; [|split; [|split; [|split; [|split]]]].
  - intros w context st st' st'' w' context' Htrue Hrun.
    apply is_qfd_populated_cached.
    apply (proj1 (process_run_gate_le _ _ Hrun)).
    by apply is_qfd_populated_true in Htrue.
  - intros st st'' project_id w' context' user_id' Hopen Hrun Hconf.
    assert (Hopen' : gate_open st'' project_id).
    { eapply gate_le_open; [by apply process_run_gate_le|done]. }
    rewrite _instances_cores_ram_count_open by done.
    split; [done|].
    apply _instances_cores_ram_count_api_db_placement_calls.
  - intros w context project_id user_id st Hconf Hall Hanswer.
    unfold eval in Hanswer.
    rewrite _user_id_queued_for_delete_populated_run in Hanswer.
    injection Hanswer as Hanswer.
    destruct (decide (project_id ∈ UID_QFD_POPULATED_CACHE_BY_PROJECT st))
      as [Hin|Hin].
    + rewrite _instances_cores_ram_count_open by (done || by right).
      by rewrite (proj2 (log_only_globals _ st
                           (log_only__instances_cores_ram_count_api_db_placement
                              _ _ _ _))).
    + rewrite _instances_cores_ram_count_closed by done.
      rewrite Hanswer.
      rewrite (proj2 (log_only_globals _ _
                        (log_only__instances_cores_ram_count_api_db_placement
                           _ _ _ _))).
      simpl. apply elem_of_union_l. by apply elem_of_singleton.
  - apply overlapped_run_by_project.
  - intros st st'' project_id w' context' user_id' Hin Hrun Hconf.
    pose proof (overlapped_run_by_project _ _ Hrun) as Hsub.
    rewrite _instances_cores_ram_count_open by (done || right; by apply Hsub).
    split; [done|].
    apply _instances_cores_ram_count_api_db_placement_calls.
  - intros st st'. induction 1 as [st|st1 st2 st3 Hstep _ IH]; [apply rtc_refl|].
    eapply rtc_trans; [by apply process_step_overlapped|done].
Qed.

(** The state after a count for project ["p"] that asked a migrated
    database, with usage counted from placement. *)
Definition project_cached : ProcState :=
  (_instances_cores_ram_count placement_world example_context (Some "p") None
     initial_state).2.

(** One after the other: the first call finds every mapping migrated and
    sets the flag. Later the database holds an unmigrated mapping, so that
    the query would answer false; after a count in that world,
    [is_qfd_populated] still returns true without asking, and the count for
    project ["p"] is the placement count. Per project: the count for ["p"]
    puts ["p"] into the per-project cache and leaves the flag unset. Two
    calls of [is_qfd_populated] that overlap leave the flag unset too; all
    the same a later count for ["p"], on a database in which ["p"] is not
    migrated, is the placement count and asks nothing. *)
Lemma migration_gate_is_monotonic_and_memoizing_witness :
  (exists st' st'',
      is_qfd_populated example_world example_context initial_state
      = (Ok true, st') /\
      db_populated unmigrated_world None = false /\
      db_populated unmigrated_world (Some "p") = false /\
      st'' = (_instances_cores_ram_count unmigrated_world example_context
                (Some "p") (Some "u") st').2 /\
      is_qfd_populated unmigrated_world example_context st'' = (Ok true, st'') /\
      calls (_instances_cores_ram_count unmigrated_world example_context
               (Some "p") None st'').2
      = [Call_exists_query None;
         Call_InstanceMappingList_get_counts (Some "p") (Some "u");
         Call_get_usages_counts_for_quota (Some "p") (Some "u");
         Call_InstanceMappingList_get_counts (Some "p") None;
         Call_get_usages_counts_for_quota (Some "p") None]) /\
  Some "p" ∈ UID_QFD_POPULATED_CACHE_BY_PROJECT project_cached /\
  UID_QFD_POPULATED_CACHE_ALL project_cached = false /\
  UID_QFD_POPULATED_CACHE_ALL (overlap_A_resumes project_cached).2 = false /\
  (_instances_cores_ram_count unmigrated_world example_context (Some "p") None
     (overlap_A_resumes project_cached).2).2
  = add_calls [Call_InstanceMappingList_get_counts (Some "p") None;
               Call_get_usages_counts_for_quota (Some "p") None]
      (overlap_A_resumes project_cached).2.
Proof.
  pose proof migration_gate_is_monotonic_and_memoizing
    as (_ & Hglobal & Hopen & Hadd & _ & Hproject & _).
  split.
  { eexists _, _. split; [reflexivity|]. split; [reflexivity|].
    split; [reflexivity|]. split; [reflexivity|].
    split.
    - eapply (Hglobal example_world example_context initial_state);
        [reflexivity|].
      eapply rtc_l; [apply step__instances_cores_ram_count|apply rtc_refl].
    - match goal with
      | |- calls (_ ?st).2 = _ =>
          destruct (Hopen st st (Some "p") unmigrated_world example_context
                      None) as [_ Hcalls];
            [by left|apply rtc_refl|reflexivity|]
      end.
      rewrite Hcalls. reflexivity. }
  assert (Hin : Some "p" ∈ UID_QFD_POPULATED_CACHE_BY_PROJECT project_cached).
  { apply (Hadd placement_world example_context (Some "p") None
             initial_state); reflexivity. }
  split; [exact Hin|]. split; [reflexivity|]. split; [reflexivity|].
  apply (Hproject project_cached (overlap_A_resumes project_cached).2
           (Some "p") unmigrated_world example_context None Hin
           (overlapped_run_overlap project_cached) eq_refl).
Defined.
